(** * agimus_hpp.estimation: the HPP-based estimation node

    A shallow embedding of [src/agimus_hpp/estimation.py] (class
    [Estimation]) and the properties of its frame synchronisation, its
    discrete-state fallback, its estimation cycle and its locking.

    Conventions of the embedding.
    - Python floats are idealised as exact rationals ([Q]); [==], [<] and
      [>] on floats are [Qeq_bool], [Qlt_bool] and friends.
    - A [rospy.Time] is its count of nanoseconds ([Z]); comparing two
      stamps compares these counts.
    - The node object [self] is the record [Estimation]; callbacks are
      computations in a state-and-exception monad over [World], which also
      holds the current configuration of the robot kept by the HPP server
      and the chronological trace of everything the node did to the
      outside (server calls, log calls, publications, tf broadcasts).
    - The HPP server, the ROS parameter server and the numeric libraries
      are an oracle ([Server]): what each call returns and whether it
      raises are inputs of every theorem. *)

From Stdlib Require Import List String Ascii Bool ZArith QArith Qabs Lia Lqa Sorted.
Import ListNotations.

Local Open Scope list_scope.
Local Open Scope Z_scope.
Local Open Scope string_scope.

(** ** Messages *)

Definition Time := Z.
Definition Config := list Q.
Definition StateId := Z.

Record Vector3 := { v_x : Q; v_y : Q; v_z : Q }.
Record Quaternion := { q_x : Q; q_y : Q; q_z : Q; q_w : Q }.
Record Transform := { translation : Vector3; rotation : Quaternion }.
Record Header := { stamp : Time; frame_id : string }.
Record TransformStamped :=
  { header : Header; child_frame_id : string; transform : Transform }.
Record JointState := { js_name : list string; js_position : list Q }.

(** ** Exceptions

    [KeyboardInterrupt] stands for the exceptions that derive from
    [BaseException] only: [except Exception] does not catch them. *)

Inductive exn :=
| UserException (what : string)
| SystemException (what : string)
| AssertionError (what : string)
| KeyError (key : string)
| IndexError
| ThreadError
| KeyboardInterrupt.

Definition is_Exception (e : exn) : bool :=
  match e with KeyboardInterrupt => false | _ => true end.

Definition is_UserException (e : exn) : bool :=
  match e with UserException _ => true | _ => false end.

(** ** The outside world: calls, log records, publications *)

Inductive call :=
| Hpp_client
| Manip_client
| GetParam (key : string)
| GetCurrentConfig
| SetCurrentConfig (q : Config)
| ResetConstraints
| GetNode (q : Config)
| SetConstraints (id : StateId) (target : bool)
| AddLockedJointConstraints (cname : string) (names : list string)
| AddNumericalConstraints (cname : string) (names : list string)
                          (priorities : list Z)
| SetNumericalConstraintsLastPriorityOptional (b : bool)
| ApplyConstraints (q : Config)
| Optimize (q : Config)
| IsConfigValid (q : Config)
| GetRobotName
| GetJointNames
| GetAllJointNames
| GetParentJointName (jn : string)
| GetLinkNames (jn : string)
| GetLinkPosition (l : string)
| GetJointType (jn : string)
| GetJointConfigSize (jn : string)
| GetJointBounds (jn : string)
| CreateLockedJoint (lname jname : string) (value : list Q)
| CreateTransformationConstraint (cname j1 j2 : string) (T : list Q)
                                 (mask : list bool)
| CreatePositionConstraint (cname j1 j2 : string) (p1 p2 : list Q)
                           (mask : list bool)
| CreateOrientationConstraint (cname j1 j2 : string) (q : list Q)
                              (mask : list bool)
| ScCreateScalarMultiply (cname : string) (scalar : Q) (fname : string).

Inductive level := Debug | Info | Warn | Err.

(** One constructor per log site of the source, with the values that the
    site formats into its text. *)
Inductive message :=
| Run_continuous_estimation (b : bool)
| Running_estimation
| Not_running (run ready : bool)
| Optimisation_failed (errNorm : Q)
| Estimated_eq_projected (b : bool)
| Error_is (err : list Q)
| Estimation_in_collision (report : string)
| Could_not_apply (err : Q)
| Exception_str (e : exn)
| Exception_traceback (e : exn)
| Will_publish_joints (jns : list string)
| Current_state (at_ : Time) (id : StateId)
| Assumed_last_state (at_ : Time) (id : StateId)
| Assumed_default_state (at_ : Time) (id : StateId)
| Adding (names : list string)
| Out_of_bounds (name : string) (q : Q) (bounds : list Q)
| Cannot_get_joint_state (e : exn).

(** [period] is [Some n] for the [_throttle (n, ...)] variants. *)
Inductive event :=
| Called (c : call)
| Log (lvl : level) (period : option nat) (m : message)
| Publish_semantic (q : Config)
| Publish_state_id (id : StateId)
| SendTransform (tr rot : list Q) (at_ : Time) (child parent : string).

(** What the collaborators answer.  [fault c] is the exception call [c]
    raises, if any; the [_reply] fields are used when it does not raise.
    [getNode_reply q = None] is the server saying that no state of the
    graph contains [q], which [graph.getNode] reports by raising a CORBA
    [UserException].  [config_after c q] is the current configuration of
    the robot once the server has served [c] starting from [q]: the
    solver is free to move it. *)
Record Server := {
  fault : call -> option exn;
  config_after : call -> Config -> Config;
  getNode_reply : Config -> option StateId;
  applyConstraints_reply : Config -> bool * Config * Q;
  optimize_reply : Config -> bool * Config * list Q;
  isConfigValid_reply : Config -> bool * string;
  getRobotName_reply : string;
  getJointNames_reply : list string;
  getAllJointNames_reply : list string;
  getParentJointName_reply : string -> string;
  getLinkNames_reply : string -> list string;
  getLinkPosition_reply : string -> list Q;
  getJointType_reply : string -> string;
  getJointConfigSize_reply : string -> Z;
  getJointBounds_reply : string -> list Q;
  param_default_state_id : StateId;
  param_default_constraints : list string;
  numpy_norm : list Q -> Q;
  math_cos : Q -> Q;
  math_sin : Q -> Q
}.

(** ** The node object *)

Record Estimation := {
  locked_joints : list string;
  robot_name : string;
  mutex : bool;
  last_stamp_is_ready : bool;
  last_stamp : Time;
  last_visual_tag_constraints : list string;
  current_stamp : Time;
  current_visual_tag_constraints : list string;
  visual_tags_enabled : bool;
  run_continuous_estimation : bool;
  has_manip : bool;
  last_state_id : option StateId;
  universe_child_joint_names : option (list string)
}.

Definition set_locked_joints v (s : Estimation) :=
  {| locked_joints := v; robot_name := robot_name s; mutex := mutex s;
     last_stamp_is_ready := last_stamp_is_ready s;
     last_stamp := last_stamp s;
     last_visual_tag_constraints := last_visual_tag_constraints s;
     current_stamp := current_stamp s;
     current_visual_tag_constraints := current_visual_tag_constraints s;
     visual_tags_enabled := visual_tags_enabled s;
     run_continuous_estimation := run_continuous_estimation s;
     has_manip := has_manip s; last_state_id := last_state_id s;
     universe_child_joint_names := universe_child_joint_names s |}.

Definition set_mutex v (s : Estimation) :=
  {| locked_joints := locked_joints s; robot_name := robot_name s;
     mutex := v;
     last_stamp_is_ready := last_stamp_is_ready s;
     last_stamp := last_stamp s;
     last_visual_tag_constraints := last_visual_tag_constraints s;
     current_stamp := current_stamp s;
     current_visual_tag_constraints := current_visual_tag_constraints s;
     visual_tags_enabled := visual_tags_enabled s;
     run_continuous_estimation := run_continuous_estimation s;
     has_manip := has_manip s; last_state_id := last_state_id s;
     universe_child_joint_names := universe_child_joint_names s |}.

Definition set_last_stamp_is_ready v (s : Estimation) :=
  {| locked_joints := locked_joints s; robot_name := robot_name s;
     mutex := mutex s;
     last_stamp_is_ready := v;
     last_stamp := last_stamp s;
     last_visual_tag_constraints := last_visual_tag_constraints s;
     current_stamp := current_stamp s;
     current_visual_tag_constraints := current_visual_tag_constraints s;
     visual_tags_enabled := visual_tags_enabled s;
     run_continuous_estimation := run_continuous_estimation s;
     has_manip := has_manip s; last_state_id := last_state_id s;
     universe_child_joint_names := universe_child_joint_names s |}.

Definition set_last_stamp v (s : Estimation) :=
  {| locked_joints := locked_joints s; robot_name := robot_name s;
     mutex := mutex s;
     last_stamp_is_ready := last_stamp_is_ready s;
     last_stamp := v;
     last_visual_tag_constraints := last_visual_tag_constraints s;
     current_stamp := current_stamp s;
     current_visual_tag_constraints := current_visual_tag_constraints s;
     visual_tags_enabled := visual_tags_enabled s;
     run_continuous_estimation := run_continuous_estimation s;
     has_manip := has_manip s; last_state_id := last_state_id s;
     universe_child_joint_names := universe_child_joint_names s |}.

Definition set_last_visual_tag_constraints v (s : Estimation) :=
  {| locked_joints := locked_joints s; robot_name := robot_name s;
     mutex := mutex s;
     last_stamp_is_ready := last_stamp_is_ready s;
     last_stamp := last_stamp s;
     last_visual_tag_constraints := v;
     current_stamp := current_stamp s;
     current_visual_tag_constraints := current_visual_tag_constraints s;
     visual_tags_enabled := visual_tags_enabled s;
     run_continuous_estimation := run_continuous_estimation s;
     has_manip := has_manip s; last_state_id := last_state_id s;
     universe_child_joint_names := universe_child_joint_names s |}.

Definition set_current_stamp v (s : Estimation) :=
  {| locked_joints := locked_joints s; robot_name := robot_name s;
     mutex := mutex s;
     last_stamp_is_ready := last_stamp_is_ready s;
     last_stamp := last_stamp s;
     last_visual_tag_constraints := last_visual_tag_constraints s;
     current_stamp := v;
     current_visual_tag_constraints := current_visual_tag_constraints s;
     visual_tags_enabled := visual_tags_enabled s;
     run_continuous_estimation := run_continuous_estimation s;
     has_manip := has_manip s; last_state_id := last_state_id s;
     universe_child_joint_names := universe_child_joint_names s |}.

Definition set_current_visual_tag_constraints v (s : Estimation) :=
  {| locked_joints := locked_joints s; robot_name := robot_name s;
     mutex := mutex s;
     last_stamp_is_ready := last_stamp_is_ready s;
     last_stamp := last_stamp s;
     last_visual_tag_constraints := last_visual_tag_constraints s;
     current_stamp := current_stamp s;
     current_visual_tag_constraints := v;
     visual_tags_enabled := visual_tags_enabled s;
     run_continuous_estimation := run_continuous_estimation s;
     has_manip := has_manip s; last_state_id := last_state_id s;
     universe_child_joint_names := universe_child_joint_names s |}.

Definition set_run_continuous_estimation v (s : Estimation) :=
  {| locked_joints := locked_joints s; robot_name := robot_name s;
     mutex := mutex s;
     last_stamp_is_ready := last_stamp_is_ready s;
     last_stamp := last_stamp s;
     last_visual_tag_constraints := last_visual_tag_constraints s;
     current_stamp := current_stamp s;
     current_visual_tag_constraints := current_visual_tag_constraints s;
     visual_tags_enabled := visual_tags_enabled s;
     run_continuous_estimation := v;
     has_manip := has_manip s; last_state_id := last_state_id s;
     universe_child_joint_names := universe_child_joint_names s |}.

Definition set_last_state_id v (s : Estimation) :=
  {| locked_joints := locked_joints s; robot_name := robot_name s;
     mutex := mutex s;
     last_stamp_is_ready := last_stamp_is_ready s;
     last_stamp := last_stamp s;
     last_visual_tag_constraints := last_visual_tag_constraints s;
     current_stamp := current_stamp s;
     current_visual_tag_constraints := current_visual_tag_constraints s;
     visual_tags_enabled := visual_tags_enabled s;
     run_continuous_estimation := run_continuous_estimation s;
     has_manip := has_manip s; last_state_id := v;
     universe_child_joint_names := universe_child_joint_names s |}.

Definition set_universe_child_joint_names v (s : Estimation) :=
  {| locked_joints := locked_joints s; robot_name := robot_name s;
     mutex := mutex s;
     last_stamp_is_ready := last_stamp_is_ready s;
     last_stamp := last_stamp s;
     last_visual_tag_constraints := last_visual_tag_constraints s;
     current_stamp := current_stamp s;
     current_visual_tag_constraints := current_visual_tag_constraints s;
     visual_tags_enabled := visual_tags_enabled s;
     run_continuous_estimation := run_continuous_estimation s;
     has_manip := has_manip s; last_state_id := last_state_id s;
     universe_child_joint_names := v |}.

Record World := {
  self : Estimation;
  robot_config : Config;
  trace : list event
}.

(** ** The monad of callbacks

    A computation ends by returning, by raising, or never ([Blocked]: it
    waits for a lock nobody will release).  The world it leaves is kept in
    all three cases: what a Python body did before raising stays done. *)

Inductive outcome (A : Type) :=
| Ret (a : A)
| Exc (e : exn)
| Blocked.
Arguments Ret {A} a.
Arguments Exc {A} e.
Arguments Blocked {A}.

Definition M (A : Type) := World -> outcome A * World.

Definition ret {A} (a : A) : M A := fun w => (Ret a, w).

Definition raise {A} (e : exn) : M A := fun w => (Exc e, w).

Definition bind {A B} (m : M A) (k : A -> M B) : M B :=
  fun w =>
    match m w with
    | (Ret a, w') => k a w'
    | (Exc e, w') => (Exc e, w')
    | (Blocked, w') => (Blocked, w')
    end.

Declare Scope py_scope.
Delimit Scope py_scope with py.
Notation "x <- m ;; k" := (bind m (fun x => k))
  (at level 61, m at next level, right associativity) : py_scope.
Notation "' pat <- m ;; k" := (bind m (fun x => match x with pat => k end))
  (at level 61, pat pattern, m at next level, right associativity) : py_scope.
Notation "m ;; k" := (bind m (fun _ => k))
  (at level 61, right associativity) : py_scope.
Local Open Scope py_scope.

(** [try: body except <class> as e: handler e] *)
Definition try_except {A} (body : M A) (catches : exn -> bool)
    (handler : exn -> M A) : M A :=
  fun w =>
    match body w with
    | (Exc e, w') => if catches e then handler e w' else (Exc e, w')
    | r => r
    end.

(** [try: body finally: fin].  An exception of [fin] replaces the outcome
    of [body]. *)
Definition try_finally {A} (body : M A) (fin : M unit) : M A :=
  fun w =>
    match body w with
    | (Blocked, w') => (Blocked, w')
    | (r, w') =>
        match fin w' with
        | (Ret _, w'') => (r, w'')
        | (Exc e, w'') => (Exc e, w'')
        | (Blocked, w'') => (Blocked, w'')
        end
    end.

(** [for x in xs: body x] *)
Fixpoint for_each {A} (xs : list A) (body : A -> M unit) : M unit :=
  match xs with
  | [] => ret tt
  | x :: rest => body x ;; for_each rest body
  end.

(** [xs[i]] *)
Definition getitem {A} (xs : list A) (i : nat) : M A :=
  match nth_error xs i with
  | Some x => ret x
  | None => raise IndexError
  end.

(** [assert cond, text] *)
Definition assert (cond : bool) (text : string) : M unit :=
  if cond then ret tt else raise (AssertionError text).

Definition emit (e : event) : M unit :=
  fun w => (Ret tt, {| self := self w; robot_config := robot_config w;
                       trace := (trace w ++ [e])%list |}).

Definition get_self : M Estimation := fun w => (Ret (self w), w).

(** What the server holds as the current configuration of the robot. *)
Definition get_robot_config : M Config := fun w => (Ret (robot_config w), w).

Definition modify_self (f : Estimation -> Estimation) : M unit :=
  fun w => (Ret tt, {| self := f (self w); robot_config := robot_config w;
                       trace := trace w |}).

Definition log (lvl : level) (period : option nat) (m : message) : M unit :=
  emit (Log lvl period m).

(** [self.mutex.acquire()] and [self.mutex.release()] of a
    [threading.Lock]: acquiring a held lock waits, releasing a free one
    raises. *)
Definition acquire : M unit :=
  fun w => if mutex (self w) then (Blocked, w) else modify_self (set_mutex true) w.

Definition release : M unit :=
  fun w => if mutex (self w) then modify_self (set_mutex false) w
           else (Exc ThreadError, w).

(** ** Python built-ins on the values the node handles *)

Definition Qlt_bool (x y : Q) : bool := negb (Qle_bool y x).

(** [min(a, b)] and [max(a, b)]: the first argument unless the second is
    strictly better. *)
Definition py_min (a b : Q) : Q := if Qlt_bool b a then b else a.
Definition py_max (a b : Q) : Q := if Qlt_bool a b then b else a.

(** [c in s] for a one-character [c]. *)
Fixpoint char_in (c : ascii) (s : string) : bool :=
  match s with
  | EmptyString => false
  | String d rest => if Ascii.eqb c d then true else char_in c rest
  end.

(** [s[n:]] *)
Fixpoint str_from (n : nat) (s : string) : string :=
  match n, s with
  | O, _ => s
  | S n', String _ rest => str_from n' rest
  | S _, EmptyString => EmptyString
  end.

(** [s.startswith(p)] *)
Definition startswith (s p : string) : bool := String.prefix p s.

(** [x in xs] for a list of strings. *)
Definition str_in (x : string) (xs : list string) : bool :=
  existsb (String.eqb x) xs.
Arguments str_in : simpl never.

(** [q1 == q2] on two configurations. *)
Fixpoint config_eqb (a b : Config) : bool :=
  match a, b with
  | [], [] => true
  | x :: a', y :: b' => Qeq_bool x y && config_eqb a' b'
  | _, _ => false
  end.

(** ** [hpp.Quaternion]

    The quaternion class of the HPP Python bindings, stored as
    (x, y, z, w).  [transform] rotates a vector,
    [2 (u.v) u + (s^2 - u.u) v + 2 s (u x v)] with [u] the vector part
    and [s] the scalar part; [inv] is the conjugate over the squared
    norm. *)
Module HppQuaternion.

Local Open Scope Q_scope.

Definition of_list (l : list Q) : Quaternion :=
  {| q_x := nth 0 l 0; q_y := nth 1 l 0; q_z := nth 2 l 0;
     q_w := nth 3 l 0 |}.

Definition toTuple (q : Quaternion) : list Q :=
  [q_x q; q_y q; q_z q; q_w q].

Definition transform (q : Quaternion) (v : Vector3) : Vector3 :=
  let ux := q_x q in let uy := q_y q in let uz := q_z q in
  let s := q_w q in
  let uv := ux * v_x v + uy * v_y v + uz * v_z v in
  let uu := ux * ux + uy * uy + uz * uz in
  {| v_x := 2 * uv * ux + (s * s - uu) * v_x v
            + 2 * s * (uy * v_z v - uz * v_y v);
     v_y := 2 * uv * uy + (s * s - uu) * v_y v
            + 2 * s * (uz * v_x v - ux * v_z v);
     v_z := 2 * uv * uz + (s * s - uu) * v_z v
            + 2 * s * (ux * v_y v - uy * v_x v) |}.

Definition normSquared (q : Quaternion) : Q :=
  q_x q * q_x q + q_y q * q_y q + q_z q * q_z q + q_w q * q_w q.

Definition inv (q : Quaternion) : Quaternion :=
  let n := normSquared q in
  {| q_x := - q_x q / n; q_y := - q_y q / n; q_z := - q_z q / n;
     q_w := q_w q / n |}.

End HppQuaternion.

(** * The node *)

Section Node.

Variable srv : Server.

(** Introspection and edits of the constraint set leave the robot where
    it is; the calls that evaluate the constraints or the graph at a
    configuration may leave any configuration as the current one;
    [setCurrentConfig] sets it. *)
Definition moves_robot (c : call) : bool :=
  match c with
  | GetNode _ | ApplyConstraints _ | Optimize _ | IsConfigValid _ => true
  | _ => false
  end.

Definition robot_after (c : call) (q : Config) : Config :=
  match c with
  | SetCurrentConfig q' => q'
  | _ => if moves_robot c then config_after srv c q else q
  end.

(** A call to a collaborator is recorded, then it raises or is served. *)
Definition invoke (c : call) : M unit :=
  fun w =>
    match fault srv c with
    | Some e =>
        (Exc e, {| self := self w; robot_config := robot_config w;
                   trace := (trace w ++ [Called c])%list |})
    | None =>
        (Ret tt, {| self := self w;
                    robot_config := robot_after c (robot_config w);
                    trace := (trace w ++ [Called c])%list |})
    end.

Definition hpp : M unit := invoke Hpp_client.
Definition manip : M unit := invoke Manip_client.

Definition getCurrentConfig : M Config :=
  invoke GetCurrentConfig ;; get_robot_config.

Definition setCurrentConfig (q : Config) : M unit :=
  invoke (SetCurrentConfig q).

Definition resetConstraints : M unit := invoke ResetConstraints.

Definition getNode (q : Config) : M StateId :=
  invoke (GetNode q) ;;
  match getNode_reply srv q with
  | Some id => ret id
  | None => raise (UserException "no state contains the configuration")
  end.

Definition setConstraints (id : StateId) (target : bool) : M unit :=
  invoke (SetConstraints id target).

Definition addLockedJointConstraints (cname : string) (names : list string)
  : M unit := invoke (AddLockedJointConstraints cname names).

Definition addNumericalConstraints (cname : string) (names : list string)
    (priorities : list Z) : M unit :=
  invoke (AddNumericalConstraints cname names priorities).

Definition setNumericalConstraintsLastPriorityOptional (b : bool) : M unit :=
  invoke (SetNumericalConstraintsLastPriorityOptional b).

Definition applyConstraints (q : Config) : M (bool * Config * Q) :=
  invoke (ApplyConstraints q) ;; ret (applyConstraints_reply srv q).

Definition optimize (q : Config) : M (bool * Config * list Q) :=
  invoke (Optimize q) ;; ret (optimize_reply srv q).

Definition isConfigValid (q : Config) : M (bool * string) :=
  invoke (IsConfigValid q) ;; ret (isConfigValid_reply srv q).

Definition getRobotName : M string :=
  invoke GetRobotName ;; ret (getRobotName_reply srv).

Definition getJointNames : M (list string) :=
  invoke GetJointNames ;; ret (getJointNames_reply srv).

Definition getAllJointNames : M (list string) :=
  invoke GetAllJointNames ;; ret (getAllJointNames_reply srv).

Definition getParentJointName (jn : string) : M string :=
  invoke (GetParentJointName jn) ;; ret (getParentJointName_reply srv jn).

Definition getLinkNames (jn : string) : M (list string) :=
  invoke (GetLinkNames jn) ;; ret (getLinkNames_reply srv jn).

Definition getLinkPosition (l : string) : M (list Q) :=
  invoke (GetLinkPosition l) ;; ret (getLinkPosition_reply srv l).

Definition getJointType (jn : string) : M string :=
  invoke (GetJointType jn) ;; ret (getJointType_reply srv jn).

Definition getJointConfigSize (jn : string) : M Z :=
  invoke (GetJointConfigSize jn) ;; ret (getJointConfigSize_reply srv jn).

Definition getJointBounds (jn : string) : M (list Q) :=
  invoke (GetJointBounds jn) ;; ret (getJointBounds_reply srv jn).

Definition createLockedJoint (lname jname : string) (value : list Q)
  : M unit := invoke (CreateLockedJoint lname jname value).

(** [rospy.get_param (key)] without a default raises [KeyError] when the
    parameter is not set: that is [fault srv (GetParam key)]. *)
Definition get_param_default_state_id : M StateId :=
  invoke (GetParam "default_state_id") ;; ret (param_default_state_id srv).

Definition get_param_default_constraints : M (list string) :=
  invoke (GetParam "default_constraints") ;;
  ret (param_default_constraints srv).

(** ** [continuous_estimation] and [spin] *)

Definition continuous_estimation (data : bool) : M (bool * string) :=
  modify_self (set_run_continuous_estimation data) ;;
  s <- get_self ;;
  log Info None (Run_continuous_estimation (run_continuous_estimation s)) ;;
  ret (true, "ok").

(** ** [publish_state] *)

Fixpoint filter_m {A} (p : A -> M bool) (xs : list A) : M (list A) :=
  match xs with
  | [] => ret []
  | x :: rest =>
      keep <- p x ;;
      tl <- filter_m p rest ;;
      ret (if keep then x :: tl else tl)
  end.

Definition tf_root : string := "world".

Definition publish_state : M unit :=
  robot_name <- getRobotName ;;
  s <- get_self ;;
  match universe_child_joint_names s with
  | Some _ => ret tt
  | None =>
      jns <- getJointNames ;;
      children <- filter_m
        (fun jn => p <- getParentJointName jn ;;
                   ret (String.eqb "universe" p)) jns ;;
      modify_self (set_universe_child_joint_names (Some children)) ;;
      log Info None (Will_publish_joints children)
  end ;;
  s <- get_self ;;
  for_each (match universe_child_joint_names s with
            | Some jns => jns
            | None => []
            end)
    (fun jn =>
       links <- getLinkNames jn ;;
       for_each links
         (fun l =>
            T <- getLinkPosition l ;;
            let name :=
              if startswith l robot_name
              then str_from (String.length robot_name + 1) l
              else l in
            s <- get_self ;;
            emit (SendTransform (firstn 3 T) (firstn 4 (skipn 3 T))
                                (last_stamp s) name tf_root))) ;;
  all_joints <- getAllJointNames ;;
  let robot_joints := filter (fun x => startswith x robot_name) all_joints in
  for_each robot_joints
    (fun jn =>
       links <- getLinkNames jn ;;
       for_each links
         (fun name =>
            T <- getLinkPosition name ;;
            s <- get_self ;;
            emit (SendTransform (firstn 3 T) (firstn 4 (skipn 3 T))
                                (last_stamp s) name tf_root))).

(** ** [_initialize_constraints] *)

Definition _initialize_constraints (q_current : Config) : M unit :=
  hpp ;;
  resetConstraints ;;
  s <- get_self ;;
  (if has_manip s then
     manip ;;
     state_id <-
       try_except
         (state_id <- getNode q_current ;;
          s <- get_self ;;
          log Info (Some 1%nat) (Current_state (last_stamp s) state_id) ;;
          ret state_id)
         is_UserException
         (fun _ =>
            s <- get_self ;;
            match last_state_id s with
            | Some state_id =>
                log Warn (Some 1%nat)
                    (Assumed_last_state (last_stamp s) state_id) ;;
                ret state_id
            | None =>
                state_id <- get_param_default_state_id ;;
                log Warn (Some 1%nat)
                    (Assumed_default_state (last_stamp s) state_id) ;;
                ret state_id
            end) ;;
     modify_self (set_last_state_id (Some state_id)) ;;
     emit (Publish_state_id state_id) ;;
     setConstraints state_id true ;;
     s <- get_self ;;
     addLockedJointConstraints "unused" (locked_joints s)
   else
     default_constraints <- get_param_default_constraints ;;
     s <- get_self ;;
     addLockedJointConstraints "unused" (locked_joints s) ;;
     addNumericalConstraints "constraints" default_constraints
       (map (fun _ => 0) default_constraints)) ;;
  s <- get_self ;;
  if (0 <? List.length (last_visual_tag_constraints s))%nat then
    log Info (Some 1%nat) (Adding (last_visual_tag_constraints s)) ;;
    addNumericalConstraints "unused" (last_visual_tag_constraints s)
      (map (fun _ => 1) (last_visual_tag_constraints s)) ;;
    setNumericalConstraintsLastPriorityOptional true
  else ret tt.

(** ** [estimation] *)

Definition estimation : M unit :=
  acquire ;;
  try_finally
    (try_except
       (hpp ;;
        q_current <- getCurrentConfig ;;
        _initialize_constraints q_current ;;
        ' (projOk, q_projected, error) <- applyConstraints q_current ;;
        if projOk : bool then
          ' (optOk, q_estimated, error) <- optimize q_projected ;;
          (if negb optOk then
             let errNorm := numpy_norm srv error in
             (if Qlt_bool (1 # 100) errNorm (* errNorm > 1e-2 *) then
                log Warn (Some 1%nat) (Optimisation_failed errNorm) ;;
                log Debug (Some 1%nat)
                    (Estimated_eq_projected
                       (config_eqb q_projected q_estimated))
              else
                log Info (Some 1%nat) (Optimisation_failed errNorm)) ;;
             log Debug (Some 1%nat) (Error_is error)
           else ret tt) ;;
          ' (valid, msg) <- isConfigValid q_estimated ;;
          (if negb valid then
             log Warn (Some 1%nat) (Estimation_in_collision msg)
           else ret tt) ;;
          emit (Publish_semantic q_estimated) ;;
          publish_state
        else
          setCurrentConfig q_current ;;
          log Warn (Some 1%nat) (Could_not_apply error))
       is_Exception
       (fun e =>
          log Err (Some 1%nat) (Exception_str e) ;;
          log Err (Some 1%nat) (Exception_traceback e)))
    (modify_self (set_last_stamp_is_ready false) ;;
     release).

(** One turn of the [while] loop of [spin]; [rate.sleep()] has no effect on
    the world. *)
Definition spin_once : M unit :=
  s <- get_self ;;
  if run_continuous_estimation s && last_stamp_is_ready s then
    log Debug None Running_estimation ;;
    estimation
  else
    log Debug None
        (Not_running (run_continuous_estimation s) (last_stamp_is_ready s)).

(** ** [get_joint_state] *)

Definition get_joint_state (js_msg : JointState) : M unit :=
  acquire ;;
  try_finally
    (try_except
       (hpp ;;
        robot_name <- getRobotName ;;
        let robot_name :=
          if (0 <? String.length robot_name)%nat then robot_name ++ "/"
          else robot_name in
        for_each (combine (js_name js_msg) (js_position js_msg))
          (fun '(jn, q) =>
             let name := robot_name ++ jn in
             jt <- getJointType name ;;
             qjoint <-
               (if startswith jt "JointModelRUB" then
                  sz <- getJointConfigSize name ;;
                  assert (sz =? 2)%Z (name ++ " is not of size 2") ;;
                  ret [math_cos srv q; math_sin srv q]
                else
                  sz <- getJointConfigSize name ;;
                  assert (sz =? 1)%Z (name ++ " is not of size 1") ;;
                  bounds <- getJointBounds name ;;
                  b0 <- getitem bounds 0 ;;
                  out <-
                    (if Qlt_bool (q - b0)%Q (- (1 # 1000))%Q then ret true
                     else
                       b1 <- getitem bounds 1 ;;
                       ret (Qlt_bool (1 # 1000) (q - b1)%Q)) ;;
                  (if out : bool then
                     log Warn (Some 1%nat) (Out_of_bounds name q bounds)
                   else ret tt) ;;
                  b1 <- getitem bounds 1 ;;
                  b0 <- getitem bounds 0 ;;
                  ret [py_min b1 (py_max b0 q)]) ;;
             createLockedJoint ("lock_" ++ name) name qjoint) ;;
        s <- get_self ;;
        if (List.length (locked_joints s) =? 0)%nat then
          modify_self
            (set_locked_joints
               (map (fun n => "lock_" ++ robot_name ++ n) (js_name js_msg)))
        else ret tt)
       is_UserException
       (fun e => log Err None (Cannot_get_joint_state e)))
    release.

(** ** [_get_transformation_constraint] *)

Definition _get_transformation_constraint (joint1 joint2 : string)
    (transform : Transform) (prefix : string) (orientationWeight : Q)
  : M (list string) :=
  hpp ;;
  s <- get_self ;;
  let j1 := if char_in "/" joint1 then joint1
            else robot_name s ++ "/" ++ joint1 in
  let j2 := if char_in "/" joint2 then joint2
            else robot_name s ++ "/" ++ joint2 in
  let name := prefix ++ j1 ++ "_" ++ j2 in
  let T := [ v_x (translation transform);
             v_y (translation transform);
             v_z (translation transform);
             q_x (rotation transform);
             q_y (rotation transform);
             q_z (rotation transform);
             q_w (rotation transform) ] in
  if Qeq_bool orientationWeight 1 then
    let names := ["T_" ++ name] in
    n0 <- getitem names 0 ;;
    invoke (CreateTransformationConstraint n0 j1 j2 T (repeat true 6)) ;;
    ret names
  else
    let names := ["P_" ++ name; "sO_" ++ name] in
    n0 <- getitem names 0 ;;
    invoke (CreatePositionConstraint n0 j1 j2 (firstn 3 T) [0%Q; 0%Q; 0%Q]
                                     (repeat true 3)) ;;
    invoke (CreateOrientationConstraint ("O_" ++ name) j1 j2
              (HppQuaternion.toTuple
                 (HppQuaternion.inv (HppQuaternion.of_list (skipn 3 T))))
              (repeat true 3)) ;;
    n1 <- getitem names 1 ;;
    invoke (ScCreateScalarMultiply n1 orientationWeight ("O_" ++ name)) ;;
    ret names.

(** ** [get_visual_tag] *)

(** The weight [s] that [get_visual_tag] computes from the rotation of the
    detection before it takes the lock. *)
Definition orientation_weight (rot : Quaternion) : Q :=
  let distW := 1%Q in
  let oriW :=
    (- v_z (HppQuaternion.transform rot {| v_x := 0; v_y := 0; v_z := 1 |}))%Q in
  let tagsize := ((63 # 1000) * 4)%Q (* 0.063 * 4 *) in
  (tagsize * oriW * distW)%Q.

Definition get_visual_tag (ts_msg : TransformStamped) : M unit :=
  let stamp := stamp (header ts_msg) in
  s <- get_self ;;
  if (stamp <? current_stamp s)%Z then ret tt
  else
    let rot := rotation (transform ts_msg) in
    let s := orientation_weight rot in
    try_finally
      (acquire ;;
       names <- _get_transformation_constraint
                  (frame_id (header ts_msg)) (child_frame_id ts_msg)
                  (transform ts_msg) "" s ;;
       st <- get_self ;;
       (if (current_stamp st <? stamp)%Z then
          modify_self (fun st => set_last_stamp (current_stamp st) st) ;;
          modify_self
            (fun st => set_last_visual_tag_constraints
                         (current_visual_tag_constraints st) st) ;;
          modify_self (set_current_stamp stamp) ;;
          modify_self (set_current_visual_tag_constraints []) ;;
          modify_self (set_last_stamp_is_ready true)
        else ret tt) ;;
       modify_self
         (fun st => set_current_visual_tag_constraints
                      (current_visual_tag_constraints st ++ names)%list st))
      release.

(** ** [get_base_pose_estimation] *)

Definition get_base_pose_estimation (ts_msg : TransformStamped) : M unit :=
  let stamp := stamp (header ts_msg) in
  s <- get_self ;;
  if (stamp <? current_stamp s)%Z then ret tt
  else
    acquire ;;
    try_finally
      (hpp ;;
       robot_name <- getRobotName ;;
       names <- _get_transformation_constraint
                  "universe" (robot_name ++ "/root_joint")
                  (transform ts_msg) "base/" 1%Q ;;
       n0 <- getitem names 0 ;;
       st <- get_self ;;
       (if negb (str_in n0 (current_visual_tag_constraints st)) then
          modify_self
            (fun st => set_current_visual_tag_constraints
                         (current_visual_tag_constraints st ++ names)%list st)
        else ret tt) ;;
       st <- get_self ;;
       if negb (visual_tags_enabled st) then
         modify_self (fun st => set_last_stamp (current_stamp st) st) ;;
         modify_self
           (fun st => set_last_visual_tag_constraints
                        (current_visual_tag_constraints st) st) ;;
         modify_self (set_current_stamp stamp) ;;
         modify_self (set_current_visual_tag_constraints []) ;;
         modify_self (set_last_stamp_is_ready true)
       else ret tt)
      release.

End Node.

(** [spin]: the loop makes one turn per element of [ticks], the state of
    the collaborators at each turn, until [rospy.is_shutdown()]. *)
Fixpoint spin (ticks : list Server) : M unit :=
  match ticks with
  | [] => ret tt
  | srv :: rest => spin_once srv ;; spin rest
  end.

(** [__init__]: [now1] and [now2] are the two readings of
    [rospy.Time.now()], [manip] tells whether the client of the
    manipulation server is there. *)
Definition init (name : string) (now1 now2 : Time)
    (continuous visual_tags manip : bool) : Estimation :=
  {| locked_joints := []; robot_name := name; mutex := false;
     last_stamp_is_ready := false;
     last_stamp := now1; last_visual_tag_constraints := [];
     current_stamp := now2; current_visual_tag_constraints := [];
     visual_tags_enabled := visual_tags;
     run_continuous_estimation := continuous;
     has_manip := manip; last_state_id := None;
     universe_child_joint_names := None |}.

(** A server that answers every call. *)
Definition answers (srv : Server) : Prop := forall c, fault srv c = None.

(** The events added to the trace between two worlds. *)
Definition since (w w' : World) : list event :=
  skipn (List.length (trace w)) (trace w').

(** * What is observed of a run *)

(** The name under which [get_joint_state] looks a joint up. *)
Definition joint_path (srv : Server) (jn : string) : string :=
  (if (0 <? String.length (getRobotName_reply srv))%nat
   then getRobotName_reply srv ++ "/"
   else getRobotName_reply srv) ++ jn.

(** The states published on [state_id], the states whose constraints were
    copied to the problem, and whether the default state was asked for. *)
Definition published_states (l : list event) : list StateId :=
  flat_map (fun e => match e with Publish_state_id id => [id] | _ => [] end) l.

Definition states_used (l : list event) : list StateId :=
  flat_map (fun e => match e with
                     | Called (SetConstraints id true) => [id]
                     | _ => []
                     end) l.

Definition asks_default_state (l : list event) : bool :=
  existsb (fun e => match e with
                    | Called (GetParam key) => String.eqb key "default_state_id"
                    | _ => false
                    end) l.

(** [getNode] fails on [q]: the server says that no state contains [q], or
    the call raises a [UserException] of its own. *)
Definition getNode_fails (srv : Server) (q : Config) : Prop :=
  (fault srv (GetNode q) = None /\ getNode_reply srv q = None) \/
  exists what, fault srv (GetNode q) = Some (UserException what).

(** The cycle resolved the state to [id]: [id] is the cached state, the one
    state published and the one state whose constraints are used. *)
Definition resolved_to (id : StateId) (w w' : World) : Prop :=
  last_state_id (self w') = Some id /\
  published_states (since w w') = [id] /\
  states_used (since w w') = [id].

(** Whether the optimiser was called, and whether an estimate or a
    transform went out. *)
Definition optimizes (l : list event) : bool :=
  existsb (fun e => match e with Called (Optimize _) => true | _ => false end) l.

Definition publishes (l : list event) : bool :=
  existsb (fun e => match e with
                    | Publish_semantic _ | SendTransform _ _ _ _ _ => true
                    | _ => false
                    end) l.

(** What [_initialize_constraints] does to the outside: it resolves the
    state and sets the constraints up; it neither projects, nor optimises,
    nor publishes an estimate. *)
Definition setup_event (e : event) : bool :=
  match e with
  | Called (Hpp_client | Manip_client | GetParam _ | ResetConstraints
           | GetNode _ | SetConstraints _ _ | AddLockedJointConstraints _ _
           | AddNumericalConstraints _ _ _
           | SetNumericalConstraintsLastPriorityOptional _) => true
  | Log _ _ (Current_state _ _ | Assumed_last_state _ _
            | Assumed_default_state _ _ | Adding _) => true
  | Publish_state_id _ => true
  | _ => false
  end.

(** What [publish_state] does to the outside: it reads the model and
    broadcasts transforms. *)
Definition broadcast_event (e : event) : bool :=
  match e with
  | Called (GetRobotName | GetJointNames | GetAllJointNames
           | GetParentJointName _ | GetLinkNames _ | GetLinkPosition _) => true
  | Log Info None (Will_publish_joints _) => true
  | SendTransform _ _ _ _ _ => true
  | _ => false
  end.

(** The throttled records of a failed optimisation, with their level and
    the norm they report, and the estimates sent on [semantic]. *)
Definition optimisation_signals (l : list event) : list (level * Q) :=
  flat_map (fun e => match e with
                     | Log lvl (Some 1%nat) (Optimisation_failed n) => [(lvl, n)]
                     | _ => []
                     end) l.

Definition estimates_published (l : list event) : list Config :=
  flat_map (fun e => match e with Publish_semantic q => [q] | _ => [] end) l.

(** The joint name the builder uses for [joint]: qualified by the name of
    the robot unless it holds a slash already. *)
Definition qualified (s : Estimation) (joint : string) : string :=
  if char_in "/" joint then joint else robot_name s ++ "/" ++ joint.

Definition pose_of (tr : Transform) : list Q :=
  [ v_x (translation tr); v_y (translation tr); v_z (translation tr);
    q_x (rotation tr); q_y (rotation tr); q_z (rotation tr);
    q_w (rotation tr) ].

(** The out-of-bounds warnings and the locked joints of a list of events. *)
Definition bound_warnings (l : list event) : list (string * Q * list Q) :=
  flat_map (fun e => match e with
                     | Log Warn (Some 1%nat) (Out_of_bounds name q bounds) =>
                         [(name, q, bounds)]
                     | _ => []
                     end) l.

Definition joints_locked (l : list event) : list (string * string * list Q) :=
  flat_map (fun e => match e with
                     | Called (CreateLockedJoint lname jname value) =>
                         [(lname, jname, value)]
                     | _ => []
                     end) l.

(** The weights handed to the solver as scalings of an orientation error. *)
Definition weights_passed (l : list event) : list Q :=
  flat_map (fun e => match e with
                     | Called (ScCreateScalarMultiply _ s _) => [s]
                     | _ => []
                     end) l.

(** A run of tag detections, each served by the server of its time: the
    worlds after each callback, and the last of them. *)
Fixpoint tags_history (steps : list (Server * TransformStamped)) (w : World)
  : list World :=
  match steps with
  | [] => []
  | (srv, ts) :: rest =>
      let w' := snd (get_visual_tag srv ts w) in
      w' :: tags_history rest w'
  end.

Definition tags_final (steps : list (Server * TransformStamped)) (w : World)
  : World :=
  fold_left (fun w st => snd (get_visual_tag (fst st) (snd st) w)) steps w.

(** The names [get_visual_tag] gets from the builder for a detection, on a
    server that answers. *)
Definition tag_names (s : Estimation) (ts : TransformStamped) : list string :=
  let name := qualified s (frame_id (header ts)) ++ "_"
              ++ qualified s (child_frame_id ts) in
  if Qeq_bool (orientation_weight (rotation (transform ts))) 1
  then ["T_" ++ name]
  else ["P_" ++ name; "sO_" ++ name].

(** What a tag detection does to the frames of the node, on a server that
    answers: nothing when it is stale, a rollover when it is stamped after
    the open frame, an append to the open frame otherwise. *)
Definition after_tag (s : Estimation) (ts : TransformStamped) : Estimation :=
  let t := stamp (header ts) in
  if (t <? current_stamp s)%Z then s
  else if (current_stamp s <? t)%Z then
    set_current_visual_tag_constraints (tag_names s ts)
      (set_last_stamp_is_ready true
         (set_current_stamp t
            (set_last_visual_tag_constraints (current_visual_tag_constraints s)
               (set_last_stamp (current_stamp s) s))))
  else
    set_current_visual_tag_constraints
      (current_visual_tag_constraints s ++ tag_names s ts)%list s.

(** The frames after a list of detections. *)
Definition frames (s : Estimation) (dets : list TransformStamped) : Estimation :=
  fold_left after_tag dets s.

(** ** What a computation may do

    [emits ok m]: [m] never waits for a lock and leaves the mutex as it
    found it, and all it does to the trace is to append events that
    satisfy [ok]. *)

Definition extends (ok : event -> bool) (w w' : World) : Prop :=
  mutex (self w') = mutex (self w) /\
  exists l, trace w' = (trace w ++ l)%list /\ forallb ok l = true.

Definition emits (ok : event -> bool) {A} (m : M A) : Prop :=
  forall w, fst (m w) <> Blocked /\ extends ok w (snd (m w)).

Definition any_event (e : event) : bool := true.

(** * Sample collaborators and worlds, for the concrete runs *)

Module Sample.

Local Open Scope Q_scope.

(** A robot "talos" with one revolute joint "arm" bounded by [0, 1].  The
    server is made of what it raises, the state its graph finds, the
    answers of the projection and of the optimisation, and the size it
    declares for a joint. *)
Definition make (faults : call -> option exn)
    (node : Config -> option StateId)
    (projection : Config -> bool * Config * Q)
    (optimisation : Config -> bool * Config * list Q)
    (size : Z) : Server :=
  {| fault := faults;
     config_after := fun _ q => map (fun x => x + 1) q;
     getNode_reply := node;
     applyConstraints_reply := projection;
     optimize_reply := optimisation;
     isConfigValid_reply := fun _ => (true, "");
     getRobotName_reply := "talos";
     getJointNames_reply := ["talos/root_joint"; "talos/arm"];
     getAllJointNames_reply := ["universe"; "talos/root_joint"; "talos/arm"];
     getParentJointName_reply :=
       fun jn => if String.eqb jn "talos/root_joint" then "universe"
                 else "talos/root_joint";
     getLinkNames_reply := fun jn => [jn ++ "_link"];
     getLinkPosition_reply := fun _ => [0; 0; 0; 0; 0; 0; 1];
     getJointType_reply := fun _ => "JointModelRZ";
     getJointConfigSize_reply := fun _ => size;
     getJointBounds_reply := fun _ => [0; 1];
     param_default_state_id := 0%Z;
     param_default_constraints := ["gaze"];
     numpy_norm := fun e => fold_right (fun x a => Qabs x + a) 0 e;
     math_cos := fun _ => 1;
     math_sin := fun _ => 0 |}.

Definition no_fault (c : call) : option exn := None.

(** Everything works: state 7, projection and optimisation succeed. *)
Definition server : Server :=
  make no_fault (fun _ => Some 7%Z) (fun q => (true, q, 0))
       (fun q => (true, q, [])) 1.

(** The graph finds no state. *)
Definition lost : Server :=
  make no_fault (fun _ => None) (fun q => (true, q, 0))
       (fun q => (true, q, [])) 1.

(** The projection fails. *)
Definition stuck : Server :=
  make no_fault (fun _ => Some 7%Z) (fun q => (false, q, 3 # 10))
       (fun q => (true, q, [])) 1.

(** The optimiser reports failure, far from the solution and close to
    it. *)
Definition diverging : Server :=
  make no_fault (fun _ => Some 7%Z) (fun q => (true, q, 0))
       (fun q => (false, map (fun x => x + (1 # 10)) q, [3 # 100; - (4 # 100)]))
       1.

Definition converging : Server :=
  make no_fault (fun _ => Some 7%Z) (fun q => (true, q, 0))
       (fun q => (false, q, [1 # 1000; - (2 # 1000)])) 1.

(** The joint "arm" is declared with two coordinates. *)
Definition two_coordinates : Server :=
  make no_fault (fun _ => Some 7%Z) (fun q => (true, q, 0))
       (fun q => (true, q, [])) 2.

Definition node : Estimation := init "talos" 10%Z 10%Z true true true.

Definition world : World :=
  {| self := node; robot_config := [1 # 2]; trace := [] |}.

(** A frame of one tag, stamped 10, is ready. *)
Definition ready : World :=
  {| self :=
       set_last_stamp_is_ready true
         (set_last_visual_tag_constraints ["T_talos/camera_talos/tag1"]
            (set_current_stamp 20%Z node));
     robot_config := [1 # 2]; trace := [] |}.

(** State 4 was resolved in an earlier cycle. *)
Definition cached : World :=
  {| self := set_last_state_id (Some 4%Z) node;
     robot_config := [1 # 2]; trace := [] |}.

(** The node was started with the visual tags disabled. *)
Definition blind : World :=
  {| self := init "talos" 10%Z 10%Z true false true;
     robot_config := [1 # 2]; trace := [] |}.

Definition identity : Quaternion :=
  {| q_x := 0; q_y := 0; q_z := 0; q_w := 1 |}.

(** A tag seen from the front: half a turn about the x axis, so that the
    normal of the tag points back to the camera. *)
Definition facing : Quaternion :=
  {| q_x := 1; q_y := 0; q_z := 0; q_w := 0 |}.

Definition detection (t : Time) (tag : string) (rot : Quaternion)
  : TransformStamped :=
  {| header := {| stamp := t; frame_id := "camera" |};
     child_frame_id := tag;
     transform :=
       {| translation := {| v_x := 0; v_y := 0; v_z := 1 |};
          rotation := rot |} |}.

End Sample.

(** * Further observations *)

(** ** What a computation keeps

    [keeps I ok m]: when the node satisfies [I] before [m] it satisfies it
    after, and all [m] does to the trace is to append events that satisfy
    [ok].  Unlike [emits] it follows what the node holds, so [ok] may
    speak of it. *)
Definition keeps (I : Estimation -> Prop) (ok : event -> bool) {A}
    (m : M A) : Prop :=
  forall w, I (self w) ->
    I (self (snd (m w))) /\
    exists l, trace (snd (m w)) = (trace w ++ l)%list /\ forallb ok l = true.

(** The frames of the node, the joints it locks and its settings: all of
    [self] but the mutex, the ready flag and the two caches. *)
Definition frames_view (s : Estimation)
  : Time * list string * Time * list string * list string
    * string * bool * bool * bool :=
  (last_stamp s, last_visual_tag_constraints s, current_stamp s,
   current_visual_tag_constraints s, locked_joints s, robot_name s,
   visual_tags_enabled s, run_continuous_estimation s, has_manip s).

(** A transform is broadcast at stamp [t] under the root frame. *)
Definition stamped_at (t : Time) (e : event) : bool :=
  match e with
  | SendTransform _ _ at_ _ parent => (at_ =? t)%Z && String.eqb parent "world"
  | _ => true
  end.

(** The model declares [name] as a joint with one coordinate, of a type
    other than the unbounded rotation, with bounds [b0] and [b1]. *)
Definition one_dimensional (srv : Server) (name : string) (b0 b1 : Q)
  : Prop :=
  startswith (getJointType_reply srv name) "JointModelRUB" = false /\
  getJointConfigSize_reply srv name = 1 /\
  getJointBounds_reply srv name = [b0; b1].

(** The position [snd jq] received for the joint [fst jq] is strictly
    inside the bounds of that joint. *)
Definition strictly_inside (srv : Server) (jq : string * Q) : Prop :=
  exists b0 b1,
    one_dimensional srv (joint_path srv (fst jq)) b0 b1 /\
    (b0 < snd jq)%Q /\ (snd jq < b1)%Q.

(** What [get_joint_state] asks and does for a joint it locks at [q]. *)
Definition locks_at (srv : Server) (jq : string * Q) : list event :=
  let name := joint_path srv (fst jq) in
  [Called (GetJointType name); Called (GetJointConfigSize name);
   Called (GetJointBounds name);
   Called (CreateLockedJoint ("lock_" ++ name) name [snd jq])].

(** The world once the server has served the call [c]. *)
Definition served (srv : Server) (c : call) (w : World) : World :=
  {| self := self w; robot_config := robot_after srv c (robot_config w);
     trace := (trace w ++ [Called c])%list |}.


(** Whether the bounds of a joint were asked for. *)
Definition asks_bounds (l : list event) : bool :=
  existsb (fun e => match e with
                    | Called (GetJointBounds _) => true
                    | _ => false
                    end) l.

(** The reports of collision the node warned about. *)
Definition collision_warnings (l : list event) : list string :=
  flat_map (fun e => match e with
                     | Log Warn (Some 1%nat) (Estimation_in_collision report) =>
                         [report]
                     | _ => []
                     end) l.

(** The numerical constraints added to the problem, as (names, priorities),
    and the changes of the optional flag of the last priority. *)
Definition constraints_added (l : list event)
  : list (string * list string * list Z) :=
  flat_map (fun e => match e with
                     | Called (AddNumericalConstraints cname names prios) =>
                         [(cname, names, prios)]
                     | _ => []
                     end) l.

Definition optional_flags (l : list event) : list bool :=
  flat_map (fun e => match e with
                     | Called (SetNumericalConstraintsLastPriorityOptional b) =>
                         [b]
                     | _ => []
                     end) l.

(** Whether the graph was asked for the state of a configuration. *)
Definition asks_graph (l : list event) : bool :=
  existsb (fun e => match e with
                    | Called (GetNode _ | Manip_client | SetConstraints _ _) =>
                        true
                    | _ => false
                    end) l.

(** The name of the constraint on the pose of the base. *)
Definition base_name (srv : Server) (s : Estimation) : string :=
  "T_base/" ++ qualified s "universe" ++ "_"
  ++ getRobotName_reply srv ++ "/root_joint".

(** The node once a base pose has joined its open frame. *)
Definition with_base (srv : Server) (s : Estimation) : Estimation :=
  if str_in (base_name srv s) (current_visual_tag_constraints s) then s
  else set_current_visual_tag_constraints
         (current_visual_tag_constraints s ++ [base_name srv s])%list s.

(** The events that read the tree of joints of the model. *)
Definition reads_joint_tree (e : event) : bool :=
  match e with
  | Called GetJointNames | Called (GetParentJointName _) => true
  | _ => false
  end.

(** The world with the events [l] added to its trace. *)
Definition appended (w : World) (l : list event) : World :=
  {| self := self w; robot_config := robot_config w;
     trace := (trace w ++ l)%list |}.

(** The name [publish_state] gives to the link [l] of a child of
    "universe": [l[len(robot_name)+1:]] when [l] starts with the robot
    name, [l] otherwise. *)
Definition short_name (robot_name l : string) : string :=
  if startswith l robot_name then str_from (String.length robot_name + 1) l
  else l.

(** The transform broadcast for the link [l] under the name [name]. *)
Definition transform_of (srv : Server) (at_ : Time) (name l : string)
  : event :=
  let T := getLinkPosition_reply srv l in
  SendTransform (firstn 3 T) (firstn 4 (skipn 3 T)) at_ name tf_root.

(** The children of "universe": those the node holds, or else those of
    the model. *)
Definition universe_children (srv : Server) (s : Estimation) : list string :=
  match universe_child_joint_names s with
  | Some jns => jns
  | None =>
      filter (fun jn => String.eqb "universe" (getParentJointName_reply srv jn))
             (getJointNames_reply srv)
  end.

(** The transforms broadcast, in order. *)
Definition broadcasts (l : list event) : list event :=
  filter (fun e => match e with
                   | SendTransform _ _ _ _ _ => true
                   | _ => false
                   end) l.

(** The transforms of the links of the joints [jns], each link under the
    name [naming] gives it. *)
Definition links_broadcast (srv : Server) (at_ : Time)
    (naming : string -> string) (jns : list string) : list event :=
  flat_map (fun jn => map (fun l => transform_of srv at_ (naming l) l)
                          (getLinkNames_reply srv jn)) jns.

(** The last call to the server in a list of events, when the list ends
    with a call. *)
Definition last_call (l : list event) : option call :=
  match rev l with
  | Called c :: _ => Some c
  | _ => None
  end.

(** The names of the constraints created on the server, in order. *)
Definition constraints_created (l : list event) : list string :=
  flat_map (fun e => match e with
                     | Called (CreateTransformationConstraint n _ _ _ _)
                     | Called (CreatePositionConstraint n _ _ _ _ _)
                     | Called (CreateOrientationConstraint n _ _ _ _)
                     | Called (ScCreateScalarMultiply n _ _) => [n]
                     | _ => []
                     end) l.

(** Whether the projection was asked for. *)
Definition projects (l : list event) : bool :=
  existsb (fun e => match e with
                    | Called (ApplyConstraints _) => true
                    | _ => false
                    end) l.

(** [cautious I ok m]: [m] may break the invariant [I] only when it
    returns; what it appends to the trace satisfies [ok]. *)
Definition cautious (I : Estimation -> Prop) (ok : event -> bool) {A}
    (m : M A) : Prop :=
  forall w, I (self w) ->
    ((forall a, fst (m w) <> Ret a) -> I (self (snd (m w)))) /\
    exists l, trace (snd (m w)) = (trace w ++ l)%list /\ forallb ok l = true.

(** The record of a joint state that could not be read. *)
Definition joint_state_error (e : event) : bool :=
  match e with
  | Log _ _ (Cannot_get_joint_state _) => true
  | _ => false
  end.

(** ** What the server refused

    The calls of a computation that the server served, and the one at
    which it raised. *)

(** Every call to the server recorded in [l] was served. *)
Definition all_served (srv : Server) (l : list event) : bool :=
  forallb (fun e => match e with
                    | Called c => match fault srv c with
                                  | None => true
                                  | Some _ => false
                                  end
                    | _ => true
                    end) l.

(** The last thing recorded in [l] is a call at which the server raised
    [e]; the calls before it were served. *)
Definition raised_by_server (srv : Server) (l : list event) (e : exn)
  : Prop :=
  exists l0 c, l = (l0 ++ [Called c])%list /\ fault srv c = Some e /\
               all_served srv l0 = true.

(** [traced srv m]: [m] stops at the first call the server refuses, and
    raises what the server raised; a [UserException] comes from the
    server only. *)
Definition traced (srv : Server) {A} (m : M A) : Prop :=
  forall w, exists l,
    trace (snd (m w)) = (trace w ++ l)%list /\
    match fst (m w) with
    | Ret _ => all_served srv l = true
    | Exc e => raised_by_server srv l e \/
               (is_UserException e = false /\ all_served srv l = true)
    | Blocked => False
    end.

From Stdlib Require DecimalString.

(** * [ros_tools]: topics and services from a tree of dictionaries

    A shallow embedding of [src/agimus_hpp/ros_tools.py].  Conventions.
    - A dictionary is the list of its items in the order in which
      [items()] iterates; its keys are strings.  The keys of a Python
      dictionary are distinct: where a property needs it, it is a
      hypothesis ([unique_keys]).
    - rospy is an oracle ([Ros]): how a wait for a service ends and
      whether a constructor raises are inputs of every theorem.  A wait
      that never ends is the outcome [Hangs].
    - Everything done to rospy is appended to a chronological list of
      actions, the state of the computations. *)

Module RosTools.

(** ** Values, trees and handles

    What the leaves of the dictionaries hold: a message or service class,
    the name of a callback, a queue size.  A tree is what [isinstance
    (topics, dict)] tells apart: a dictionary, as the list of its items in
    the order of iteration, with strings as keys, or anything else, here a
    list of values. *)

Inductive value :=
| Class (name : string)
| Str (s : string)
| Int (n : Z)
| NoneValue.

#[local] Unset Elimination Schemes.

Inductive tree :=
| Leaf (l : list value)
| Dict (d : list (string * tree)).

(** What the constructors of rospy return.  A callback is a bound method
    of the object, known by its name; [NoProxy] is the [None] that
    [wait_for_service] returns when no type is given. *)
Inductive handle :=
| Subscriber (name : string) (data_class : value) (callback : string)
| Publisher (name : string) (data_class : value) (queue_size : value)
| Service (name : string) (service_class : value) (handler : string)
| ServiceProxy (name : string) (service_class : value)
| NoProxy.

(** What is returned: a handle, or a dictionary of what is returned for
    each key. *)
Inductive handles :=
| Handle (h : handle)
| Handles (d : list (string * handles)).

#[local] Set Elimination Schemes.

Inductive error :=
| ROSException (what : string)
| ROSInterruptException (what : string)
| AttributeError (what : string)
| NotImplementedError (what : string)
| TypeError (what : string)
| IndexError
| OtherError (what : string).

(** [ROSInterruptException] derives from [ROSException]. *)
Definition is_ROSException (e : error) : bool :=
  match e with
  | ROSException _ | ROSInterruptException _ => true
  | _ => false
  end.

Definition is_AttributeError (e : error) : bool :=
  match e with AttributeError _ => true | _ => false end.

(** ** rospy

    What is done to rospy, in order: waiting for a service, with a timeout
    or without, logging a warning, constructing a handle. *)
Inductive action :=
| Wait (srv : string) (timeout : option Q)
| Logwarn (text : string)
| Create (h : handle).

(** How a wait ends: the service is there, the wait raises (the timeout,
    a shutdown), or, without a timeout, it never ends. *)
Inductive waiting := Found | Fails (e : error) | Never.

Record Ros := {
  wait_reply : string -> option Q -> waiting;
  create_fault : handle -> option error
}.

(** The object whose methods are the callbacks: the name of its class and
    the names of its attributes. *)
Record Object := { class_name : string; attributes : list string }.

(** [None], passed as the object where no callback is looked up. *)
Definition none_object : Object :=
  {| class_name := "NoneType"; attributes := [] |}.

(** ** Computations: the actions so far, a value, an exception or no end *)

Inductive result (A : Type) :=
| Returns (a : A)
| Raises (e : error)
| Hangs.

Arguments Returns {A} a.
Arguments Raises {A} e.
Arguments Hangs {A}.

Definition R (A : Type) := list action -> result A * list action.

Definition ret {A} (a : A) : R A := fun tr => (Returns a, tr).

Definition raise {A} (e : error) : R A := fun tr => (Raises e, tr).

Definition bind {A B} (m : R A) (k : A -> R B) : R B :=
  fun tr =>
    match m tr with
    | (Returns a, tr') => k a tr'
    | (Raises e, tr') => (Raises e, tr')
    | (Hangs, tr') => (Hangs, tr')
    end.

Definition try_except {A} (body : R A) (catches : error -> bool)
    (handler : error -> R A) : R A :=
  fun tr =>
    match body tr with
    | (Raises e, tr') => if catches e then handler e tr' else (Raises e, tr')
    | r => r
    end.

Definition getitem (l : list value) (i : nat) : R value :=
  match nth_error l i with
  | Some v => ret v
  | None => raise IndexError
  end.

Section Rospy.

Variable ros : Ros.

Definition rospy_wait_for_service (srv : string) (timeout : option Q)
  : R unit :=
  fun tr =>
    (match wait_reply ros srv timeout with
     | Found => Returns tt
     | Fails e => Raises e
     | Never => Hangs
     end, (tr ++ [Wait srv timeout])%list).

Definition logwarn (text : string) : R unit :=
  fun tr => (Returns tt, (tr ++ [Logwarn text])%list).

(** A constructor of rospy: it raises what rospy raises, or the handle is
    there. *)
Definition construct (h : handle) : R handle :=
  fun tr =>
    match create_fault ros h with
    | Some e => (Raises e, tr)
    | None => (Returns h, (tr ++ [Create h])%list)
    end.

(** [getattr (object, name)] *)
Definition getattr (object : Object) (name : value) : R string :=
  match name with
  | Str s =>
      if str_in s (attributes object) then ret s
      else raise (AttributeError s)
  | _ => raise (TypeError "getattr(): attribute name must be string")
  end.

(** [str.format] on a value. *)
Definition format (v : value) : string :=
  match v with
  | Str s => s
  | Class name => "<class '" ++ name ++ "'>"
  | Int n => DecimalString.NilZero.string_of_int (Z.to_int n)
  | NoneValue => "None"
  end.

(** ** [wait_for_service] *)

Definition wait_for_service (srv : string) (service_type : value) (time : Q)
  : R handle :=
  bind (try_except
          (rospy_wait_for_service srv (Some time))
          is_ROSException
          (fun _ =>
             bind (logwarn ("Waiting for service: " ++ srv)) (fun _ =>
             bind (rospy_wait_for_service srv None) (fun _ =>
             logwarn ("Service " ++ srv ++ " found.")))))
       (fun _ =>
          match service_type with
          | NoneValue => ret NoProxy
          | _ => construct (ServiceProxy srv service_type)
          end).

(** ** [_createTopics] *)

(** [rets[k] = v] *)
Fixpoint dict_set {A} (k : string) (v : A) (d : list (string * A))
  : list (string * A) :=
  match d with
  | [] => [(k, v)]
  | (k', v') :: rest =>
      if String.eqb k k' then (k, v) :: rest
      else (k', v') :: dict_set k v rest
  end.

(** The loop over the items of a dictionary, [rets] being filled. *)
Fixpoint for_items {A} (create : string -> A -> R handles)
    (items : list (string * A)) (rets : list (string * handles))
  : R handles :=
  match items with
  | [] => ret (Handles rets)
  | (k, v) :: rest =>
      bind (create k v) (fun r => for_items create rest (dict_set k r rets))
  end.

Fixpoint _createTopics (object : Object) (namespace : string)
    (topics : tree) (subscribe : bool) : R handles :=
  match topics with
  | Dict d =>
      for_items
        (fun k v => _createTopics object (namespace ++ "/" ++ k) v subscribe)
        d []
  | Leaf topics =>
      if subscribe then
        bind (try_except
                (bind (getitem topics 1) (getattr object))
                is_AttributeError
                (fun _ =>
                   bind (getitem topics 1) (fun name =>
                   raise (NotImplementedError
                            ("Class `" ++ class_name object
                             ++ "` does not implement `" ++ format name
                             ++ "`")))))
             (fun callback =>
        bind (getitem topics 0) (fun data_class =>
        bind (construct (Subscriber namespace data_class callback))
             (fun h => ret (Handle h))))
      else
        bind (getitem topics 0) (fun data_class =>
        bind (getitem topics 1) (fun queue_size =>
        bind (construct (Publisher namespace data_class queue_size))
             (fun h => ret (Handle h))))
  end.

Definition createSubscribers (object : Object) (namespace : string)
    (topics : tree) : R handles :=
  _createTopics object namespace topics true.

Definition createPublishers (namespace : string) (topics : tree)
  : R handles :=
  _createTopics none_object namespace topics false.

(** ** [_createServices] *)

Fixpoint _createServices (object : Object) (namespace : string)
    (services : tree) (serve : bool) : R handles :=
  match services with
  | Dict d =>
      for_items
        (fun k v => _createServices object (namespace ++ "/" ++ k) v serve)
        d []
  | Leaf services =>
      if serve then
        bind (try_except
                (bind (getitem services 1) (getattr object))
                is_AttributeError
                (fun _ =>
                   bind (getitem services 1) (fun name =>
                   raise (NotImplementedError
                            ("Class `" ++ class_name object
                             ++ "` does not implement `" ++ format name
                             ++ "`")))))
             (fun callback =>
        bind (getitem services 0) (fun service_class =>
        bind (construct (Service namespace service_class callback))
             (fun h => ret (Handle h))))
      else
        bind (getitem services 0) (fun service_class =>
        bind (wait_for_service namespace service_class (1 # 5))
             (fun h => ret (Handle h)))
  end.

Definition createServices (object : Object) (namespace : string)
    (services : tree) : R handles :=
  _createServices object namespace services true.

Definition createServiceProxies (namespace : string) (services : tree)
  : R handles :=
  _createServices none_object namespace services false.

End Rospy.

(** ** What is observed of a tree and of what is returned *)

(** The leaves of a tree in the order of the traversal, each with the
    name it is given: the namespace, then "/" and a key for each
    dictionary on the way. *)
Fixpoint leaves (namespace : string) (t : tree)
  : list (string * list value) :=
  match t with
  | Leaf l => [(namespace, l)]
  | Dict d =>
      flat_map (fun kv => leaves (namespace ++ "/" ++ fst kv) (snd kv)) d
  end.

(** The hierarchy with the layout of [t] whose leaves are given by
    [of_leaf]. *)
Fixpoint mirror (of_leaf : string -> list value -> handle)
    (namespace : string) (t : tree) : handles :=
  match t with
  | Leaf l => Handle (of_leaf namespace l)
  | Dict d =>
      Handles (map (fun kv => (fst kv,
                               mirror of_leaf (namespace ++ "/" ++ fst kv)
                                      (snd kv))) d)
  end.

(** The same with [rets[k] = v] for each item, as the loop does. *)
Fixpoint collect (of_leaf : string -> list value -> handle)
    (namespace : string) (t : tree) : handles :=
  match t with
  | Leaf l => Handle (of_leaf namespace l)
  | Dict d =>
      Handles (fold_left
                 (fun rets kv =>
                    dict_set (fst kv)
                      (collect of_leaf (namespace ++ "/" ++ fst kv) (snd kv))
                      rets) d [])
  end.

(** The keys of every dictionary of the tree are distinct, as those of a
    Python dictionary are. *)
Fixpoint distinct (ks : list string) : bool :=
  match ks with
  | [] => true
  | k :: rest => negb (str_in k rest) && distinct rest
  end.

Fixpoint unique_keys (t : tree) : bool :=
  match t with
  | Leaf _ => true
  | Dict d =>
      distinct (map fst d) && forallb (fun kv => unique_keys (snd kv)) d
  end.

(** [d[k]], when [k] is a key of [d]. *)
Fixpoint lookup {A} (k : string) (d : list (string * A)) : option A :=
  match d with
  | [] => None
  | (k', v) :: rest => if String.eqb k k' then Some v else lookup k rest
  end.

(** [topics[k1]...[kn]], when it is there and is a leaf. *)
Fixpoint leaf_at (path : list string) (t : tree) : option (list value) :=
  match path, t with
  | [], Leaf l => Some l
  | k :: rest, Dict d =>
      match lookup k d with
      | Some t' => leaf_at rest t'
      | None => None
      end
  | _, _ => None
  end.

(** [rets[k1]...[kn]], when it is there and is a handle. *)
Fixpoint handle_at (path : list string) (r : handles) : option handle :=
  match path, r with
  | [], Handle h => Some h
  | k :: rest, Handles d =>
      match lookup k d with
      | Some r' => handle_at rest r'
      | None => None
      end
  | _, _ => None
  end.

(** The name of the leaf at [path] under [namespace]. *)
Definition topic_name (namespace : string) (path : list string) : string :=
  fold_left (fun ns k => ns ++ "/" ++ k) path namespace.

(** The traversal with the leaves handled by [leaf]. *)
Fixpoint walk (leaf : string -> list value -> R handles)
    (namespace : string) (t : tree) : R handles :=
  match t with
  | Leaf l => leaf namespace l
  | Dict d =>
      for_items (fun k v => walk leaf (namespace ++ "/" ++ k) v) d []
  end.

(** A leaf for which all goes well: [leaf] returns the handle [of_leaf]
    gives, having done [acts]. *)
Definition goes_well (leaf : string -> list value -> R handles)
    (of_leaf : string -> list value -> handle)
    (acts : string -> list value -> list action)
    (nl : string * list value) : Prop :=
  forall tr, leaf (fst nl) (snd nl) tr
             = (Returns (Handle (of_leaf (fst nl) (snd nl))),
                (tr ++ acts (fst nl) (snd nl))%list).

(** What is done for a list of leaves. *)
Definition done (acts : string -> list value -> list action)
    (ls : list (string * list value)) : list action :=
  flat_map (fun nl => acts (fst nl) (snd nl)) ls.

(** The handles made of the items of a leaf. *)
Definition publisher (namespace : string) (l : list value) : handle :=
  Publisher namespace (nth 0 l NoneValue) (nth 1 l NoneValue).

Definition callback_of (l : list value) : string :=
  match nth 1 l NoneValue with Str s => s | _ => "" end.

Definition subscriber (namespace : string) (l : list value) : handle :=
  Subscriber namespace (nth 0 l NoneValue) (callback_of l).

Definition service (namespace : string) (l : list value) : handle :=
  Service namespace (nth 0 l NoneValue) (callback_of l).

Definition proxy (namespace : string) (l : list value) : handle :=
  ServiceProxy namespace (nth 0 l NoneValue).

(** The leaf names, as its second item, an attribute of the object. *)
Definition implements (object : Object) (l : list value) : bool :=
  match l with
  | _ :: Str name :: _ => str_in name (attributes object)
  | _ => false
  end.

(** The leaf has a type as its first item. *)
Definition typed (l : list value) : bool :=
  match l with
  | [] | NoneValue :: _ => false
  | _ => true
  end.

(** The service is there within the time [_createServices] gives it. *)
Definition on_time (ros : Ros) (srv : string) : bool :=
  match wait_reply ros srv (Some (1 # 5)) with
  | Found => true
  | _ => false
  end.

(** What is constructed, in order. *)
Definition constructed (tr : list action) : list handle :=
  flat_map (fun a => match a with Create h => [h] | _ => [] end) tr.

(** The text of the error for a callback that is missing. *)
Definition not_implemented (object : Object) (name : string) : error :=
  NotImplementedError
    ("Class `" ++ class_name object ++ "` does not implement `" ++ name ++ "`").

(** ** The dictionaries of the class [Estimation]

    As [estimation.py] gives them, in the order of the text. *)

Definition subscribersDict : tree :=
  Dict [("estimation", Dict [("request", Leaf [Class "Empty"; Str "estimation"])]);
        ("vision", Dict [("tags", Leaf [Class "TransformStamped";
                                        Str "get_visual_tag"])]);
        ("sot", Dict [("base_pose_estimation",
                       Leaf [Class "TransformStamped";
                             Str "get_base_pose_estimation"])])].

Definition servicesDict : tree :=
  Dict [("estimation",
         Dict [("continuous_estimation",
                Leaf [Class "SetBool"; Str "continuous_estimation"])])].

Definition publishersDict : tree :=
  Dict [("estimation", Dict [("semantic", Leaf [Class "Vector"; Int 1]);
                             ("state_id", Leaf [Class "UInt32"; Int 1])])].

(** The methods of the class. *)
Definition estimation_node : Object :=
  {| class_name := "Estimation";
     attributes := ["continuous_estimation"; "spin"; "estimation";
                    "publish_state"; "_initialize_constraints";
                    "get_joint_state"; "_get_transformation_constraint";
                    "get_visual_tag"; "get_base_pose_estimation"] |}.

(** A rospy where every service is there and nothing fails; one where
    the service "/agimus/hpp/late" comes after the timeout, and one where
    it never comes. *)
Definition calm : Ros :=
  {| wait_reply := fun _ _ => Found; create_fault := fun _ => None |}.

Definition slow : Ros :=
  {| wait_reply := fun srv timeout =>
       match timeout with
       | Some _ => if String.eqb srv "/agimus/hpp/late"
                   then Fails (ROSException "timeout exceeded") else Found
       | None => Found
       end;
     create_fault := fun _ => None |}.

Definition stalled : Ros :=
  {| wait_reply := fun srv timeout =>
       if String.eqb srv "/agimus/hpp/late" then
         match timeout with
         | Some _ => Fails (ROSException "timeout exceeded")
         | None => Never
         end
       else Found;
     create_fault := fun _ => None |}.

(** Services of which the second is "/agimus/hpp/late". *)
Definition proxiesDict : tree :=
  Dict [("hpp", Dict [("reset", Leaf [Class "Empty"]);
                      ("late", Leaf [Class "SetBool"]);
                      ("solve", Leaf [Class "Trigger"])])].

(** A class that has the callback of the estimation request only. *)
Definition partial_node : Object :=
  {| class_name := "Estimation"; attributes := ["estimation"] |}.

End RosTools.

(** * More sample collaborators and worlds *)

Module Cases.

Local Open Scope Q_scope.

(** A server that loses the connection when asked for the current
    configuration, and refuses to lock a joint and to create a position
    constraint. *)
Definition faulty : Server :=
  Sample.make
    (fun c => match c with
              | GetCurrentConfig => Some (SystemException "connection lost")
              | CreateLockedJoint _ _ _ => Some (UserException "no such joint")
              | CreatePositionConstraint _ _ _ _ _ _ =>
                  Some (UserException "no such joint")
              | _ => None
              end)
    (fun _ => Some 7%Z) (fun q => (true, q, 0)) (fun q => (true, q, [])) 1.

(** The joint "arm" is an unbounded rotation, with two coordinates. *)
Definition turning : Server :=
  {| fault := Sample.no_fault;
     config_after := config_after Sample.server;
     getNode_reply := getNode_reply Sample.server;
     applyConstraints_reply := applyConstraints_reply Sample.server;
     optimize_reply := optimize_reply Sample.server;
     isConfigValid_reply := isConfigValid_reply Sample.server;
     getRobotName_reply := getRobotName_reply Sample.server;
     getJointNames_reply := getJointNames_reply Sample.server;
     getAllJointNames_reply := getAllJointNames_reply Sample.server;
     getParentJointName_reply := getParentJointName_reply Sample.server;
     getLinkNames_reply := getLinkNames_reply Sample.server;
     getLinkPosition_reply := getLinkPosition_reply Sample.server;
     getJointType_reply := fun _ => "JointModelRUBZ";
     getJointConfigSize_reply := fun _ => 2%Z;
     getJointBounds_reply := getJointBounds_reply Sample.server;
     param_default_state_id := param_default_state_id Sample.server;
     param_default_constraints := param_default_constraints Sample.server;
     numpy_norm := numpy_norm Sample.server;
     math_cos := fun _ => 0;
     math_sin := fun _ => 1 |}.

(** The joint "arm" is locked already. *)
Definition locked : World :=
  {| self := set_locked_joints ["lock_talos/arm"] Sample.node;
     robot_config := [1 # 2]; trace := [] |}.

(** The node runs without the manipulation client; a frame of one tag is
    sealed. *)
Definition flat : World :=
  {| self := set_last_visual_tag_constraints ["T_talos/camera_talos/tag1"]
               (init "talos" 10%Z 10%Z true true false);
     robot_config := [1 # 2]; trace := [] |}.

(** The children of "universe" are known. *)
Definition broadcasting : World :=
  {| self := set_universe_child_joint_names (Some ["talos/root_joint"])
               Sample.node;
     robot_config := [1 # 2]; trace := [] |}.

(** The manipulation server is lost while the graph is asked. *)
Definition graphless : Server :=
  Sample.make
    (fun c => match c with
              | GetNode _ => Some (SystemException "connection lost")
              | _ => None
              end)
    (fun _ => Some 7%Z) (fun q => (true, q, 0%Q)) (fun q => (true, q, [])) 1.

(** The optimiser fails and what it returns is in collision. *)
Definition colliding : Server :=
  {| fault := Sample.no_fault;
     config_after := config_after Sample.diverging;
     getNode_reply := getNode_reply Sample.diverging;
     applyConstraints_reply := applyConstraints_reply Sample.diverging;
     optimize_reply := optimize_reply Sample.diverging;
     isConfigValid_reply :=
       fun _ => (false, "talos/arm_link collides with the table");
     getRobotName_reply := getRobotName_reply Sample.diverging;
     getJointNames_reply := getJointNames_reply Sample.diverging;
     getAllJointNames_reply := getAllJointNames_reply Sample.diverging;
     getParentJointName_reply := getParentJointName_reply Sample.diverging;
     getLinkNames_reply := getLinkNames_reply Sample.diverging;
     getLinkPosition_reply := getLinkPosition_reply Sample.diverging;
     getJointType_reply := getJointType_reply Sample.diverging;
     getJointConfigSize_reply := getJointConfigSize_reply Sample.diverging;
     getJointBounds_reply := getJointBounds_reply Sample.diverging;
     param_default_state_id := param_default_state_id Sample.diverging;
     param_default_constraints := param_default_constraints Sample.diverging;
     numpy_norm := numpy_norm Sample.diverging;
     math_cos := math_cos Sample.diverging;
     math_sin := math_sin Sample.diverging |}.

End Cases.

(** * Reasoning about computations *)

Lemma Qlt_bool_iff (x y : Q) : Qlt_bool x y = true <-> (x < y)%Q.
Proof.
  unfold Qlt_bool. rewrite negb_true_iff.
  split; intro H.
  - apply Qnot_le_lt. intro L. apply Qle_bool_iff in L. congruence.
  - destruct (Qle_bool y x) eqn:E; [|reflexivity].
    apply Qle_bool_iff in E. exfalso. exact (Qlt_not_le _ _ H E).
Qed.

Lemma Qlt_bool_false_iff (x y : Q) : Qlt_bool x y = false <-> (y <= x)%Q.
Proof.
  unfold Qlt_bool. rewrite negb_false_iff. apply Qle_bool_iff.
Qed.

(** ** Rules for [emits] *)

Section Emits.

Variable ok : event -> bool.

Lemma extends_refl w : extends ok w w.
Proof.
  split; [reflexivity|].
  exists []. split; [now rewrite app_nil_r | reflexivity].
Qed.

Lemma extends_trans a b c :
  extends ok a b -> extends ok b c -> extends ok a c.
Proof.
  intros [M1 [l1 [E1 F1]]] [M2 [l2 [E2 F2]]]. split; [congruence|].
  exists (l1 ++ l2)%list. split.
  - rewrite E2, E1, app_assoc. reflexivity.
  - rewrite forallb_app, F1, F2. reflexivity.
Qed.

Lemma extends_one w e :
  ok e = true ->
  extends ok w {| self := self w; robot_config := robot_config w;
               trace := (trace w ++ [e])%list |}.
Proof.
  intro H. split; [reflexivity|]. exists [e]. simpl.
  split; [reflexivity | now rewrite H].
Qed.

Lemma emits_ret {A} (a : A) : emits ok (ret a).
Proof. intro w. split; [discriminate | apply extends_refl]. Qed.

Lemma emits_raise {A} (e : exn) : emits ok (@raise A e).
Proof. intro w. split; [discriminate | apply extends_refl]. Qed.

Lemma emits_bind {A B} (m : M A) (k : A -> M B) :
  emits ok m -> (forall a, emits ok (k a)) -> emits ok (bind m k).
Proof.
  intros Hm Hk w. unfold bind. destruct (Hm w) as [Nb Ex].
  destruct (m w) as [[a | e |] w1]; simpl in *.
  - destruct (Hk a w1) as [Nb' Ex']. split; [exact Nb'|].
    eapply extends_trans; eassumption.
  - split; [discriminate | exact Ex].
  - congruence.
Qed.

Lemma emits_try_except {A} (body : M A) catches handler :
  emits ok body -> (forall e, emits ok (handler e)) ->
  emits ok (try_except body catches handler).
Proof.
  intros Hb Hh w. unfold try_except. destruct (Hb w) as [Nb Ex].
  destruct (body w) as [[a | e |] w1]; simpl in *.
  - split; [discriminate | exact Ex].
  - destruct (catches e); simpl.
    + destruct (Hh e w1) as [Nb' Ex']. split; [exact Nb'|].
      eapply extends_trans; eassumption.
    + split; [discriminate | exact Ex].
  - congruence.
Qed.

Lemma emits_try_finally {A} (body : M A) (fin : M unit) :
  emits ok body -> emits ok fin -> emits ok (try_finally body fin).
Proof.
  intros Hb Hf w. unfold try_finally. destruct (Hb w) as [Nb Ex].
  destruct (body w) as [[a | e |] w1]; simpl in *; try congruence;
    destruct (Hf w1) as [Nb' Ex'];
    destruct (fin w1) as [[[] | e' |] w2]; simpl in *; try congruence;
    (split; [discriminate | eapply extends_trans; eassumption]).
Qed.

Lemma emits_for_each {A} (xs : list A) (body : A -> M unit) :
  (forall x, emits ok (body x)) -> emits ok (for_each xs body).
Proof.
  intro Hb. induction xs as [| x rest IH]; simpl.
  - apply emits_ret.
  - apply emits_bind; [apply Hb | intros _; exact IH].
Qed.

Lemma emits_filter_m {A} (p : A -> M bool) (xs : list A) :
  (forall x, emits ok (p x)) -> emits ok (filter_m p xs).
Proof.
  intro Hp. induction xs as [| x rest IH]; simpl.
  - apply emits_ret.
  - apply emits_bind; [apply Hp | intro keep].
    apply emits_bind; [exact IH | intro tl; apply emits_ret].
Qed.

Lemma emits_getitem {A} (xs : list A) (i : nat) : emits ok (getitem xs i).
Proof.
  unfold getitem. destruct (nth_error xs i);
    [apply emits_ret | apply emits_raise].
Qed.

Lemma emits_assert (c : bool) (text : string) : emits ok (assert c text).
Proof.
  unfold assert. destruct c; [apply emits_ret | apply emits_raise].
Qed.

Lemma emits_get_self : emits ok get_self.
Proof. intro w. split; [discriminate | apply extends_refl]. Qed.

Lemma emits_get_robot_config : emits ok get_robot_config.
Proof. intro w. split; [discriminate | apply extends_refl]. Qed.

Lemma emits_modify_self f :
  (forall s, mutex (f s) = mutex s) -> emits ok (modify_self f).
Proof.
  intros Keeps w. split; [discriminate|]. split; [apply Keeps|].
  exists []. simpl. split; [now rewrite app_nil_r | reflexivity].
Qed.

Lemma emits_emit (e : event) : ok e = true -> emits ok (emit e).
Proof.
  intros H w. split; [discriminate | apply extends_one, H].
Qed.

Lemma emits_log lvl period m :
  ok (Log lvl period m) = true -> emits ok (log lvl period m).
Proof. apply emits_emit. Qed.

Lemma emits_invoke srv (c : call) :
  ok (Called c) = true -> emits ok (invoke srv c).
Proof.
  intros H w. unfold invoke.
  destruct (fault srv c); simpl; (split; [discriminate|]);
    (split; [reflexivity|]);
    exists [Called c]; simpl; (split; [reflexivity | now rewrite H]).
Qed.

End Emits.

(** Proves [emits ok m] for a computation built from the primitives, when
    [ok] accepts, by computation, every event [m] can emit. *)
Ltac emits_step :=
  first
    [ apply emits_ret | apply emits_raise | apply emits_get_self
    | apply emits_modify_self; intros ?; reflexivity
    | apply emits_getitem | apply emits_assert
    | apply emits_get_robot_config
    | apply emits_invoke; reflexivity
    | apply emits_log; reflexivity
    | apply emits_emit; reflexivity
    | apply emits_bind; [| intros ?]
    | apply emits_try_except; [| intros ?]
    | apply emits_try_finally
    | apply emits_for_each; intros ?
    | apply emits_filter_m; intros ?
    | match goal with
      | |- emits _ (if ?b then _ else _) => destruct b
      | |- emits _ (match ?x with _ => _ end) => destruct x
      | |- emits _ (let _ := _ in _) => cbv zeta
      end ].

Ltac emits_auto := repeat emits_step.

Ltac unfold_calls :=
  unfold hpp, manip, setCurrentConfig,
    resetConstraints, getNode, setConstraints, addLockedJointConstraints,
    addNumericalConstraints, setNumericalConstraintsLastPriorityOptional,
    applyConstraints, optimize, isConfigValid, getRobotName, getJointNames,
    getAllJointNames, getParentJointName, getLinkNames, getLinkPosition,
    getJointType, getJointConfigSize, getJointBounds, createLockedJoint,
    getCurrentConfig, get_param_default_state_id,
    get_param_default_constraints.

Ltac unfold_node :=
  unfold publish_state, _initialize_constraints,
    _get_transformation_constraint;
  unfold_calls.

Ltac emits_node := unfold_node; emits_auto.

Lemma bind_get_self {A} (k : Estimation -> M A) (w : World) :
  (s <- get_self ;; k s) w = k (self w) w.
Proof. reflexivity. Qed.

(** ** Locks *)

Lemma acquire_free {A} (k : M A) (w : World) :
  mutex (self w) = false ->
  (acquire ;; k) w = k (snd (modify_self (set_mutex true) w)).
Proof. intro F. unfold bind, acquire. rewrite F. reflexivity. Qed.

Lemma finally_release {A} (body : M A) (w : World) :
  fst (body w) <> Blocked ->
  fst (try_finally body release w) <> Blocked /\
  mutex (self (snd (try_finally body release w))) = false.
Proof.
  intro Nb. unfold try_finally, release.
  destruct (body w) as [[a | e |] w1]; simpl in *; try congruence;
    destruct (mutex (self w1)) eqn:Held; simpl;
    (split; [discriminate | assumption || reflexivity]).
Qed.

Lemma finally_clear_release {A} (body : M A) (w : World) :
  fst (body w) <> Blocked ->
  let r := try_finally body
             (modify_self (set_last_stamp_is_ready false) ;; release) w in
  fst r <> Blocked /\
  mutex (self (snd r)) = false /\
  last_stamp_is_ready (self (snd r)) = false.
Proof.
  intro Nb. unfold try_finally, release, bind, modify_self.
  destruct (body w) as [[a | e |] w1]; simpl in *; try congruence;
    destruct (mutex (self w1)) eqn:Held; simpl;
    (split; [discriminate | split; [assumption || reflexivity | reflexivity]]).
Qed.

(** The part of each callback that runs with the lock held never waits for
    a lock again. *)
Ltac critical_section_total :=
  match goal with
  | |- fst (?k ?w) <> Blocked =>
      let E := fresh "E" in
      assert (E : emits any_event k) by emits_node;
      exact (proj1 (E w))
  end.

Lemma estimation_cleans_up (srv : Server) (w : World) :
  mutex (self w) = false ->
  fst (estimation srv w) <> Blocked /\
  mutex (self (snd (estimation srv w))) = false /\
  last_stamp_is_ready (self (snd (estimation srv w))) = false.
Proof.
  intro Free. unfold estimation. rewrite (acquire_free _ w Free).
  apply finally_clear_release. critical_section_total.
Qed.

Lemma get_joint_state_cleans_up (srv : Server) (js : JointState) (w : World) :
  mutex (self w) = false ->
  fst (get_joint_state srv js w) <> Blocked /\
  mutex (self (snd (get_joint_state srv js w))) = false.
Proof.
  intro Free. unfold get_joint_state. rewrite (acquire_free _ w Free).
  apply finally_release. critical_section_total.
Qed.

Lemma get_visual_tag_cleans_up (srv : Server) (ts : TransformStamped)
    (w : World) :
  mutex (self w) = false ->
  fst (get_visual_tag srv ts w) <> Blocked /\
  mutex (self (snd (get_visual_tag srv ts w))) = false.
Proof.
  intro Free. unfold get_visual_tag. rewrite bind_get_self.
  destruct (stamp (header ts) <? current_stamp (self w))%Z.
  - simpl. split; [discriminate | exact Free].
  - apply finally_release. rewrite (acquire_free _ w Free).
    critical_section_total.
Qed.

Lemma get_base_pose_estimation_cleans_up (srv : Server)
    (ts : TransformStamped) (w : World) :
  mutex (self w) = false ->
  fst (get_base_pose_estimation srv ts w) <> Blocked /\
  mutex (self (snd (get_base_pose_estimation srv ts w))) = false.
Proof.
  intro Free. unfold get_base_pose_estimation. rewrite bind_get_self.
  destruct (stamp (header ts) <? current_stamp (self w))%Z.
  - simpl. split; [discriminate | exact Free].
  - rewrite (acquire_free _ w Free).
    apply finally_release. critical_section_total.
Qed.

Lemma wrong_size_propagates (srv : Server) (w : World) jn q names positions :
  mutex (self w) = false ->
  fault srv Hpp_client = None ->
  fault srv GetRobotName = None ->
  fault srv (GetJointType (joint_path srv jn)) = None ->
  fault srv (GetJointConfigSize (joint_path srv jn)) = None ->
  startswith (getJointType_reply srv (joint_path srv jn)) "JointModelRUB"
    = false ->
  getJointConfigSize_reply srv (joint_path srv jn) <> 1 ->
  fst (get_joint_state srv
         {| js_name := jn :: names; js_position := q :: positions |} w)
  = Exc (AssertionError (joint_path srv jn ++ " is not of size 1")).
Proof.
  intros Free H1 H2 H3 H4 Ty Sz.
  unfold get_joint_state. rewrite (acquire_free _ w Free).
  unfold try_finally, try_except, bind at 1 2 3.
  unfold hpp, invoke at 1. rewrite H1.
  unfold bind at 1 2, getRobotName, bind at 1, invoke at 1. rewrite H2.
  cbn [combine js_name js_position for_each ret].
  fold (joint_path srv jn).
  unfold bind at 1 2 3 4, getJointType, bind at 1, invoke at 1. rewrite H3.
  cbn [ret]. rewrite Ty.
  unfold bind at 1 2 3, getJointConfigSize, bind at 1, invoke at 1.
  rewrite H4. cbn [ret].
  apply Z.eqb_neq in Sz. unfold assert. rewrite Sz.
  cbn. reflexivity.
Qed.

(** * The properties *)

(** ** Locking *)

(** C10.  Each of the four operations that take the mutex -- [estimation],
    [get_joint_state], [get_visual_tag], [get_base_pose_estimation] --
    entered with the mutex free, comes back (by returning or by raising)
    with the mutex free, whatever the collaborators answer or raise.  That
    includes the exception [get_joint_state] lets through: when the first
    joint of the message is not of size 1, the [AssertionError] is not
    caught by the [except UserException] clause, it propagates to the
    caller, and the mutex is free all the same. *)
Theorem mutex_released_on_every_path
    (srv : Server) (js : JointState) (ts : TransformStamped) (w : World) :
  mutex (self w) = false ->
  (forall op : M unit,
      In op [estimation srv; get_joint_state srv js; get_visual_tag srv ts;
             get_base_pose_estimation srv ts] ->
      fst (op w) <> Blocked /\ mutex (self (snd (op w))) = false) /\
  (forall jn q names positions,
      js = {| js_name := jn :: names; js_position := q :: positions |} ->
      fault srv Hpp_client = None ->
      fault srv GetRobotName = None ->
      fault srv (GetJointType (joint_path srv jn)) = None ->
      fault srv (GetJointConfigSize (joint_path srv jn)) = None ->
      startswith (getJointType_reply srv (joint_path srv jn))
                 "JointModelRUB" = false ->
      getJointConfigSize_reply srv (joint_path srv jn) <> 1 ->
      fst (get_joint_state srv js w)
      = Exc (AssertionError (joint_path srv jn ++ " is not of size 1")) /\
      mutex (self (snd (get_joint_state srv js w))) = false).
Proof.
  intro Free. split.
  - intros op [E | [E | [E | [E | []]]]]; subst op.
    + destruct (estimation_cleans_up srv w Free) as [Nb [Fr _]].
      split; assumption.
    + apply get_joint_state_cleans_up, Free.
    + apply get_visual_tag_cleans_up, Free.
    + apply get_base_pose_estimation_cleans_up, Free.
  - intros jn q names positions -> H1 H2 H3 H4 Ty Sz. split.
    + apply wrong_size_propagates; assumption.
    + apply get_joint_state_cleans_up, Free.
Qed.

(** ** Exactly-once consumption *)

(** A turn of the loop that finds the frame not ready only logs. *)
Lemma spin_once_idle (srv : Server) (w : World) :
  last_stamp_is_ready (self w) = false ->
  spin_once srv w
  = (Ret tt,
     {| self := self w; robot_config := robot_config w;
        trace := (trace w ++
                  [Log Debug None
                     (Not_running (run_continuous_estimation (self w))
                                  false)])%list |}).
Proof.
  intro NotReady. unfold spin_once. rewrite bind_get_self.
  rewrite NotReady, andb_false_r. reflexivity.
Qed.

Lemma spin_idle (ticks : list Server) (w : World) :
  last_stamp_is_ready (self w) = false ->
  spin ticks w
  = (Ret tt,
     {| self := self w; robot_config := robot_config w;
        trace := (trace w ++
                  repeat (Log Debug None
                            (Not_running (run_continuous_estimation (self w))
                                         false))
                         (List.length ticks))%list |}).
Proof.
  revert w. induction ticks as [| srv rest IH]; intros w NotReady.
  - simpl. unfold ret. rewrite app_nil_r. destruct w; reflexivity.
  - cbn [spin]. unfold bind. rewrite (spin_once_idle srv w NotReady).
    rewrite IH by exact NotReady. cbn [self robot_config trace List.length].
    rewrite <- app_assoc. reflexivity.
Qed.

(** C2.  An estimation cycle entered with the mutex free ends, whatever the
    collaborators answer or raise (projection, optimisation or validation
    failing, any exception), and leaves [last_stamp_is_ready] false.  With
    no callback in between, the loop of [spin] then never runs the
    estimation again: each further turn, however many and whatever the
    server, finds the frame not ready, logs it and changes nothing else. *)
Theorem frame_consumed_once (srv : Server) (w : World) :
  mutex (self w) = false ->
  let w1 := snd (estimation srv w) in
  fst (estimation srv w) <> Blocked /\
  last_stamp_is_ready (self w1) = false /\
  forall ticks : list Server,
    spin ticks w1
    = (Ret tt,
       {| self := self w1; robot_config := robot_config w1;
          trace := (trace w1 ++
                    repeat (Log Debug None
                              (Not_running
                                 (run_continuous_estimation (self w1)) false))
                           (List.length ticks))%list |}).
Proof.
  intros Free w1.
  destruct (estimation_cleans_up srv w Free) as [Nb [_ Cleared]].
  split; [exact Nb|]. split; [exact Cleared|].
  intro ticks. apply spin_idle. exact Cleared.
Qed.

(** ** Symbolic runs *)

Ltac unfold_monad :=
  unfold_calls;
  unfold log, getitem, assert, release, acquire;
  unfold bind, try_except, try_finally, invoke, ret, raise, get_self,
    get_robot_config, modify_self, emit.

(** Runs a computation on a symbolic world: uses what the hypotheses say of
    the server and the node, and splits on what they leave open. *)
Ltac run_step :=
  match goal with
  | H : fault ?s ?c = _ |- context [fault ?s ?c] => rewrite H
  | H : answers ?s |- context [fault ?s ?c] => rewrite (H c)
  | H : ?x = _ |- context [match ?x with _ => _ end] => rewrite H
  | H : ?x = _ |- context [if ?x then _ else _] => rewrite H
  | |- context [fault ?s ?c] => destruct (fault s c) eqn:?
  | |- context [if ?b then _ else _] => destruct b eqn:?
  | |- context [match ?x with Some _ => _ | None => _ end] =>
      destruct x eqn:?
  | |- context [isConfigValid_reply ?s ?q] =>
      destruct (isConfigValid_reply s q) eqn:?
  end.

Ltac run := unfold_monad; repeat (cbn; run_step); cbn.

(** Brings [since w w'] to the list of the new events. *)
Ltac new_events :=
  unfold since; cbn [trace];
  repeat match goal with
         | H : trace ?x = _ |- context [trace ?x] => rewrite H
         end;
  repeat rewrite <- app_assoc;
  rewrite ?skipn_app, ?skipn_all, ?Nat.sub_diag; cbn.

(** ** State resolution *)

(** C3.  In graph mode, with the clients reachable and the constraints
    reset, [_initialize_constraints] resolves the state in order: the
    state [getNode] returns when it succeeds; when it fails, the cached
    [last_state_id] if there is one, and then the default is not even
    read; when it fails and nothing is cached, the configured
    [default_state_id].  In the three cases the resolved state is stored
    in [last_state_id], is the one state published on [state_id] and the
    one whose constraints are set. *)
Theorem state_resolution (srv : Server) (q : Config) (w : World) :
  has_manip (self w) = true ->
  fault srv Hpp_client = None ->
  fault srv ResetConstraints = None ->
  fault srv Manip_client = None ->
  let w' := snd (_initialize_constraints srv q w) in
  (forall id,
      fault srv (GetNode q) = None -> getNode_reply srv q = Some id ->
      resolved_to id w w' /\ asks_default_state (since w w') = false) /\
  (forall id,
      getNode_fails srv q -> last_state_id (self w) = Some id ->
      resolved_to id w w' /\ asks_default_state (since w w') = false) /\
  (getNode_fails srv q -> last_state_id (self w) = None ->
   fault srv (GetParam "default_state_id") = None ->
   resolved_to (param_default_state_id srv) w w').
Proof.
  intros Graph H1 H2 H3 w'. subst w'. unfold resolved_to.
  split; [| split].
  - intros id H4 Found. unfold _initialize_constraints.
    run; new_events; auto.
  - intros id [[H4 NotFound] | [what H4]] Cached;
      unfold _initialize_constraints; run; new_events; auto.
  - intros [[H4 NotFound] | [what H4]] Empty H5;
      unfold _initialize_constraints; run; new_events; auto.
Qed.

(** ** The estimation cycle *)

Lemma initialize_constraints_footprint (srv : Server) (q : Config) :
  emits setup_event (_initialize_constraints srv q).
Proof. emits_node. Qed.

Lemma publish_state_footprint (srv : Server) :
  emits broadcast_event (publish_state srv).
Proof. emits_node. Qed.

Lemma existsb_none {A} (ok p : A -> bool) (l : list A) :
  (forall a, ok a = true -> p a = false) ->
  forallb ok l = true -> existsb p l = false.
Proof.
  intros Excl. induction l as [| a l IH]; simpl; [reflexivity|].
  intro H. apply andb_true_iff in H. destruct H as [Ha Hl].
  rewrite (Excl a Ha), (IH Hl). reflexivity.
Qed.

Lemma flat_map_none {A B} (ok : A -> bool) (f : A -> list B) (l : list A) :
  (forall a, ok a = true -> f a = []) ->
  forallb ok l = true -> flat_map f l = [].
Proof.
  intros Excl. induction l as [| a l IH]; simpl; [reflexivity|].
  intro H. apply andb_true_iff in H. destruct H as [Ha Hl].
  rewrite (Excl a Ha), (IH Hl). reflexivity.
Qed.

(** With a server that answers, the set-up of the constraints returns. *)
Lemma initialize_constraints_returns (srv : Server) (q : Config) (w : World) :
  answers srv -> fst (_initialize_constraints srv q w) = Ret tt.
Proof.
  intro Answers. unfold _initialize_constraints. run; reflexivity.
Qed.

Arguments _initialize_constraints : simpl never.
Arguments publish_state : simpl never.

(** Meets the set-up of the constraints in a run: what it returns and the
    world it leaves are named, its footprint is recorded. *)
Ltac meet_setup :=
  match goal with
  | |- context [_initialize_constraints ?s ?q ?W] =>
      let l := fresh "setup" in
      let El := fresh "Trace" in
      let Fl := fresh "Footprint" in
      let R := fresh "Returns" in
      let Mx := fresh "Mutex" in
      destruct (initialize_constraints_footprint s q W)
        as [_ [Mx [l [El Fl]]]];
      pose proof (initialize_constraints_returns s q W) as R;
      destruct (_initialize_constraints s q W) as [[[] | ? |] ?];
      cbn in El, R, Mx
  end.

Lemma setup_never_optimizes (l : list event) :
  forallb setup_event l = true -> optimizes l = false /\ publishes l = false.
Proof.
  intro F. split; (eapply existsb_none; [| exact F]);
    intros [[] | ? ? [] | | |]; simpl; congruence.
Qed.

(** C4.  In a cycle whose projection step reports failure on the
    configuration read at the start, the optimisation is never called and
    nothing is published, neither the estimate nor a transform -- whatever
    else the server does.  When the server answers every call, the cycle
    returns, the robot of the model is back at the configuration read at
    the start, and what the node did after setting the constraints up is
    the projection, the reset of the configuration and one throttled
    warning. *)
Theorem failed_projection_aborts (srv : Server) (w : World)
    (q_projected : Config) (error : Q) :
  mutex (self w) = false ->
  applyConstraints_reply srv (robot_config w) = (false, q_projected, error) ->
  let w' := snd (estimation srv w) in
  (optimizes (since w w') = false /\ publishes (since w w') = false) /\
  (answers srv ->
   fst (estimation srv w) = Ret tt /\
   robot_config w' = robot_config w /\
   exists setup,
     forallb setup_event setup = true /\
     since w w'
     = ([Called Hpp_client; Called GetCurrentConfig] ++ setup ++
        [Called (ApplyConstraints (robot_config w));
         Called (SetCurrentConfig (robot_config w));
         Log Warn (Some 1%nat) (Could_not_apply error)])%list).
Proof.
  intros Free Failed w'. subst w'. unfold estimation.
  rewrite (acquire_free _ w Free). split.
  - unfold_monad. repeat (cbn; first [meet_setup | run_step]).
    all: cbn; new_events.
    all: rewrite ?existsb_app;
      match goal with
      | F : forallb setup_event _ = true |- _ =>
          destruct (setup_never_optimizes _ F) as [O P];
          unfold optimizes, publishes in O, P; rewrite ?O, ?P
      | _ => idtac
      end;
      cbn; auto.
  - intro Answers.
    unfold_monad. repeat (cbn; first [meet_setup | run_step]).
    all: cbn; try (specialize (Returns Answers); discriminate).
    split; [reflexivity|]. split; [reflexivity|].
    exists setup. split; [assumption|]. new_events. reflexivity.
Qed.

Ltac meet_broadcast :=
  match goal with
  | |- context [publish_state ?s ?W] =>
      let l := fresh "broadcast" in
      let El := fresh "Trace" in
      let Fl := fresh "Footprint" in
      let Mx := fresh "Mutex" in
      let Nb := fresh "Ends" in
      destruct (publish_state_footprint s W) as [Nb [Mx [l [El Fl]]]];
      destruct (publish_state s W) as [[[] | ? |] ?];
      cbn in El, Mx, Nb; [ | | exfalso; apply Nb; reflexivity]
  end.

Lemma setup_is_silent (l : list event) :
  forallb setup_event l = true ->
  optimisation_signals l = [] /\ estimates_published l = [].
Proof.
  intro F. split; (eapply flat_map_none; [| exact F]);
    intros [[] | lvl [[| [| n]] |] [] | | |]; simpl; congruence.
Qed.

Lemma broadcast_is_silent (l : list event) :
  forallb broadcast_event l = true ->
  optimisation_signals l = [] /\ estimates_published l = [].
Proof.
  intro F. split; (eapply flat_map_none; [| exact F]);
    intros [[] | [] [[| [| n]] |] [] | | |]; simpl; congruence.
Qed.

(** ** The constraint builder *)

(** C7.  Whatever the transform and the weight (in [0, 1] or not), what
    [_get_transformation_constraint] returns, when it returns, is one name
    if the weight equals 1 and two names otherwise.  With a server that
    answers it does return: for a weight equal to 1, the name of the one
    transformation constraint it created, with its six axes active; for
    any other weight, the names of the position constraint (three axes)
    and of the orientation constraint scaled by the weight. *)
Theorem transformation_constraint_names (srv : Server)
    (joint1 joint2 : string) (tr : Transform) (prefix : string)
    (orientationWeight : Q) (w : World) :
  let r := _get_transformation_constraint srv joint1 joint2 tr prefix
             orientationWeight w in
  let j1 := qualified (self w) joint1 in
  let j2 := qualified (self w) joint2 in
  let name := prefix ++ j1 ++ "_" ++ j2 in
  (forall names, fst r = Ret names ->
     List.length names = if Qeq_bool orientationWeight 1 then 1%nat else 2%nat) /\
  (answers srv ->
   ((orientationWeight == 1)%Q ->
    fst r = Ret ["T_" ++ name] /\
    since w (snd r)
    = [Called Hpp_client;
       Called (CreateTransformationConstraint ("T_" ++ name) j1 j2
                 (pose_of tr) [true; true; true; true; true; true])]) /\
   (~ (orientationWeight == 1)%Q ->
    fst r = Ret ["P_" ++ name; "sO_" ++ name] /\
    since w (snd r)
    = [Called Hpp_client;
       Called (CreatePositionConstraint ("P_" ++ name) j1 j2
                 (firstn 3 (pose_of tr)) [0%Q; 0%Q; 0%Q] [true; true; true]);
       Called (CreateOrientationConstraint ("O_" ++ name) j1 j2
                 (HppQuaternion.toTuple
                    (HppQuaternion.inv (rotation tr)))
                 [true; true; true]);
       Called (ScCreateScalarMultiply ("sO_" ++ name) orientationWeight
                 ("O_" ++ name))])).
Proof.
  intros r j1 j2 name. subst r j1 j2 name.
  unfold _get_transformation_constraint, qualified, pose_of. split.
  - intros names. run; intro H; inversion H; reflexivity.
  - intro Answers. split; intro One.
    + apply Qeq_bool_iff in One. run; new_events; split; reflexivity.
    + assert (Qeq_bool orientationWeight 1 = false) as Other.
      { destruct (Qeq_bool orientationWeight 1) eqn:E; [|reflexivity].
        apply Qeq_bool_iff in E. contradiction. }
      run; new_events; destruct (rotation tr); split; reflexivity.
Qed.

(** ** Joint bounds *)


(** ** The orientation weight *)

Lemma Qeq_bool_false (a b : Q) : ~ (a == b)%Q -> Qeq_bool a b = false.
Proof.
  intro N. destruct (Qeq_bool a b) eqn:E; [|reflexivity].
  apply Qeq_bool_iff in E. contradiction.
Qed.

(** C9, as the code has it.  The weight [get_visual_tag] computes from the
    rotation (x, y, z, w) of a detection is
    [0.063 * 4 * (x^2 + y^2 - z^2 - w^2)]: minus the third coordinate of
    the rotated z axis, times the tag size, with no clamping.  It is
    non-negative exactly when [z^2 + w^2 <= x^2 + y^2].  Whatever its
    sign, when it differs from 1 it is the scaling the builder hands to
    the solver. *)
Theorem orientation_weight_is_not_clamped (srv : Server)
    (ts : TransformStamped) (w : World) :
  let rot := rotation (transform ts) in
  let s := orientation_weight rot in
  (s == (63 # 250) * (q_x rot * q_x rot + q_y rot * q_y rot
                      - q_z rot * q_z rot - q_w rot * q_w rot))%Q /\
  ((0 <= s)%Q <->
   (q_z rot * q_z rot + q_w rot * q_w rot
    <= q_x rot * q_x rot + q_y rot * q_y rot)%Q) /\
  (mutex (self w) = false ->
   answers srv ->
   current_stamp (self w) <= stamp (header ts) ->
   ~ (s == 1)%Q ->
   weights_passed (since w (snd (get_visual_tag srv ts w))) = [s]).
Proof.
  intros rot s.
  assert (s == (63 # 250) * (q_x rot * q_x rot + q_y rot * q_y rot
                             - q_z rot * q_z rot - q_w rot * q_w rot))%Q
    as Value.
  { subst s. unfold orientation_weight, HppQuaternion.transform.
    cbn [v_x v_y v_z]. ring. }
  split; [exact Value|]. split.
  - rewrite Value. split; intro H; lra.
  - intros Free Answers Fresh Other.
    apply Qeq_bool_false in Other.
    apply Z.ltb_ge in Fresh.
    unfold get_visual_tag. rewrite bind_get_self, Fresh.
    fold rot. fold s.
    unfold _get_transformation_constraint.
    run; new_events; reflexivity.
Qed.

(** ** Frames *)

Ltac stamps_to_prop :=
  repeat match goal with
         | H : (_ <? _)%Z = true |- _ => apply Z.ltb_lt in H
         | H : (_ <? _)%Z = false |- _ => apply Z.ltb_ge in H
         end.

(** A stale detection leaves the world as it is: nothing is created on the
    server, no list is touched, the lock is not even taken. *)
Lemma stale_tag_is_discarded (srv : Server) (ts : TransformStamped)
    (w : World) :
  stamp (header ts) < current_stamp (self w) ->
  get_visual_tag srv ts w = (Ret tt, w).
Proof.
  intro Stale. apply Z.ltb_lt in Stale.
  unfold get_visual_tag. rewrite bind_get_self, Stale. reflexivity.
Qed.

Lemma get_visual_tag_stamps (srv : Server) (ts : TransformStamped)
    (w : World) :
  let s := self w in
  let s' := self (snd (get_visual_tag srv ts w)) in
  last_stamp s <= current_stamp s ->
  last_stamp s <= last_stamp s' /\ last_stamp s' <= current_stamp s'.
Proof.
  intros s s' Inv. subst s s'.
  unfold get_visual_tag. rewrite bind_get_self.
  destruct (stamp (header ts) <? current_stamp (self w))%Z eqn:Stale.
  - cbn. lia.
  - unfold _get_transformation_constraint.
    run; stamps_to_prop; lia.
Qed.

Lemma tags_history_sorted (steps : list (Server * TransformStamped))
    (w : World) :
  last_stamp (self w) <= current_stamp (self w) ->
  Sorted Z.le (map (fun x => last_stamp (self x)) (w :: tags_history steps w)).
Proof.
  revert w. induction steps as [| [srv ts] rest IH]; intros w Inv.
  - cbn. constructor; constructor.
  - destruct (get_visual_tag_stamps srv ts w Inv) as [Up Inv'].
    specialize (IH _ Inv').
    cbn [tags_history map] in *. constructor; [exact IH|].
    constructor. exact Up.
Qed.

Lemma get_visual_tag_refines (srv : Server) (ts : TransformStamped) (w : World) :
  answers srv -> mutex (self w) = false ->
  fst (get_visual_tag srv ts w) = Ret tt /\
  self (snd (get_visual_tag srv ts w)) = after_tag (self w) ts.
Proof.
  intros Answers Free. unfold get_visual_tag, after_tag, tag_names, qualified.
  rewrite bind_get_self.
  destruct (stamp (header ts) <? current_stamp (self w))%Z eqn:Stale.
  - split; reflexivity.
  - unfold _get_transformation_constraint.
    destruct w as [[] cfg tr]. cbn in Free, Stale |- *. subst.
    run; split; reflexivity.
Qed.

Lemma after_tag_robot_name s ts : robot_name (after_tag s ts) = robot_name s.
Proof.
  unfold after_tag.
  destruct (stamp (header ts) <? current_stamp s)%Z; [reflexivity|].
  destruct (current_stamp s <? stamp (header ts))%Z; reflexivity.
Qed.

Lemma tag_names_ext s s' ts :
  robot_name s' = robot_name s -> tag_names s' ts = tag_names s ts.
Proof. intro H. unfold tag_names, qualified. rewrite H. reflexivity. Qed.

Lemma after_tag_current_stamp s ts :
  current_stamp (after_tag s ts) = Z.max (current_stamp s) (stamp (header ts)).
Proof.
  unfold after_tag.
  destruct (stamp (header ts) <? current_stamp s)%Z eqn:A;
    [apply Z.ltb_lt in A; lia|].
  destruct (current_stamp s <? stamp (header ts))%Z eqn:B; cbn.
  - apply Z.ltb_lt in B. lia.
  - apply Z.ltb_ge in A, B. lia.
Qed.

Lemma frames_current_stamp_le dets : forall s,
  current_stamp s <= current_stamp (frames s dets).
Proof.
  induction dets as [| ts rest IH]; intro s; cbn; [lia|].
  specialize (IH (after_tag s ts)). rewrite after_tag_current_stamp in IH.
  unfold frames in *. lia.
Qed.

Lemma frames_current_list dets : forall s,
  let f := frames s dets in
  current_visual_tag_constraints f
  = ((if (current_stamp f =? current_stamp s)%Z
      then current_visual_tag_constraints s else []) ++
     flat_map (tag_names s)
       (filter (fun ts => (stamp (header ts) =? current_stamp f)%Z) dets))%list.
Proof.
  induction dets as [| ts rest IH]; intro s; cbn zeta.
  - cbn. rewrite Z.eqb_refl, app_nil_r. reflexivity.
  - cbn [frames fold_left filter]. fold (frames (after_tag s ts) rest).
    specialize (IH (after_tag s ts)). cbn zeta in IH. rewrite IH.
    pose proof (frames_current_stamp_le rest (after_tag s ts)) as Mono.
    set (F := current_stamp (frames (after_tag s ts) rest)) in *.
    rewrite (flat_map_ext _ _ (fun x => tag_names_ext s (after_tag s ts) x
                                 (after_tag_robot_name s ts))).
    rewrite after_tag_current_stamp in Mono.
    unfold after_tag.
    destruct (stamp (header ts) <? current_stamp s)%Z eqn:A.
    + apply Z.ltb_lt in A.
      destruct (Z.eqb_spec (stamp (header ts)) F); [lia | reflexivity].
    + apply Z.ltb_ge in A.
      destruct (current_stamp s <? stamp (header ts))%Z eqn:B; cbn.
      * apply Z.ltb_lt in B.
        destruct (Z.eqb_spec F (stamp (header ts))) as [E | N].
        -- rewrite <- E, Z.eqb_refl.
           destruct (Z.eqb_spec F (current_stamp s)); [lia|]. reflexivity.
        -- destruct (Z.eqb_spec (stamp (header ts)) F); [congruence|].
           destruct (Z.eqb_spec F (current_stamp s)); [lia|]. reflexivity.
      * apply Z.ltb_ge in B. assert (stamp (header ts) = current_stamp s) as E by lia.
        rewrite E.
        destruct (Z.eqb_spec F (current_stamp s)) as [E' | N].
        -- rewrite <- E', Z.eqb_refl. cbn. rewrite <- app_assoc. reflexivity.
        -- destruct (Z.eqb_spec (current_stamp s) F); [congruence|]. reflexivity.
Qed.

Lemma after_tag_mutex s ts : mutex (after_tag s ts) = mutex s.
Proof.
  unfold after_tag.
  destruct (stamp (header ts) <? current_stamp s)%Z; [reflexivity|].
  destruct (current_stamp s <? stamp (header ts))%Z; reflexivity.
Qed.

Lemma tags_final_refines (steps : list (Server * TransformStamped)) :
  forall w,
    Forall (fun st => answers (fst st)) steps ->
    mutex (self w) = false ->
    self (tags_final steps w) = frames (self w) (map snd steps).
Proof.
  induction steps as [| [srv ts] rest IH]; intros w Healthy Free.
  - reflexivity.
  - inversion Healthy as [| ? ? Answers Healthy']; subst.
    destruct (get_visual_tag_refines srv ts w Answers Free) as [_ Step].
    cbn [tags_final fold_left map frames fst snd] in *.
    fold (tags_final rest (snd (get_visual_tag srv ts w))).
    rewrite IH; [rewrite Step; reflexivity | exact Healthy' |].
    rewrite Step, after_tag_mutex. exact Free.
Qed.

(** C1.  Along any run of tag detections, from a node whose sealed stamp is
    not after its open one (as [__init__] leaves it, reading the clock
    twice), the values [last_stamp] takes are non-decreasing.  A detection
    stamped strictly before the open frame is discarded: the callback
    returns at once and the world is unchanged -- no constraint is created,
    no list is extended.  Hence the run ends exactly as if the stale
    detection had never been received: it is in no frame, then or later.
    When the servers answer, the node follows [after_tag] step by step,
    and the open frame holds the names of the detections that bear its
    stamp, in the order received, after what it held at the start if it
    is still the same frame -- and nothing of any other detection. *)
Theorem frame_rollover_is_monotonic
    (steps : list (Server * TransformStamped)) (w : World) :
  last_stamp (self w) <= current_stamp (self w) ->
  Sorted Z.le
    (map (fun x => last_stamp (self x)) (w :: tags_history steps w)) /\
  (forall srv ts w0,
      stamp (header ts) < current_stamp (self w0) ->
      get_visual_tag srv ts w0 = (Ret tt, w0)) /\
  (forall pre post srv ts,
      steps = (pre ++ (srv, ts) :: post)%list ->
      stamp (header ts) < current_stamp (self (tags_final pre w)) ->
      tags_final steps w = tags_final (pre ++ post)%list w) /\
  (Forall (fun st => answers (fst st)) steps ->
   mutex (self w) = false ->
   let f := self (tags_final steps w) in
   f = frames (self w) (map snd steps) /\
   current_visual_tag_constraints f
   = ((if (current_stamp f =? current_stamp (self w))%Z
       then current_visual_tag_constraints (self w) else []) ++
      flat_map (tag_names (self w))
        (filter (fun ts => (stamp (header ts) =? current_stamp f)%Z)
                (map snd steps)))%list).
Proof.
  intro Inv. split; [apply tags_history_sorted, Inv|]. split; [| split].
  - intros srv ts w0. apply stale_tag_is_discarded.
  - intros pre post srv ts -> Stale. unfold tags_final in *.
    rewrite !fold_left_app. cbn [fold_left fst snd].
    rewrite (stale_tag_is_discarded srv ts _ Stale). reflexivity.
  - intros Healthy Free f. subst f.
    rewrite (tags_final_refines steps w Healthy Free).
    split; [reflexivity|]. apply frames_current_list.
Qed.

Lemma char_in_app (c : ascii) (a b : string) :
  char_in c (a ++ String c b) = true.
Proof.
  induction a as [| d a IH]; cbn.
  - rewrite Ascii.eqb_refl. reflexivity.
  - destruct (Ascii.eqb c d); [reflexivity | exact IH].
Qed.

(** C6, as the code has it.  With the visual tags disabled, on a server that
    answers, one base-pose detection that is not stale seals the open
    frame at once: the list of the open frame, with the name of the base
    constraint added unless it is there already, becomes the last frame,
    and the frame is flagged ready.  The stamp of the sealed frame is the
    stamp the open frame had, not the stamp [t] of the detection; [t] is
    the stamp of the new, empty, open frame. *)
Theorem base_pose_seals_open_frame (srv : Server) (ts : TransformStamped)
    (w : World) :
  mutex (self w) = false ->
  answers srv ->
  visual_tags_enabled (self w) = false ->
  current_stamp (self w) <= stamp (header ts) ->
  let base := "T_base/" ++ qualified (self w) "universe" ++ "_"
              ++ getRobotName_reply srv ++ "/root_joint" in
  let open := current_visual_tag_constraints (self w) in
  let s' := self (snd (get_base_pose_estimation srv ts w)) in
  fst (get_base_pose_estimation srv ts w) = Ret tt /\
  last_stamp_is_ready s' = true /\
  last_stamp s' = current_stamp (self w) /\
  last_visual_tag_constraints s'
  = (if str_in base open then open else open ++ [base])%list /\
  current_stamp s' = stamp (header ts) /\
  current_visual_tag_constraints s' = [].
Proof.
  intros Free Answers Blind Fresh base open s'. subst base open s'.
  apply Z.ltb_ge in Fresh.
  unfold get_base_pose_estimation. rewrite bind_get_self, Fresh.
  rewrite (acquire_free _ w Free).
  pose proof (char_in_app "/" (getRobotName_reply srv) "root_joint") as Slash.
  unfold _get_transformation_constraint, qualified.
  run; try (rewrite ?Blind in *; simpl negb in *; congruence);
    repeat split; reflexivity.
Qed.

(** * Concrete runs *)

(** [__init__] reads the clock for [last_stamp], then for [current_stamp]:
    with a clock that does not go back the sealed stamp is not after the
    open one. *)
Lemma init_stamps_ordered name now1 now2 continuous visual_tags manip :
  now1 <= now2 ->
  let s := init name now1 now2 continuous visual_tags manip in
  last_stamp s <= current_stamp s.
Proof. intro H. exact H. Qed.

(** Two tags at 10 then one at 20: the frame of 10 is sealed with the names
    of the two, a frame is open at 20 with the name of the third. *)
Example two_tags_then_the_next_image :
  let tag := fun t name =>
    (Sample.server, Sample.detection t name (Sample.identity)) in
  let s := self (tags_final [tag 10 "tag1"; tag 10 "tag2"; tag 20 "tag1"]
                            Sample.world) in
  last_stamp_is_ready s = true /\
  last_stamp s = 10 /\
  last_visual_tag_constraints s
  = ["P_talos/camera_talos/tag1"; "sO_talos/camera_talos/tag1";
     "P_talos/camera_talos/tag2"; "sO_talos/camera_talos/tag2"] /\
  current_stamp s = 20 /\
  current_visual_tag_constraints s
  = ["P_talos/camera_talos/tag1"; "sO_talos/camera_talos/tag1"].
Proof. vm_compute. repeat split. Qed.

(** A cycle on the ready frame with everything working: the state is
    resolved, the frame is added as optional constraints, the estimate is
    published and the flag is cleared. *)
Example a_cycle_that_works :
  let w' := snd (estimation Sample.server Sample.ready) in
  fst (estimation Sample.server Sample.ready) = Ret tt /\
  last_stamp_is_ready (self w') = false /\
  published_states (since Sample.ready w') = [7] /\
  estimates_published (since Sample.ready w') = [[1 # 2]] /\
  optimisation_signals (since Sample.ready w') = [].
Proof. vm_compute. repeat split. Qed.

Lemma sample_server_answers
    (node : Config -> option StateId)
    (projection : Config -> bool * Config * Q)
    (optimisation : Config -> bool * Config * list Q) (size : Z) :
  answers (Sample.make Sample.no_fault node projection optimisation size).
Proof. intro c. reflexivity. Qed.

(** A joint state for a server that declares two coordinates for the
    joint "arm": the assertion fails, the lock is released. *)
Lemma mutex_released_on_every_path_witness :
  let js := {| js_name := ["arm"]; js_position := [1 # 2] |} in
  let ts := Sample.detection 20 "tag36_11_00001" Sample.facing in
  mutex (self Sample.world) = false /\
  fst (get_joint_state Sample.two_coordinates js Sample.world)
  = Exc (AssertionError "talos/arm is not of size 1") /\
  mutex (self (snd (get_joint_state Sample.two_coordinates js Sample.world)))
  = false /\
  mutex (self (snd (get_visual_tag Sample.two_coordinates ts Sample.world)))
  = false.
Proof.
  intros js ts.
  destruct (mutex_released_on_every_path Sample.two_coordinates js ts Sample.world
              eq_refl) as [All Assert].
  split; [reflexivity|].
  destruct (Assert "arm" (1 # 2) [] [] eq_refl eq_refl eq_refl eq_refl
              eq_refl eq_refl ltac:(discriminate)) as [Raised Freed].
  split; [exact Raised|]. split; [exact Freed|].
  apply (All (get_visual_tag Sample.two_coordinates ts)). simpl. tauto.
Defined.

(** Tags at 10 and 20, a late one stamped 15, then one at 30: the sealed
    stamps are 10, 10, 10, 10, 20, the late tag changes nothing, and the
    open frame holds the names of the tag stamped 30. *)
Lemma frame_rollover_is_monotonic_witness :
  let tag := fun t name =>
    (Sample.server, Sample.detection t name Sample.facing) in
  let steps := [tag 10 "tag1"; tag 20 "tag2"; tag 15 "tag3"; tag 30 "tag1"] in
  last_stamp (self Sample.world) <= current_stamp (self Sample.world) /\
  Sorted Z.le (map (fun x => last_stamp (self x))
                   (Sample.world :: tags_history steps Sample.world)) /\
  tags_final steps Sample.world
  = tags_final [tag 10 "tag1"; tag 20 "tag2"; tag 30 "tag1"] Sample.world /\
  current_visual_tag_constraints (self (tags_final steps Sample.world))
  = ["P_talos/camera_talos/tag1"; "sO_talos/camera_talos/tag1"].
Proof.
  intros tag steps.
  assert (last_stamp (self Sample.world) <= current_stamp (self Sample.world))
    as Inv by (cbn; lia).
  destruct (frame_rollover_is_monotonic steps Sample.world Inv)
    as [Monotonic [_ [Erased Content]]].
  split; [exact Inv|]. split; [exact Monotonic|]. split.
  - apply (Erased [tag 10 "tag1"; tag 20 "tag2"] [tag 30 "tag1"]
                  Sample.server (Sample.detection 15 "tag3" Sample.facing)).
    + reflexivity.
    + vm_compute. reflexivity.
  - destruct Content as [_ Names].
    + repeat constructor; apply sample_server_answers.
    + reflexivity.
    + rewrite Names. vm_compute. reflexivity.
Defined.

(** A ready frame, a projection that fails: the flag is cleared. *)
Lemma frame_consumed_once_witness :
  mutex (self Sample.ready) = false /\
  last_stamp_is_ready (self Sample.ready) = true /\
  last_stamp_is_ready (self (snd (estimation Sample.stuck Sample.ready)))
  = false.
Proof.
  split; [reflexivity|]. split; [reflexivity|].
  apply (frame_consumed_once Sample.stuck Sample.ready eq_refl).
Defined.

(** The graph finds no state and state 4 is cached: state 4 it is. *)
Lemma state_resolution_witness :
  has_manip (self Sample.cached) = true /\
  getNode_fails Sample.lost [1 # 2] /\
  resolved_to 4 Sample.cached
    (snd (_initialize_constraints Sample.lost [1 # 2] Sample.cached)).
Proof.
  assert (getNode_fails Sample.lost [1 # 2]) as Fails
    by (left; split; reflexivity).
  split; [reflexivity|]. split; [exact Fails|].
  destruct (state_resolution Sample.lost [1 # 2] Sample.cached
              eq_refl eq_refl eq_refl eq_refl) as [_ [Sticky _]].
  apply (Sticky 4 Fails eq_refl).
Defined.

(** The projection fails on a server whose solver moves the robot: nothing
    is optimised or published, the robot is put back. *)
Lemma failed_projection_aborts_witness :
  mutex (self Sample.ready) = false /\
  applyConstraints_reply Sample.stuck (robot_config Sample.ready)
  = (false, [1 # 2], 3 # 10) /\
  optimizes (since Sample.ready (snd (estimation Sample.stuck Sample.ready)))
  = false /\
  robot_config (snd (estimation Sample.stuck Sample.ready)) = [1 # 2].
Proof.
  split; [reflexivity|]. split; [reflexivity|].
  destruct (failed_projection_aborts Sample.stuck Sample.ready
              [1 # 2] (3 # 10) eq_refl eq_refl) as [[Never _] Healthy].
  split; [exact Never|].
  destruct (Healthy (sample_server_answers _ _ _ _)) as [_ [Back _]].
  exact Back.
Defined.

(** With the tags disabled and an open frame stamped 10, a base pose
    stamped 20 makes a frame ready, but the stamp of that frame is 10. *)
Lemma base_pose_frame_is_not_sealed_at_t :
  let ts := Sample.detection 20 "base_link" Sample.identity in
  let w' := snd (get_base_pose_estimation Sample.server ts Sample.blind) in
  visual_tags_enabled (self Sample.blind) = false /\
  current_stamp (self Sample.blind) <= stamp (header ts) /\
  last_stamp_is_ready (self w') = true /\
  last_stamp (self w') = 10 /\
  last_stamp (self w') <> stamp (header ts).
Proof.
  vm_compute. repeat split; first [reflexivity | discriminate].
Qed.

Lemma base_pose_seals_open_frame_witness :
  let ts := Sample.detection 20 "base_link" Sample.identity in
  let s' := self (snd (get_base_pose_estimation Sample.server ts Sample.blind)) in
  mutex (self Sample.blind) = false /\
  visual_tags_enabled (self Sample.blind) = false /\
  current_stamp (self Sample.blind) <= stamp (header ts) /\
  last_stamp_is_ready s' = true /\
  last_stamp s' = 10 /\
  last_visual_tag_constraints s' = ["T_base/talos/universe_talos/root_joint"] /\
  current_stamp s' = 20.
Proof.
  intros ts s'.
  assert (current_stamp (self Sample.blind) <= stamp (header ts)) as Fresh
    by (cbn; lia).
  destruct (base_pose_seals_open_frame Sample.server ts Sample.blind
              eq_refl (sample_server_answers _ _ _ _) eq_refl Fresh)
    as [_ [Ready [Stamp [Frame [Open _]]]]].
  split; [reflexivity|]. split; [reflexivity|]. split; [exact Fresh|].
  split; [exact Ready|]. split; [exact Stamp|]. split; [exact Frame|].
  exact Open.
Defined.

(** The builder on a tag: one name for the weight 1, two for 1/2. *)
Lemma transformation_constraint_names_witness :
  let tr := transform (Sample.detection 10 "tag1" Sample.facing) in
  answers Sample.server /\
  fst (_get_transformation_constraint Sample.server "camera" "tag1" tr ""
         1%Q Sample.world)
  = Ret ["T_talos/camera_talos/tag1"] /\
  fst (_get_transformation_constraint Sample.server "camera" "tag1" tr ""
         (1 # 2)%Q Sample.world)
  = Ret ["P_talos/camera_talos/tag1"; "sO_talos/camera_talos/tag1"].
Proof.
  intro tr.
  assert (answers Sample.server) as Answers
    by apply sample_server_answers.
  split; [exact Answers|]. split.
  - destruct (transformation_constraint_names Sample.server "camera" "tag1"
                tr "" 1%Q Sample.world) as [_ Healthy].
    destruct (Healthy Answers) as [One _].
    apply One. reflexivity.
  - destruct (transformation_constraint_names Sample.server "camera" "tag1"
                tr "" (1 # 2)%Q Sample.world) as [_ Healthy].
    destruct (Healthy Answers) as [_ Two].
    apply Two. intro H. discriminate H.
Defined.



(** A tag whose frame is the frame of the camera (identity rotation): the
    weight is -0.252, and that is what the solver is given. *)
Lemma negative_weight_is_passed :
  let ts := Sample.detection 10 "tag1" Sample.identity in
  let w' := snd (get_visual_tag Sample.server ts Sample.world) in
  exists s, weights_passed (since Sample.world w') = [s] /\ (s < 0)%Q.
Proof.
  eexists. split; [vm_compute; reflexivity | reflexivity].
Qed.

Lemma orientation_weight_is_not_clamped_witness :
  let ts := Sample.detection 10 "tag1" Sample.identity in
  mutex (self Sample.world) = false /\
  answers Sample.server /\
  current_stamp (self Sample.world) <= stamp (header ts) /\
  ~ (orientation_weight Sample.identity == 1)%Q /\
  ~ (0 <= orientation_weight Sample.identity)%Q /\
  weights_passed
    (since Sample.world (snd (get_visual_tag Sample.server ts Sample.world)))
  = [orientation_weight Sample.identity].
Proof.
  intro ts.
  assert (answers Sample.server) as Answers
    by apply sample_server_answers.
  assert (current_stamp (self Sample.world) <= stamp (header ts)) as Fresh
    by (cbn; lia).
  assert (~ (orientation_weight Sample.identity == 1)%Q) as Other
    by (intro H; discriminate H).
  destruct (orientation_weight_is_not_clamped Sample.server ts Sample.world)
    as [_ [Sign Passed]].
  split; [reflexivity|]. split; [exact Answers|]. split; [exact Fresh|].
  split; [exact Other|]. split.
  - intro Positive. apply Sign in Positive. vm_compute in Positive.
    apply Positive. reflexivity.
  - apply (Passed eq_refl Answers Fresh Other).
Defined.

(** * More of the node *)

(** ** Rules for [keeps] *)

Section Keeps.

Variable I : Estimation -> Prop.
Variable ok : event -> bool.

(** The invariant does not look at the mutex. *)
Hypothesis I_mutex : forall s b, I s -> I (set_mutex b s).

Lemma kept_refl (w : World) :
  exists l, trace w = (trace w ++ l)%list /\ forallb ok l = true.
Proof. exists []. split; [now rewrite app_nil_r | reflexivity]. Qed.

Lemma kept_trans (a b c : World) :
  (exists l, trace b = (trace a ++ l)%list /\ forallb ok l = true) ->
  (exists l, trace c = (trace b ++ l)%list /\ forallb ok l = true) ->
  exists l, trace c = (trace a ++ l)%list /\ forallb ok l = true.
Proof.
  intros [l1 [E1 F1]] [l2 [E2 F2]]. exists (l1 ++ l2)%list. split.
  - rewrite E2, E1, app_assoc. reflexivity.
  - rewrite forallb_app, F1, F2. reflexivity.
Qed.

Lemma keeps_ret {A} (a : A) : keeps I ok (ret a).
Proof. intros w H. split; [exact H | apply kept_refl]. Qed.

Lemma keeps_raise {A} (e : exn) : keeps I ok (@raise A e).
Proof. intros w H. split; [exact H | apply kept_refl]. Qed.

Lemma keeps_bind {A B} (m : M A) (k : A -> M B) :
  keeps I ok m -> (forall a, keeps I ok (k a)) -> keeps I ok (bind m k).
Proof.
  intros Hm Hk w H. unfold bind. destruct (Hm w H) as [H1 T1].
  destruct (m w) as [[a | e |] w1]; cbn in *.
  - destruct (Hk a w1 H1) as [H2 T2]. split; [exact H2|].
    eapply kept_trans; eassumption.
  - split; assumption.
  - split; assumption.
Qed.

(** What is read from the node satisfies the invariant. *)
Lemma keeps_bind_self {A} (k : Estimation -> M A) :
  (forall s, I s -> keeps I ok (k s)) -> keeps I ok (bind get_self k).
Proof. intros Hk w H. exact (Hk (self w) H w H). Qed.

Lemma keeps_try_except {A} (body : M A) catches handler :
  keeps I ok body -> (forall e, keeps I ok (handler e)) ->
  keeps I ok (try_except body catches handler).
Proof.
  intros Hb Hh w H. unfold try_except. destruct (Hb w H) as [H1 T1].
  destruct (body w) as [[a | e |] w1]; cbn in *; try (split; assumption).
  destruct (catches e); [| split; assumption].
  destruct (Hh e w1 H1) as [H2 T2]. split; [exact H2|].
  eapply kept_trans; eassumption.
Qed.

Lemma keeps_try_finally {A} (body : M A) (fin : M unit) :
  keeps I ok body -> keeps I ok fin -> keeps I ok (try_finally body fin).
Proof.
  intros Hb Hf w H. unfold try_finally. destruct (Hb w H) as [H1 T1].
  destruct (body w) as [[a | e |] w1]; cbn in *; try (split; assumption);
    destruct (Hf w1 H1) as [H2 T2];
    destruct (fin w1) as [[[] | e' |] w2]; cbn in *;
    (split; [exact H2 | eapply kept_trans; eassumption]).
Qed.

Lemma keeps_for_each {A} (xs : list A) (body : A -> M unit) :
  (forall x, keeps I ok (body x)) -> keeps I ok (for_each xs body).
Proof.
  intro Hb. induction xs as [| x rest IH]; cbn.
  - apply keeps_ret.
  - apply keeps_bind; [apply Hb | intros _; exact IH].
Qed.

Lemma keeps_filter_m {A} (p : A -> M bool) (xs : list A) :
  (forall x, keeps I ok (p x)) -> keeps I ok (filter_m p xs).
Proof.
  intro Hp. induction xs as [| x rest IH]; cbn.
  - apply keeps_ret.
  - apply keeps_bind; [apply Hp | intro keep].
    apply keeps_bind; [exact IH | intro tl; apply keeps_ret].
Qed.

Lemma keeps_getitem {A} (xs : list A) (i : nat) : keeps I ok (getitem xs i).
Proof.
  unfold getitem. destruct (nth_error xs i);
    [apply keeps_ret | apply keeps_raise].
Qed.

Lemma keeps_assert (c : bool) (text : string) : keeps I ok (assert c text).
Proof.
  unfold assert. destruct c; [apply keeps_ret | apply keeps_raise].
Qed.

Lemma keeps_get_robot_config : keeps I ok get_robot_config.
Proof. intros w H. split; [exact H | apply kept_refl]. Qed.

Lemma keeps_modify_self f :
  (forall s, I s -> I (f s)) -> keeps I ok (modify_self f).
Proof.
  intros Hf w H. split; [apply Hf, H|]. exists []. cbn.
  split; [now rewrite app_nil_r | reflexivity].
Qed.

Lemma keeps_emit (e : event) : ok e = true -> keeps I ok (emit e).
Proof.
  intros E w H. split; [exact H|]. exists [e]. cbn.
  split; [reflexivity | now rewrite E].
Qed.

Lemma keeps_log lvl period m :
  ok (Log lvl period m) = true -> keeps I ok (log lvl period m).
Proof. apply keeps_emit. Qed.

Lemma keeps_invoke srv (c : call) :
  ok (Called c) = true -> keeps I ok (invoke srv c).
Proof.
  intros E w H. unfold invoke.
  destruct (fault srv c); cbn; (split; [exact H|]);
    exists [Called c]; cbn; (split; [reflexivity | now rewrite E]).
Qed.

Lemma keeps_acquire : keeps I ok acquire.
Proof.
  intros w H. unfold acquire. destruct (mutex (self w)); cbn.
  - split; [exact H | apply kept_refl].
  - split; [apply I_mutex, H|]. exists []. cbn.
    split; [now rewrite app_nil_r | reflexivity].
Qed.

Lemma keeps_release : keeps I ok release.
Proof.
  intros w H. unfold release. destruct (mutex (self w)); cbn.
  - split; [apply I_mutex, H|]. exists []. cbn.
    split; [now rewrite app_nil_r | reflexivity].
  - split; [exact H | apply kept_refl].
Qed.

End Keeps.

(** Proves [keeps I ok m] for a computation built from the primitives;
    [side] settles what the invariant and [ok] ask of each step, [read]
    uses the invariant on what was just read from the node. *)
Ltac keeps_step side read :=
  first
    [ apply keeps_ret | apply keeps_raise
    | apply keeps_getitem | apply keeps_assert
    | apply keeps_get_robot_config
    | apply keeps_acquire; solve [side]
    | apply keeps_release; solve [side]
    | apply keeps_modify_self; solve [side]
    | apply keeps_invoke; solve [side]
    | apply keeps_log; solve [side]
    | apply keeps_emit; solve [side]
    | apply keeps_bind_self; intros ? ?; try read
    | apply keeps_bind; [| intros ?]
    | apply keeps_try_except; [| intros ?]
    | apply keeps_try_finally
    | apply keeps_for_each; intros ?
    | apply keeps_filter_m; intros ?
    | match goal with
      | |- keeps _ _ (if ?b then _ else _) => destruct b eqn:?
      | |- keeps _ _ (match ?x with _ => _ end) => destruct x eqn:?
      | |- keeps _ _ (let _ := _ in _) => cbv zeta
      end ].

Ltac unfold_callbacks :=
  unfold estimation, get_joint_state, get_visual_tag,
    get_base_pose_estimation, spin_once, continuous_estimation;
  unfold_node.

Ltac keeps_node side read := unfold_callbacks; repeat keeps_step side read.

(** ** What the estimation cycle leaves alone *)

(** X1.  An estimation cycle, whatever the server does, changes neither
    the frames (stamps and lists, the sealed list is not emptied), nor the
    locked joints, nor the settings of the node. *)
Theorem estimation_keeps_frames (srv : Server) (w : World) :
  frames_view (self (snd (estimation srv w))) = frames_view (self w).
Proof.
  assert (keeps (fun s => frames_view s = frames_view (self w)) any_event
                (estimation srv)) as K.
  { keeps_node ltac:(first [reflexivity | intros; assumption]) idtac. }
  exact (proj1 (K w eq_refl)).
Qed.

Lemma since_appended (w w' : World) (l : list event) :
  trace w' = (trace w ++ l)%list -> since w w' = l.
Proof.
  intro H. unfold since. rewrite H.
  rewrite skipn_app, skipn_all, Nat.sub_diag. reflexivity.
Qed.

(** X2.  Every transform an estimation cycle broadcasts is stamped with
    the stamp of the sealed frame, [last_stamp], as it was when the cycle
    started, and is expressed in the frame "world" -- whatever the links
    and poses the server returns. *)
Theorem transforms_bear_the_sealed_stamp (srv : Server) (w : World) :
  forallb (stamped_at (last_stamp (self w)))
          (since w (snd (estimation srv w))) = true.
Proof.
  assert (keeps (fun s => last_stamp s = last_stamp (self w))
                (stamped_at (last_stamp (self w))) (estimation srv)) as K.
  { keeps_node
      ltac:(first [ reflexivity | intros; assumption
                  | cbn; match goal with
                         | H : last_stamp _ = _ |- _ =>
                             rewrite H, Z.eqb_refl; reflexivity
                         end ])
      idtac. }
  destruct (K w eq_refl) as [_ [l [E F]]].
  rewrite (since_appended _ _ _ E). exact F.
Qed.

(** ** Exceptions *)

(** X3.  An estimation cycle entered with the mutex free never lets an
    exception of class [Exception] out: whatever call raises whatever
    error, the cycle returns normally; only an exception that is not an
    [Exception] (a keyboard interrupt) propagates. *)
Theorem estimation_swallows_exceptions (srv : Server) (w : World) :
  mutex (self w) = false ->
  fst (estimation srv w) = Ret tt \/
  exists e, fst (estimation srv w) = Exc e /\ is_Exception e = false.
Proof.
  intro Free. unfold estimation. rewrite (acquire_free _ w Free).
  unfold try_finally, try_except.
  match goal with
  | |- context [match ?body ?W with _ => _ end] =>
      assert (emits any_event body) as E by emits_node;
      destruct (E W) as [Nb [Mx _]];
      destruct (body W) as [[[] | e |] w1]
  end; cbn in Mx, Nb.
  - unfold bind, modify_self, release; cbn. rewrite Mx. cbn. left; reflexivity.
  - destruct (is_Exception e) eqn:Class.
    + unfold bind, log, emit, modify_self, release; cbn. rewrite Mx. cbn.
      left; reflexivity.
    + unfold bind, modify_self, release; cbn. rewrite Mx. cbn.
      right. exists e. split; [reflexivity | exact Class].
  - congruence.
Qed.

(** Rules for [traced]. *)

Section Traced.

Variable srv : Server.

Lemma all_served_app (a b : list event) :
  all_served srv (a ++ b) = all_served srv a && all_served srv b.
Proof. apply forallb_app. Qed.

Lemma traced_ret {A} (a : A) : traced srv (ret a).
Proof. intro w. exists []. cbn. split; [now rewrite app_nil_r | reflexivity]. Qed.

Lemma traced_raise {A} (e : exn) :
  is_UserException e = false -> traced srv (@raise A e).
Proof.
  intros H w. exists []. cbn. split; [now rewrite app_nil_r|].
  right. split; [exact H | reflexivity].
Qed.

Lemma traced_bind {A B} (m : M A) (k : A -> M B) :
  traced srv m -> (forall a, traced srv (k a)) -> traced srv (bind m k).
Proof.
  intros Hm Hk w. unfold bind. destruct (Hm w) as [l1 [E1 O1]].
  destruct (m w) as [[a | e |] w1]; cbn [fst snd] in *.
  - destruct (Hk a w1) as [l2 [E2 O2]]. exists (l1 ++ l2)%list. split.
    + rewrite E2, E1, app_assoc. reflexivity.
    + destruct (fst (k a w1)) as [b | e |].
      * rewrite all_served_app, O1, O2. reflexivity.
      * destruct O2 as [[l0 [c [E [F S]]]] | [U S]].
        -- left. exists (l1 ++ l0)%list, c. split; [| split].
           ++ rewrite E, app_assoc. reflexivity.
           ++ exact F.
           ++ rewrite all_served_app, O1, S. reflexivity.
        -- right. split; [exact U|].
           rewrite all_served_app, O1, S. reflexivity.
      * exact O2.
  - exists l1. split; assumption.
  - contradiction.
Qed.

Lemma traced_bind_self {A} (k : Estimation -> M A) :
  (forall s, traced srv (k s)) -> traced srv (bind get_self k).
Proof. intros Hk w. exact (Hk (self w) w). Qed.

Lemma traced_for_each {A} (xs : list A) (body : A -> M unit) :
  (forall x, traced srv (body x)) -> traced srv (for_each xs body).
Proof.
  intro Hb. induction xs as [| x rest IH]; cbn.
  - apply traced_ret.
  - apply traced_bind; [apply Hb | intros _; exact IH].
Qed.

Lemma traced_getitem {A} (xs : list A) (i : nat) : traced srv (getitem xs i).
Proof.
  unfold getitem. destruct (nth_error xs i);
    [apply traced_ret | apply traced_raise; reflexivity].
Qed.

Lemma traced_assert (c : bool) (text : string) : traced srv (assert c text).
Proof.
  unfold assert. destruct c; [apply traced_ret | apply traced_raise; reflexivity].
Qed.

Lemma traced_modify_self f : traced srv (modify_self f).
Proof. intro w. exists []. cbn. split; [now rewrite app_nil_r | reflexivity]. Qed.

Lemma traced_log lvl period m : traced srv (log lvl period m).
Proof. intro w. exists [Log lvl period m]. cbn. split; reflexivity. Qed.

Lemma traced_invoke (c : call) : traced srv (invoke srv c).
Proof.
  intro w. exists [Called c]. unfold invoke.
  destruct (fault srv c) as [e |] eqn:F; cbn.
  - split; [reflexivity|]. left. exists [], c. repeat split. exact F.
  - split; [reflexivity|]. rewrite F. reflexivity.
Qed.

End Traced.

Ltac traced_step :=
  first
    [ apply traced_ret | apply traced_getitem | apply traced_assert
    | apply traced_modify_self | apply traced_log | apply traced_invoke
    | apply traced_bind_self; intros ?
    | apply traced_bind; [| intros ?]
    | apply traced_for_each; intros ?
    | match goal with
      | |- traced _ (if ?b then _ else _) => destruct b
      | |- traced _ (match ?x with _ => _ end) => destruct x
      | |- traced _ (let _ := _ in _) => cbv zeta
      end ].

(** A call recorded among served calls did not raise. *)
Lemma served_call_is_no_fault (srv : Server) (l : list event) (c : call) :
  all_served srv l = true -> In (Called c) l -> fault srv c = None.
Proof.
  intros S I. unfold all_served in S. rewrite forallb_forall in S.
  specialize (S _ I). cbn in S. destruct (fault srv c); [discriminate | reflexivity].
Qed.

(** X4.  [get_joint_state], entered with the mutex free, never lets a
    CORBA [UserException] out.  Whenever a call it made to the server
    raised one -- while reading the model or locking a joint -- that call
    is the last it made, the next and last thing it does is to log the
    error, once, at the level of errors, and the callback returns
    normally with the mutex free. *)
Theorem get_joint_state_swallows_user_exceptions (srv : Server)
    (js : JointState) (w : World) :
  mutex (self w) = false ->
  let w' := snd (get_joint_state srv js w) in
  (forall what, fst (get_joint_state srv js w) <> Exc (UserException what)) /\
  (forall c what,
     In (Called c) (since w w') ->
     fault srv c = Some (UserException what) ->
     fst (get_joint_state srv js w) = Ret tt /\
     mutex (self w') = false /\
     exists before,
       since w w'
       = (before ++
          [Called c;
           Log Err None (Cannot_get_joint_state (UserException what))])%list /\
       all_served srv before = true).
Proof.
  intros Free w'. subst w'.
  unfold get_joint_state. rewrite (acquire_free _ w Free).
  unfold try_finally, try_except.
  match goal with
  | |- context [match ?body ?W with _ => _ end] =>
      assert (emits any_event body) as E by emits_node;
      assert (traced srv body) as T
        by (unfold_calls; repeat traced_step);
      destruct (E W) as [Nb [Mx _]];
      destruct (T W) as [l [El O]];
      destruct (body W) as [[[] | e |] w1]
  end; cbn [fst snd] in *; cbn in Mx, El.
  - (* every call was served *)
    unfold release. rewrite Mx. cbn [fst snd self trace]. split.
    + discriminate.
    + intros c what I F. exfalso.
      rewrite (since_appended w _ l) in I by exact El.
      rewrite (served_call_is_no_fault srv l c O I) in F. discriminate F.
  - destruct (is_UserException e) eqn:Class.
    + (* the server raised a [UserException] *)
      unfold log, emit, release; cbn. rewrite Mx. cbn. split.
      * discriminate.
      * destruct O as [[l0 [c0 [L [F0 S0]]]] | [U _]]; [| congruence].
        intros c what I F.
        rewrite (since_appended w _
                   (l ++ [Log Err None (Cannot_get_joint_state e)])%list) in *
          by (cbn; rewrite El, app_assoc; reflexivity).
        subst l. rewrite <- app_assoc in I |- *. cbn [app] in I |- *.
        apply in_app_or in I. destruct I as [I | [I | [I | []]]].
        -- rewrite (served_call_is_no_fault srv l0 c S0 I) in F.
           discriminate F.
        -- inversion I; subst c0. rewrite F in F0. inversion F0; subst e.
           split; [reflexivity|]. split; [reflexivity|].
           exists l0. split; [reflexivity | exact S0].
        -- discriminate I.
    + unfold release. rewrite Mx. cbn. split.
      * intros what H. inversion H; subst. discriminate Class.
      * intros c what I F. exfalso.
        rewrite (since_appended w _ l) in I by exact El.
        destruct O as [[l0 [c0 [L [F0 S0]]]] | [_ S]].
        -- subst l. apply in_app_or in I. destruct I as [I | [I | []]].
           ++ rewrite (served_call_is_no_fault srv l0 c S0 I) in F.
              discriminate F.
           ++ inversion I; subst c0. rewrite F in F0. inversion F0; subst e.
              discriminate Class.
        -- rewrite (served_call_is_no_fault srv l c S I) in F. discriminate F.
  - exfalso. exact O.
Qed.

(** ** Served calls *)

Lemma invoke_served {A} (srv : Server) (c : call) (k : M A) (w : World) :
  fault srv c = None -> (invoke srv c ;; k) w = k (served srv c w).
Proof. intro H. unfold bind, invoke. rewrite H. reflexivity. Qed.

Lemma reply_served {A B} (srv : Server) (c : call) (r : A) (k : A -> M B)
    (w : World) :
  fault srv c = None ->
  (x <- (invoke srv c ;; ret r) ;; k x) w = k r (served srv c w).
Proof. intro H. unfold bind, invoke, ret. rewrite H. reflexivity. Qed.

(** ** The locked joints *)

(** X5.  Once the list of locked joints is populated, no callback and no
    cycle changes it, whatever the message and whatever the server does:
    the baseline is built from the first joint state and kept. *)
Theorem locked_joints_are_set_once (srv : Server) (js : JointState)
    (ts : TransformStamped) (w : World) :
  locked_joints (self w) <> [] ->
  forall op : M unit,
    In op [get_joint_state srv js; estimation srv; get_visual_tag srv ts;
           get_base_pose_estimation srv ts] ->
    locked_joints (self (snd (op w))) = locked_joints (self w).
Proof.
  intros Populated op Op.
  destruct (locked_joints (self w)) as [| lock locks] eqn:Locked;
    [contradiction|].
  assert (keeps (fun s => locked_joints s = lock :: locks) any_event op) as K.
  { destruct Op as [E | [E | [E | [E | []]]]]; subst op;
      keeps_node
        ltac:(first [reflexivity | intros; assumption])
        ltac:(idtac;
              match goal with
              | H : locked_joints ?s = _ |- context [locked_joints ?s] =>
                  rewrite H; cbn [List.length Nat.eqb]
              end). }
  exact (proj1 (K w Locked)).
Qed.

(** X6.  A joint state whose positions are strictly inside the bounds of
    their joints, on a server that answers: every joint that has a
    position is locked at the position received, in the order of the
    message and without a warning.  If no joint was locked before, the
    list of locked joints becomes the lock names of all the names of the
    message -- of those beyond the positions too, for which no lock was
    created. *)
Theorem joint_state_inside_bounds (srv : Server) (js : JointState)
    (w : World) :
  mutex (self w) = false ->
  answers srv ->
  Forall (strictly_inside srv) (combine (js_name js) (js_position js)) ->
  let w' := snd (get_joint_state srv js w) in
  fst (get_joint_state srv js w) = Ret tt /\
  since w w'
  = ([Called Hpp_client; Called GetRobotName] ++
     flat_map (locks_at srv) (combine (js_name js) (js_position js)))%list /\
  (locked_joints (self w) = [] ->
   locked_joints (self w')
   = map (fun n => "lock_" ++ joint_path srv n) (js_name js)).
Proof.
  intros Free Answers Inside w'. subst w'.
  destruct (get_joint_state srv js w) as [r w'] eqn:Run. cbn [fst snd].
  revert Run.
  unfold get_joint_state. rewrite (acquire_free _ w Free).
  unfold try_finally, try_except, hpp, getRobotName.
  rewrite invoke_served, reply_served by apply Answers. cbv zeta.
  match goal with
  | |- context [for_each ?l ?body] =>
      assert (forall jq W0,
                 strictly_inside srv jq ->
                 body jq W0
                 = (Ret tt,
                    {| self := self W0; robot_config := robot_config W0;
                       trace := (trace W0 ++ locks_at srv jq)%list |}))
        as Step;
      [| remember body as lock_joint ]
  end.
  { intros [jn q] W0 [b0 [b1 [[Ty [Sz Bounds]] [Lo Hi]]]].
    cbn [fst snd] in *. unfold joint_path in Ty, Sz, Bounds.
    assert (Qlt_bool (q - b0) (- (1 # 1000)) = false) as C1
      by (apply Qlt_bool_false_iff; lra).
    assert (Qlt_bool (1 # 1000) (q - b1) = false) as C2
      by (apply Qlt_bool_false_iff; lra).
    assert (Qlt_bool b0 q = true) as C3 by (apply Qlt_bool_iff; lra).
    assert (Qlt_bool q b1 = true) as C4 by (apply Qlt_bool_iff; lra).
    unfold_monad. repeat rewrite Answers.
    rewrite Ty, Sz, Bounds. unfold py_min, py_max.
    cbn. rewrite C1, C2. cbn. rewrite C3, C4. cbn. rewrite Answers.
    unfold locks_at, joint_path.
    repeat rewrite <- app_assoc. cbn. reflexivity. }
  assert (forall pairs W0,
             Forall (strictly_inside srv) pairs ->
             for_each pairs lock_joint W0
             = (Ret tt,
                {| self := self W0; robot_config := robot_config W0;
                   trace := (trace W0 ++ flat_map (locks_at srv) pairs)%list |}))
    as Loop.
  { induction pairs as [| jq rest IH]; intros W0 In.
    - cbn. unfold ret. rewrite app_nil_r. destruct W0; reflexivity.
    - inversion In as [| ? ? Here In']; subst.
      cbn [for_each flat_map]. unfold bind. rewrite (Step _ _ Here).
      rewrite (IH _ In'). cbn [self robot_config trace].
      rewrite <- app_assoc. reflexivity. }
  unfold bind at 1. rewrite (Loop _ _ Inside).
  unfold_monad. cbn.
  destruct (locked_joints (self w)) eqn:Locked; cbn;
    intro Run; inversion Run; subst; clear Run;
    (split; [reflexivity|]); (split; [new_events; reflexivity|]);
    intro H; first [reflexivity | discriminate H].
Qed.

Ltac cmp_to_prop :=
  repeat match goal with
         | H : Qlt_bool _ _ = true |- _ => apply Qlt_bool_iff in H
         | H : Qlt_bool _ _ = false |- _ => apply Qlt_bool_false_iff in H
         end.

(** X7.  For a joint of size 1 with bounds [b0 <= b1], on a server that
    answers: a position below [b0] is locked at a value equal to [b0], with
    the throttled warning exactly when it is below by more than [1e-3]; a
    position within the bounds, ends included, is locked at a value equal
    to it, without a warning. *)
Theorem lower_bound_and_inside (srv : Server) (w : World) (jn : string)
    (q b0 b1 : Q) :
  mutex (self w) = false ->
  answers srv ->
  one_dimensional srv (joint_path srv jn) b0 b1 ->
  (b0 <= b1)%Q ->
  (q <= b1)%Q ->
  let name := joint_path srv jn in
  let w' := snd (get_joint_state srv
                   {| js_name := [jn]; js_position := [q] |} w) in
  (exists v, joints_locked (since w w') = [("lock_" ++ name, name, [v])] /\
             ((q < b0)%Q -> (v == b0)%Q) /\ ((b0 <= q)%Q -> (v == q)%Q)) /\
  ((b0 - q <= 1 # 1000)%Q -> bound_warnings (since w w') = []) /\
  ((1 # 1000 < b0 - q)%Q ->
   bound_warnings (since w w') = [(name, q, [b0; b1])]).
Proof.
  intros Free Answers [Ty [Sz Bounds]] Ordered Below name w'. subst name w'.
  unfold get_joint_state. rewrite (acquire_free _ w Free).
  unfold joint_path in *.
  assert (Qlt_bool (1 # 1000) (q - b1) = false) as C2
    by (apply Qlt_bool_false_iff; lra).
  destruct (Qlt_bool (q - b0) (- (1 # 1000))) eqn:C1;
    destruct (Qlt_bool b0 q) eqn:C3;
    destruct (Qlt_bool q b1) eqn:C4;
    destruct (Qlt_bool b0 b1) eqn:C5.
  all: unfold_monad; cbn [combine js_name js_position for_each];
    unfold_monad; cbv zeta; repeat rewrite Answers;
    rewrite Ty, Sz, Bounds; unfold py_min, py_max;
    repeat (cbn; run_step); cbn; new_events.
  all: cmp_to_prop.
  all: split; [eexists; split; [reflexivity|]; split; intro; lra
              | split; intro; first [reflexivity | exfalso; lra]].
Qed.

(** X8.  A joint whose type starts with "JointModelRUB" and that has two
    coordinates is locked, whatever the angle received, at its cosine and
    sine: its bounds are not asked for, nothing is clamped, no warning is
    raised. *)
Theorem unbounded_rotation_is_locked_on_the_circle (srv : Server)
    (w : World) (jn : string) (q : Q) :
  mutex (self w) = false ->
  answers srv ->
  startswith (getJointType_reply srv (joint_path srv jn)) "JointModelRUB"
    = true ->
  getJointConfigSize_reply srv (joint_path srv jn) = 2 ->
  let name := joint_path srv jn in
  let w' := snd (get_joint_state srv
                   {| js_name := [jn]; js_position := [q] |} w) in
  fst (get_joint_state srv {| js_name := [jn]; js_position := [q] |} w)
  = Ret tt /\
  joints_locked (since w w')
  = [("lock_" ++ name, name, [math_cos srv q; math_sin srv q])] /\
  asks_bounds (since w w') = false /\
  bound_warnings (since w w') = [].
Proof.
  intros Free Answers Ty Sz name w'. subst name w'.
  unfold get_joint_state. rewrite (acquire_free _ w Free).
  unfold joint_path in *.
  unfold_monad; cbn [combine js_name js_position for_each];
    unfold_monad; cbv zeta; repeat rewrite Answers;
    rewrite Ty, Sz;
    repeat (cbn; run_step); cbn; new_events.
  all: repeat split; reflexivity.
Qed.

(** ** Validation *)

Lemma setup_has_no_collision (l : list event) :
  forallb setup_event l = true -> collision_warnings l = [].
Proof.
  intro F. eapply flat_map_none; [| exact F].
  intros [[] | lvl [[| [| n]] |] [] | | |]; cbn; try congruence;
    destruct lvl; congruence.
Qed.

Lemma broadcast_has_no_collision (l : list event) :
  forallb broadcast_event l = true -> collision_warnings l = [].
Proof.
  intro F. eapply flat_map_none; [| exact F].
  intros [[] | [] [[| [| n]] |] [] | | |]; cbn; congruence.
Qed.

(** X9.  In a cycle where the server answers and the projection succeeds,
    the configuration the optimiser returns is published on [semantic],
    once, whether the optimiser succeeded or not and whether the
    configuration is valid or in collision: validation is advisory.  The
    collision is reported by one throttled warning, and a successful
    optimisation leaves no record of failure. *)
Theorem validation_is_advisory (srv : Server) (w : World)
    (q_projected : Config) (residual : Q) (optOk : bool)
    (q_estimated : Config) (error : list Q) (valid : bool) (report : string) :
  mutex (self w) = false ->
  answers srv ->
  applyConstraints_reply srv (robot_config w) = (true, q_projected, residual) ->
  optimize_reply srv q_projected = (optOk, q_estimated, error) ->
  isConfigValid_reply srv q_estimated = (valid, report) ->
  let w' := snd (estimation srv w) in
  estimates_published (since w w') = [q_estimated] /\
  collision_warnings (since w w') = (if valid then [] else [report]) /\
  (optOk = true -> optimisation_signals (since w w') = []).
Proof.
  intros Free Answers Projected Optimised Validated w'. subst w'.
  unfold estimation. rewrite (acquire_free _ w Free).
  destruct optOk, valid.
  all: unfold_monad;
    repeat (cbn; first [meet_setup | meet_broadcast | run_step]).
  all: try (specialize (Returns Answers); discriminate).
  all: cbn; new_events.
  all: repeat match goal with
         | F : forallb setup_event _ = true |- _ =>
             pose proof (setup_has_no_collision _ F);
             destruct (setup_is_silent _ F) as [? ?]; clear F
         | F : forallb broadcast_event _ = true |- _ =>
             pose proof (broadcast_has_no_collision _ F);
             destruct (broadcast_is_silent _ F) as [? ?]; clear F
         end;
    unfold optimisation_signals, estimates_published, collision_warnings in *;
    repeat (cbn;
            rewrite ?flat_map_app;
            repeat match goal with
                   | H : flat_map _ _ = [] |- _ => rewrite H; clear H
                   end).
  all: repeat split; first [reflexivity | intro; discriminate].
Qed.

(** ** Setting the constraints up *)

Lemma map_const_repeat {A B} (b : B) (l : list A) :
  map (fun _ => b) l = repeat b (List.length l).
Proof. induction l as [| a l IH]; cbn; [reflexivity | now rewrite IH]. Qed.

(** X10.  Without the manipulation client, on a server that answers,
    [_initialize_constraints] never asks the graph, publishes no state and
    leaves the node as it is; it adds the constraints named by the
    parameter [default_constraints], all at priority 0, and then the
    sealed frame, if it is not empty, at priority 1. *)
Theorem flat_mode_uses_default_constraints (srv : Server) (q : Config)
    (w : World) :
  has_manip (self w) = false ->
  answers srv ->
  let w' := snd (_initialize_constraints srv q w) in
  let defaults := param_default_constraints srv in
  let frame := last_visual_tag_constraints (self w) in
  fst (_initialize_constraints srv q w) = Ret tt /\
  self w' = self w /\
  asks_graph (since w w') = false /\
  published_states (since w w') = [] /\
  constraints_added (since w w')
  = (("constraints", defaults, repeat 0 (List.length defaults))
     :: match frame with
        | [] => []
        | _ => [("unused", frame, repeat 1 (List.length frame))]
        end).
Proof.
  intros Flat Answers w' defaults frame. subst w' defaults frame.
  rewrite <- !map_const_repeat.
  unfold _initialize_constraints.
  destruct (last_visual_tag_constraints (self w)) eqn:Frame.
  - run; try (rewrite Frame in *; discriminate);
      new_events; repeat split; reflexivity.
  - run; try (rewrite Frame in *; discriminate);
      new_events; rewrite ?Frame; repeat split; reflexivity.
Qed.

(** X11.  In either mode, on a server that answers: a sealed frame that is
    not empty is added after the baseline as the constraints "unused" at
    priority 1, and the last priority is then made optional; an empty
    frame adds no sensor constraint and the priorities are left alone. *)
Theorem sealed_frame_is_added_as_optional (srv : Server) (q : Config)
    (w : World) :
  answers srv ->
  let w' := snd (_initialize_constraints srv q w) in
  let frame := last_visual_tag_constraints (self w) in
  (frame = [] ->
   optional_flags (since w w') = [] /\
   Forall (fun c => fst (fst c) <> "unused")
          (constraints_added (since w w'))) /\
  (frame <> [] ->
   optional_flags (since w w') = [true] /\
   exists baseline,
     since w w'
     = (baseline ++
        [Log Info (Some 1%nat) (Adding frame);
         Called (AddNumericalConstraints "unused" frame
                   (repeat 1 (List.length frame)));
         Called (SetNumericalConstraintsLastPriorityOptional true)])%list).
Proof.
  intros Answers w' frame. subst w' frame.
  unfold _initialize_constraints. split.
  - intro Empty. run; try (rewrite Empty in *; discriminate);
      new_events; (split; [reflexivity|]);
      repeat constructor; cbn; discriminate.
  - intro Sealed.
    destruct (last_visual_tag_constraints (self w)) as [| n frame] eqn:Frame;
      [contradiction|].
    rewrite <- !map_const_repeat.
    run; try (rewrite Frame in *; discriminate);
      new_events; rewrite ?Frame; (split; [reflexivity|]);
      eexists;
      match goal with
      | |- ?l = _ => 
          let n := eval cbn in (List.length l - 3)%nat in
          instantiate (1 := firstn n l)
      end; reflexivity.
Qed.

(** ** The pose of the base *)

Lemma str_in_last (x : string) (xs : list string) :
  str_in x (xs ++ [x])%list = true.
Proof.
  unfold str_in. rewrite existsb_app. cbn. rewrite String.eqb_refl.
  now rewrite orb_true_r.
Qed.

Lemma with_base_idempotent (srv : Server) (s : Estimation) :
  with_base srv (with_base srv s) = with_base srv s.
Proof.
  unfold with_base at 2 3.
  destruct (str_in (base_name srv s) (current_visual_tag_constraints s)) eqn:In.
  - unfold with_base. rewrite In. reflexivity.
  - unfold with_base. unfold base_name, qualified. cbn.
    fold (qualified s "universe"). fold (base_name srv s).
    rewrite str_in_last. reflexivity.
Qed.

Lemma base_pose_joins (srv : Server) (ts : TransformStamped) (w : World) :
  mutex (self w) = false ->
  answers srv ->
  visual_tags_enabled (self w) = true ->
  current_stamp (self w) <= stamp (header ts) ->
  fst (get_base_pose_estimation srv ts w) = Ret tt /\
  self (snd (get_base_pose_estimation srv ts w)) = with_base srv (self w).
Proof.
  intros Free Answers Tags Fresh. apply Z.ltb_ge in Fresh.
  unfold get_base_pose_estimation. rewrite bind_get_self, Fresh.
  rewrite (acquire_free _ w Free).
  pose proof (char_in_app "/" (getRobotName_reply srv) "root_joint") as Slash.
  unfold _get_transformation_constraint, with_base, base_name, qualified.
  run; try (rewrite ?Tags in *; simpl negb in *; congruence).
  all: split; [reflexivity|].
  all: destruct (self w); cbn in *; subst; reflexivity.
Qed.

(** X12.  With the visual tags enabled, on a server that answers, a base
    pose that is not stale joins the open frame and seals nothing: the
    sealed frame, the ready flag and the stamp of the open frame stay as
    they are, even when the pose is stamped after the open frame; the
    name of the base constraint is appended to the open frame unless it
    is there already.  A second base pose in the same frame changes
    nothing in the node. *)
Theorem base_pose_joins_the_open_frame (srv : Server)
    (ts ts2 : TransformStamped) (w : World) :
  mutex (self w) = false ->
  answers srv ->
  visual_tags_enabled (self w) = true ->
  current_stamp (self w) <= stamp (header ts) ->
  current_stamp (self w) <= stamp (header ts2) ->
  let w1 := snd (get_base_pose_estimation srv ts w) in
  let open := current_visual_tag_constraints (self w) in
  fst (get_base_pose_estimation srv ts w) = Ret tt /\
  (last_stamp (self w1), last_visual_tag_constraints (self w1),
   last_stamp_is_ready (self w1), current_stamp (self w1))
  = (last_stamp (self w), last_visual_tag_constraints (self w),
     last_stamp_is_ready (self w), current_stamp (self w)) /\
  current_visual_tag_constraints (self w1)
  = (if str_in (base_name srv (self w)) open then open
     else open ++ [base_name srv (self w)])%list /\
  self (snd (get_base_pose_estimation srv ts2 w1)) = self w1.
Proof.
  intros Free Answers Tags Fresh Fresh2 w1 open. subst open.
  destruct (base_pose_joins srv ts w Free Answers Tags Fresh) as [R Step].
  fold w1 in Step.
  split; [exact R|].
  assert (last_stamp (self w1) = last_stamp (self w) /\
          last_visual_tag_constraints (self w1)
          = last_visual_tag_constraints (self w) /\
          last_stamp_is_ready (self w1) = last_stamp_is_ready (self w) /\
          current_stamp (self w1) = current_stamp (self w) /\
          mutex (self w1) = mutex (self w) /\
          visual_tags_enabled (self w1) = visual_tags_enabled (self w))
    as [S1 [S2 [S3 [S4 [S5 S6]]]]].
  { rewrite Step. unfold with_base.
    destruct (str_in _ _); repeat split; reflexivity. }
  split; [rewrite S1, S2, S3, S4; reflexivity|]. split.
  - rewrite Step. unfold with_base. destruct (str_in _ _); reflexivity.
  - assert (mutex (self w1) = false) as Free1 by (rewrite S5; exact Free).
    assert (visual_tags_enabled (self w1) = true) as Tags1
      by (rewrite S6; exact Tags).
    assert (current_stamp (self w1) <= stamp (header ts2)) as Fresh1
      by (rewrite S4; exact Fresh2).
    destruct (base_pose_joins srv ts2 w1 Free1 Answers Tags1 Fresh1)
      as [_ Step2].
    rewrite Step2, Step. apply with_base_idempotent.
Qed.

(** ** The loop *)

Lemma spin_switched_off (ticks : list Server) (w : World) :
  run_continuous_estimation (self w) = false ->
  spin ticks w
  = (Ret tt,
     {| self := self w; robot_config := robot_config w;
        trace := (trace w ++
                  repeat (Log Debug None
                            (Not_running false (last_stamp_is_ready (self w))))
                         (List.length ticks))%list |}).
Proof.
  revert w. induction ticks as [| srv rest IH]; intros w Off.
  - cbn. unfold ret. rewrite app_nil_r. destruct w; reflexivity.
  - cbn [spin]. unfold bind at 1. unfold spin_once. rewrite bind_get_self.
    rewrite Off. cbn [andb]. unfold log, emit. rewrite IH by exact Off.
    cbn [self robot_config trace List.length repeat].
    rewrite <- app_assoc. reflexivity.
Qed.

(** X13.  Once continuous estimation is switched off, the loop of [spin]
    only logs: however many turns it makes and whatever the servers, it
    calls nothing, estimates nothing and leaves a ready frame ready, the
    mutex and the robot as they are.  The service answers (True, "ok"). *)
Theorem switched_off_loop_is_idle (ticks : list Server) (w : World) :
  let w1 := snd (continuous_estimation false w) in
  let w2 := snd (spin ticks w1) in
  fst (continuous_estimation false w) = Ret (true, "ok") /\
  fst (spin ticks w1) = Ret tt /\
  self w2 = set_run_continuous_estimation false (self w) /\
  robot_config w2 = robot_config w /\
  since w w2
  = Log Info None (Run_continuous_estimation false)
    :: repeat (Log Debug None
                 (Not_running false (last_stamp_is_ready (self w))))
              (List.length ticks).
Proof.
  intros w1 w2. subst w2 w1.
  split; [reflexivity|].
  rewrite spin_switched_off by reflexivity.
  cbn [fst snd self robot_config trace].
  repeat split.
  unfold continuous_estimation. unfold_monad. cbn.
  rewrite <- app_assoc. new_events. reflexivity.
Qed.

(** ** The joints that are broadcast *)

(** X14.  The children of "universe" are read from the model once: when
    the node holds them, no cycle, no callback and no turn of the loop
    asks the server for the names of the joints or for a parent again,
    and the list the node holds is kept -- whatever the server does. *)
Theorem joint_tree_is_read_once (srv : Server) (js : JointState)
    (ts : TransformStamped) (w : World) (jns : list string) :
  universe_child_joint_names (self w) = Some jns ->
  forall op : M unit,
    In op [estimation srv; spin_once srv; get_joint_state srv js;
           get_visual_tag srv ts; get_base_pose_estimation srv ts] ->
    universe_child_joint_names (self (snd (op w))) = Some jns /\
    existsb reads_joint_tree (since w (snd (op w))) = false.
Proof.
  intros Cached op Op.
  assert (keeps (fun s => universe_child_joint_names s = Some jns)
                (fun e => negb (reads_joint_tree e)) op) as K.
  { destruct Op as [E | [E | [E | [E | [E | []]]]]]; subst op;
      keeps_node
        ltac:(first [reflexivity | intros; assumption])
        ltac:(idtac;
              match goal with
              | H : universe_child_joint_names ?s = _
                |- context [universe_child_joint_names ?s] => rewrite H
              end). }
  destruct (K w Cached) as [Kept [l [E F]]].
  split; [exact Kept|].
  rewrite (since_appended _ _ _ E).
  eapply existsb_none; [| exact F].
  intros e H. cbv beta in H. destruct (reads_joint_tree e); [discriminate H | reflexivity].
Qed.

(** ** What is broadcast *)

Lemma appended_nil (w : World) : appended w [] = w.
Proof. unfold appended. rewrite app_nil_r. destruct w; reflexivity. Qed.

Lemma appended_appended (w : World) (a b : list event) :
  appended (appended w a) b = appended w (a ++ b).
Proof. unfold appended. cbn. rewrite app_assoc. reflexivity. Qed.

Lemma for_each_appends {A} (s0 : Estimation) (ev : A -> list event)
    (xs : list A) (body : A -> M unit) :
  (forall x W, self W = s0 -> body x W = (Ret tt, appended W (ev x))) ->
  forall W, self W = s0 ->
    for_each xs body W = (Ret tt, appended W (flat_map ev xs)).
Proof.
  intro Step. induction xs as [| x xs IH]; intros W Self.
  - cbn. unfold ret. rewrite appended_nil. reflexivity.
  - cbn [for_each flat_map]. unfold bind. rewrite (Step x W Self).
    rewrite IH by exact Self. rewrite appended_appended. reflexivity.
Qed.

Lemma filter_m_appends {A} (f : A -> bool) (ev : A -> list event)
    (xs : list A) (p : A -> M bool) :
  (forall x W, p x W = (Ret (f x), appended W (ev x))) ->
  forall W, filter_m p xs W = (Ret (filter f xs), appended W (flat_map ev xs)).
Proof.
  intro Step. induction xs as [| x xs IH]; intro W.
  - cbn. unfold ret. rewrite appended_nil. reflexivity.
  - cbn [filter_m flat_map filter]. unfold bind. rewrite (Step x W).
    rewrite IH. unfold ret. rewrite appended_appended.
    destruct (f x); reflexivity.
Qed.

Lemma broadcasts_app (a b : list event) :
  broadcasts (a ++ b) = (broadcasts a ++ broadcasts b)%list.
Proof. apply filter_app. Qed.

Lemma broadcasts_flat_map {A} (f : A -> list event) (xs : list A) :
  broadcasts (flat_map f xs) = flat_map (fun x => broadcasts (f x)) xs.
Proof.
  induction xs as [| x xs IH]; [reflexivity|].
  cbn [flat_map]. rewrite broadcasts_app, IH. reflexivity.
Qed.

Lemma flat_map_map_singleton {A B} (g : A -> B) (xs : list A) :
  flat_map (fun x => [g x]) xs = map g xs.
Proof. induction xs as [| x xs IH]; cbn; [reflexivity | now rewrite IH]. Qed.

Lemma broadcasts_none {A} (f : A -> event) (xs : list A) :
  (forall x, broadcasts [f x] = []) -> broadcasts (map f xs) = [].
Proof.
  intro H. induction xs as [| x xs IH]; [reflexivity|].
  cbn [map]. change (f x :: map f xs) with ([f x] ++ map f xs)%list.
  rewrite broadcasts_app, H, IH. reflexivity.
Qed.

Lemma links_loop (srv : Server) (s0 : Estimation)
    (naming : string -> string) (jns : list string) (W : World) :
  answers srv ->
  self W = s0 ->
  exists l,
    for_each jns
      (fun jn =>
         links <- getLinkNames srv jn ;;
         for_each links
           (fun l =>
              T <- getLinkPosition srv l ;;
              s <- get_self ;;
              emit (SendTransform (firstn 3 T) (firstn 4 (skipn 3 T))
                                  (last_stamp s) (naming l) tf_root))) W
    = (Ret tt, appended W l) /\
    broadcasts l = links_broadcast srv (last_stamp s0) naming jns.
Proof.
  intros Answers Self.
  set (inner := fun l : string =>
         [Called (GetLinkPosition l);
          transform_of srv (last_stamp s0) (naming l) l]).
  set (outer := fun jn : string =>
         (Called (GetLinkNames jn)
          :: flat_map inner (getLinkNames_reply srv jn))).
  exists (flat_map outer jns). split.
  - apply (for_each_appends s0); [| exact Self].
    intros jn W0 Self0. unfold getLinkNames. unfold bind at 1 2.
    unfold invoke at 1. rewrite Answers. unfold ret at 1. cbn [robot_after moves_robot].
    rewrite (for_each_appends s0 inner).
    + unfold appended. cbn. rewrite <- app_assoc. reflexivity.
    + intros l W1 Self1. unfold getLinkPosition, bind, invoke, ret, get_self,
        emit. rewrite Answers.
      cbn [self robot_config trace robot_after moves_robot fst snd].
      unfold appended, inner, transform_of. rewrite <- Self1.
      rewrite <- app_assoc. reflexivity.
    + exact Self0.
  - rewrite broadcasts_flat_map. unfold links_broadcast.
    apply flat_map_ext. intro jn. unfold outer.
    change (Called (GetLinkNames jn) :: ?l)
      with ([Called (GetLinkNames jn)] ++ l)%list.
    cbn [broadcasts filter app]. fold (broadcasts (flat_map inner (getLinkNames_reply srv jn))).
    rewrite broadcasts_flat_map. unfold inner. cbn [broadcasts filter transform_of].
    rewrite flat_map_map_singleton. reflexivity.
Qed.

Lemma bind_run {A B} (m : M A) (k : A -> M B) (w w1 : World) (a : A) :
  m w = (Ret a, w1) -> bind m k w = k a w1.
Proof. intro H. unfold bind. rewrite H. reflexivity. Qed.

Lemma publish_state_runs (srv : Server) (w : World) :
  answers srv ->
  exists s' l,
    publish_state srv w
    = (Ret tt, {| self := s'; robot_config := robot_config w;
                  trace := (trace w ++ l)%list |}) /\
    universe_child_joint_names s'
    = Some (universe_children srv (self w)) /\
    (forall jns, universe_child_joint_names (self w) = Some jns ->
                 s' = self w) /\
    frames_view s' = frames_view (self w) /\
    broadcasts l
    = (links_broadcast srv (last_stamp (self w))
         (short_name (getRobotName_reply srv)) (universe_children srv (self w))
       ++ links_broadcast srv (last_stamp (self w)) (fun l => l)
            (filter (fun x => startswith x (getRobotName_reply srv))
                    (getAllJointNames_reply srv)))%list.
Proof.
  intro Answers.
  unfold publish_state, universe_children.
  unfold getRobotName. rewrite reply_served by apply Answers.
  rewrite bind_get_self. cbn [served self].
  destruct (universe_child_joint_names (self w)) as [jns |] eqn:Cache.
  - erewrite bind_run by reflexivity. rewrite bind_get_self. cbn [served self].
    rewrite Cache.
    destruct (links_loop srv (self w) (short_name (getRobotName_reply srv)) jns
                (served srv GetRobotName w) Answers eq_refl) as [l1 [E1 B1]].
    unfold short_name in E1.
    erewrite bind_run by exact E1.
    unfold getAllJointNames. rewrite reply_served by apply Answers.
    match goal with
    | |- context [for_each ?js _ ?W] =>
        destruct (links_loop srv (self w) (fun l => l) js W Answers eq_refl)
          as [l2 [E2 B2]]
    end.
    rewrite E2.
    exists (self w), ([Called GetRobotName] ++ l1 ++ [Called GetAllJointNames] ++ l2)%list.
    split; [| split; [exact Cache | split; [reflexivity | split; [reflexivity|]]]].
    + unfold appended, served. cbn. repeat rewrite <- app_assoc. reflexivity.
    + rewrite !broadcasts_app, B1, B2. reflexivity.
  - set (children :=
           filter (fun jn => "universe" =? getParentJointName_reply srv jn)
                  (getJointNames_reply srv)).
    set (s1 := set_universe_child_joint_names (Some children) (self w)).
    set (asked := flat_map (fun jn => [Called (GetParentJointName jn)])
                           (getJointNames_reply srv)).
    match goal with
    | |- context [bind ?block _ (served srv GetRobotName w)] =>
        assert (block (served srv GetRobotName w)
                = (Ret tt,
                   {| self := s1; robot_config := robot_config w;
                      trace := (trace w ++
                                [Called GetRobotName; Called GetJointNames]
                                ++ asked
                                ++ [Log Info None (Will_publish_joints children)])%list |}))
          as Block
    end.
    { unfold getJointNames. rewrite reply_served by apply Answers.
      erewrite bind_run.
      2:{ apply (filter_m_appends
                   (fun jn => "universe" =? getParentJointName_reply srv jn)
                   (fun jn => [Called (GetParentJointName jn)])).
          intros jn W. unfold getParentJointName, bind, invoke, ret.
          rewrite Answers. reflexivity. }
      unfold bind, modify_self, log, emit, appended, served. cbn.
      fold children asked s1. repeat rewrite <- app_assoc. reflexivity. }
    erewrite bind_run by exact Block. clear Block.
    rewrite bind_get_self. cbn [self universe_child_joint_names s1
                                set_universe_child_joint_names].
    match goal with
    | |- context [bind (for_each children _) _ ?W] =>
        destruct (links_loop srv s1 (short_name (getRobotName_reply srv))
                    children W Answers eq_refl) as [l1 [E1 B1]]
    end.
    unfold short_name in E1.
    erewrite bind_run by exact E1.
    unfold getAllJointNames. rewrite reply_served by apply Answers.
    match goal with
    | |- context [for_each ?js _ ?W] =>
        destruct (links_loop srv s1 (fun l => l) js W Answers eq_refl)
          as [l2 [E2 B2]]
    end.
    rewrite E2.
    exists s1,
      ([Called GetRobotName; Called GetJointNames] ++ asked
       ++ [Log Info None (Will_publish_joints children)]
       ++ l1 ++ [Called GetAllJointNames] ++ l2)%list.
    split; [| split; [reflexivity | split; [discriminate | split; [reflexivity|]]]].
    + unfold appended, served. cbn [self robot_config trace].
      do 2 f_equal.
      repeat first [rewrite <- app_assoc | rewrite <- app_comm_cons].
      reflexivity.
    + rewrite !broadcasts_app, B1, B2.
      assert (broadcasts asked = []) as Quiet.
      { unfold asked. rewrite broadcasts_flat_map.
        apply flat_map_none with (ok := fun _ => true);
          [reflexivity | apply forallb_forall; reflexivity]. }
      rewrite Quiet. reflexivity.
Qed.

(** X15.  On a server that answers, [publish_state] returns and holds the
    children of "universe" from then on: the joints it held before, or
    else the joints of the model whose parent is "universe", in the order
    of the model.  It broadcasts, at the stamp of the sealed frame and in
    this order: every link of every such child, under its name without
    the robot prefix; then every link of every joint whose name starts
    with the robot name, under its full name.  The frames of the node are
    left as they are. *)
Theorem publish_state_broadcasts (srv : Server) (w : World) :
  answers srv ->
  let w' := snd (publish_state srv w) in
  let children := universe_children srv (self w) in
  let robot := getRobotName_reply srv in
  fst (publish_state srv w) = Ret tt /\
  universe_child_joint_names (self w') = Some children /\
  frames_view (self w') = frames_view (self w) /\
  broadcasts (since w w')
  = (links_broadcast srv (last_stamp (self w)) (short_name robot) children ++
     links_broadcast srv (last_stamp (self w)) (fun l => l)
       (filter (fun x => startswith x robot) (getAllJointNames_reply srv)))%list.
Proof.
  intros Answers w' children robot. subst w' children robot.
  destruct (publish_state_runs srv w Answers)
    as [s' [l [Run [Held [_ [Frames Sent]]]]]].
  rewrite Run. cbn [fst snd self].
  split; [reflexivity|]. split; [exact Held|]. split; [exact Frames|].
  rewrite (since_appended w _ l) by reflexivity. exact Sent.
Qed.

Lemma prefix_app (p s : string) : String.prefix p (p ++ s) = true.
Proof.
  induction p as [| a p IH]; cbn; [destruct s; reflexivity|].
  destruct (ascii_dec a a) as [_ | N]; [exact IH | contradiction].
Qed.

Lemma prefix_refl (p : string) : String.prefix p p = true.
Proof.
  induction p as [| a p IH]; cbn; [reflexivity|].
  destruct (ascii_dec a a) as [_ | N]; [exact IH | contradiction].
Qed.

Lemma str_from_app (p : string) (c : ascii) (s : string) :
  str_from (String.length p + 1) (p ++ String c s) = s.
Proof. induction p as [| a p IH]; cbn; [reflexivity | exact IH]. Qed.

Lemma str_from_all (p : string) : str_from (String.length p + 1) p = "".
Proof. induction p as [| a p IH]; cbn; [reflexivity | exact IH]. Qed.

(** X16.  The name a link is broadcast under, for a link that starts with
    the robot name: the robot name and the one character that follows it
    are dropped, whatever that character is -- the separator is not
    checked; a link named as the robot gets the empty name; with an empty
    robot name every link loses its first character. *)
Theorem robot_prefix_is_stripped (robot rest : string) (c : ascii) :
  short_name robot (robot ++ String c rest) = rest /\
  short_name robot robot = "" /\
  short_name "" (String c rest) = rest.
Proof.
  split; [| split].
  - unfold short_name, startswith. rewrite prefix_app. apply str_from_app.
  - unfold short_name, startswith.
    rewrite prefix_refl. apply str_from_all.
  - reflexivity.
Qed.

(** ** A failed optimisation, to the end of the cycle *)

(** The set-up of the constraints leaves what [publish_state] reads of the
    node: the stamp of the sealed frame and the children of "universe". *)
Lemma setup_keeps_what_is_broadcast (srv : Server) (q : Config) (w : World) :
  last_stamp (self (snd (_initialize_constraints srv q w)))
  = last_stamp (self w) /\
  universe_child_joint_names (self (snd (_initialize_constraints srv q w)))
  = universe_child_joint_names (self w).
Proof.
  assert (keeps (fun s => last_stamp s = last_stamp (self w) /\
                          universe_child_joint_names s
                          = universe_child_joint_names (self w))
                any_event (_initialize_constraints srv q)) as K.
  { unfold _initialize_constraints. unfold_calls.
    repeat keeps_step ltac:(first [reflexivity | intros; assumption]) idtac. }
  exact (proj1 (K w (conj eq_refl eq_refl))).
Qed.

Lemma setup_broadcasts_nothing (l : list event) :
  forallb setup_event l = true -> broadcasts l = [].
Proof.
  intro F. unfold broadcasts. induction l as [| e l IH]; [reflexivity|].
  cbn in F. apply andb_true_iff in F. destruct F as [Fe Fl].
  cbn. rewrite (IH Fl). destruct e; try reflexivity. discriminate Fe.
Qed.

Lemma broadcasts_skip (e : event) (l : list event) :
  broadcasts [e] = [] -> broadcasts (e :: l) = broadcasts l.
Proof.
  intro H. change (e :: l) with ([e] ++ l)%list.
  rewrite broadcasts_app, H. reflexivity.
Qed.

(** What comes before the publication on [semantic] in a list of events. *)
Ltac before_publication L :=
  lazymatch L with
  | Publish_semantic _ :: _ => constr:(@nil event)
  | ?x :: ?r => let p := before_publication r in constr:(x :: p)
  | (?a ++ ?r)%list => let p := before_publication r in constr:((a ++ p)%list)
  end.

(** Meets the set-up in a run, as [meet_setup] does, and records what it
    leaves of the node. *)
Ltac meet_setup_and_node :=
  match goal with
  | |- context [_initialize_constraints ?s ?q ?W] =>
      let St := fresh "Stamp" in
      let Ca := fresh "Cache" in
      destruct (setup_keeps_what_is_broadcast s q W) as [St Ca];
      meet_setup; cbn in St, Ca
  end.

(** Meets [publish_state] on a server that answers: it runs to the end. *)
Ltac meet_publication Answers :=
  match goal with
  | |- context [publish_state ?s ?W] =>
      let s' := fresh "s'" in
      let l := fresh "sent" in
      let Run := fresh "Run" in
      let Held := fresh "Held" in
      let Sent := fresh "Sent" in
      let l' := fresh "l" in
      let El := fresh "El" in
      let Fl := fresh "Quiet" in
      let Mx := fresh "Locked" in
      destruct (publish_state_footprint s W) as [_ [Mx [l' [El Fl]]]];
      destruct (publish_state_runs s W Answers)
        as [s' [l [Run [Held [_ [_ Sent]]]]]];
      rewrite Run in El, Mx |- *; cbn [snd trace self] in El, Mx;
      apply app_inv_head in El; subst l';
      match goal with
      | H : mutex (self _) = true |- _ => rewrite H in Mx
      end
  end.

(** C5.  In a cycle where the server answers every call, the projection
    succeeds and the optimiser reports failure, the node records the
    failure once, at a level set by the norm of the residual error against
    [1e-2] -- warning when the norm is above, information when it is at or
    below -- and in both cases the cycle goes on to the end: the
    configuration the optimiser returned is published on [semantic],
    once, and [publish_state] is then run to its end -- every link of the
    children of "universe" and of the joints of the robot is broadcast,
    at the stamp of the sealed frame, and the node holds the children of
    "universe" -- and the cycle returns. *)
Theorem failed_optimisation_is_published (srv : Server) (w : World)
    (q_projected : Config) (residual : Q) (q_estimated : Config)
    (error : list Q) :
  mutex (self w) = false ->
  answers srv ->
  applyConstraints_reply srv (robot_config w) = (true, q_projected, residual) ->
  optimize_reply srv q_projected = (false, q_estimated, error) ->
  let w' := snd (estimation srv w) in
  let errNorm := numpy_norm srv error in
  let robot := getRobotName_reply srv in
  ((1 # 100 < errNorm)%Q ->
   optimisation_signals (since w w') = [(Warn, errNorm)]) /\
  ((errNorm <= 1 # 100)%Q ->
   optimisation_signals (since w w') = [(Info, errNorm)]) /\
  estimates_published (since w w') = [q_estimated] /\
  fst (estimation srv w) = Ret tt /\
  broadcasts (since w w')
  = (links_broadcast srv (last_stamp (self w)) (short_name robot)
       (universe_children srv (self w)) ++
     links_broadcast srv (last_stamp (self w)) (fun l => l)
       (filter (fun x => startswith x robot) (getAllJointNames_reply srv)))%list /\
  universe_child_joint_names (self w')
  = Some (universe_children srv (self w)) /\
  (exists before sent,
     since w w' = (before ++ Publish_semantic q_estimated :: sent)%list /\
     broadcasts before = [] /\
     broadcasts sent = broadcasts (since w w')).
Proof.
  intros Free Answers Projected Failed w' errNorm robot.
  subst w' errNorm robot.
  unfold estimation. rewrite (acquire_free _ w Free).
  destruct (Qlt_bool (1 # 100) (numpy_norm srv error)) eqn:Cmp;
    [ pose proof (proj1 (Qlt_bool_iff _ _) Cmp) as Above;
      split; [intros _ | split; [intro Le; exfalso; lra |]]
    | pose proof (proj1 (Qlt_bool_false_iff _ _) Cmp) as Below;
      split; [intro Lt; exfalso; lra | split; [intros _ |]] ].
  all: unfold_monad;
    repeat (cbn; first [meet_setup_and_node | meet_publication Answers
                       | run_step]).
  all: try (specialize (Returns Answers); discriminate).
  all: cbn [self] in Held, Sent; unfold universe_children in *;
    rewrite Cache in Held, Sent; rewrite Stamp in Sent.
  all: cbn [fst snd self trace]; unfold since; cbn [trace]; rewrite Trace;
    repeat rewrite <- app_assoc;
    rewrite skipn_app, skipn_all, Nat.sub_diag; cbn [skipn app].
  all: destruct (setup_is_silent _ Footprint) as [S1 S2];
    destruct (broadcast_is_silent _ Quiet) as [B1 B2];
    pose proof (setup_broadcasts_nothing _ Footprint) as S3.
  all: repeat match goal with |- _ /\ _ => split end.
  all: try exact Held.
  all: try reflexivity.
  all: try (unfold optimisation_signals, estimates_published in *;
            repeat (cbn; rewrite ?flat_map_app, ?S1, ?S2, ?B1, ?B2);
            reflexivity).
  all: try (repeat first [ rewrite broadcasts_app
                         | rewrite broadcasts_skip by reflexivity ];
            rewrite S3, Sent; reflexivity).
  all: match goal with
       | |- exists before sent', ?L = _ /\ _ =>
           let p := before_publication L in exists p, sent
       end.
  all: split;
    [ cbn [app]; rewrite <- app_assoc; cbn [app]; reflexivity
    | split;
      repeat first [ rewrite broadcasts_app
                   | rewrite broadcasts_skip by reflexivity ];
      rewrite ?S3; reflexivity ].
Qed.

(** ** Detections *)

(** X17.  A detection that the server refuses leaves no trace in the node:
    when [get_visual_tag] or [get_base_pose_estimation], entered with the
    mutex free, raises, the exception is the one the server raised at the
    last call made, it is not caught, and the node is exactly as it was
    -- frames untouched, mutex free. *)
Theorem failed_detection_changes_nothing (srv : Server)
    (ts : TransformStamped) (w : World) (e : exn) :
  mutex (self w) = false ->
  forall op : M unit,
    In op [get_visual_tag srv ts; get_base_pose_estimation srv ts] ->
    fst (op w) = Exc e ->
    self (snd (op w)) = self w /\
    exists c, last_call (since w (snd (op w))) = Some c /\
              fault srv c = Some e.
Proof.
  intros Free op [Op | [Op | []]]; subst op.
  - unfold get_visual_tag. rewrite bind_get_self.
    destruct (stamp (header ts) <? current_stamp (self w))%Z;
      [discriminate|].
    unfold try_finally. unfold bind at 1. unfold acquire. rewrite Free.
    unfold _get_transformation_constraint.
    run.
    all: intro Raised; first [discriminate Raised | inversion Raised; subst].
    all: (split; [destruct (self w); cbn in *; subst; reflexivity|]).
    all: eexists; split; [new_events; reflexivity | eassumption].
  - unfold get_base_pose_estimation. rewrite bind_get_self.
    destruct (stamp (header ts) <? current_stamp (self w))%Z;
      [discriminate|].
    rewrite (acquire_free _ w Free).
    unfold _get_transformation_constraint.
    run.
    all: intro Raised; first [discriminate Raised | inversion Raised; subst].
    all: (split; [destruct (self w); cbn in *; subst; reflexivity|]).
    all: eexists; split; [new_events; reflexivity | eassumption].
Qed.

Lemma unit_rotation_weight (rot : Quaternion) :
  (HppQuaternion.normSquared rot == 1)%Q ->
  (- (63 # 250) <= orientation_weight rot)%Q /\
  (orientation_weight rot <= 63 # 250)%Q.
Proof.
  unfold HppQuaternion.normSquared, orientation_weight,
    HppQuaternion.transform. cbn [v_x v_y v_z].
  destruct rot as [x y z s]. cbn [q_x q_y q_z q_w]. intro Unit.
  assert (0 <= x * x)%Q by nra. assert (0 <= y * y)%Q by nra.
  assert (0 <= z * z)%Q by nra. assert (0 <= s * s)%Q by nra.
  split; nra.
Qed.

(** X18.  A detection whose rotation is a unit quaternion has an
    orientation weight between -0.252 and 0.252, so never 1: on a server
    that answers, a tag that is not stale always gets the position
    constraint "P_", the orientation constraint "O_" and its scaling
    "sO_", with that weight; the single constraint "T_" is never created
    for it, and the two names "P_" and "sO_" are what joins the frame. *)
Theorem unit_rotation_gives_two_constraints (srv : Server)
    (ts : TransformStamped) (w : World) :
  mutex (self w) = false ->
  answers srv ->
  current_stamp (self w) <= stamp (header ts) ->
  (HppQuaternion.normSquared (rotation (transform ts)) == 1)%Q ->
  let s := orientation_weight (rotation (transform ts)) in
  let name := qualified (self w) (frame_id (header ts)) ++ "_"
              ++ qualified (self w) (child_frame_id ts) in
  let w' := snd (get_visual_tag srv ts w) in
  (- (63 # 250) <= s)%Q /\ (s <= 63 # 250)%Q /\
  constraints_created (since w w')
  = ["P_" ++ name; "O_" ++ name; "sO_" ++ name] /\
  weights_passed (since w w') = [s] /\
  tag_names (self w) ts = ["P_" ++ name; "sO_" ++ name].
Proof.
  intros Free Answers Fresh Unit s name w'. subst name w'.
  destruct (unit_rotation_weight _ Unit) as [Lo Hi]. fold s in Lo, Hi.
  assert (Qeq_bool s 1 = false) as Other.
  { apply Qeq_bool_false. intro E. lra. }
  split; [exact Lo|]. split; [exact Hi|].
  unfold tag_names. fold s. rewrite Other.
  apply Z.ltb_ge in Fresh.
  unfold get_visual_tag. rewrite bind_get_self, Fresh. fold s.
  clearbody s.
  unfold try_finally. unfold bind at 1. unfold acquire. rewrite Free.
  unfold _get_transformation_constraint, qualified.
  run; new_events; repeat split; reflexivity.
Qed.

(** ** Errors on the way *)

(** X19.  In graph mode, an error of [getNode] that is not a CORBA
    [UserException] is not a lost state: [_initialize_constraints] raises
    it, neither the cached state nor the default is used, no state is
    published, no constraint of a state is set and the node is left as it
    is.  In a cycle, with the mutex free, such an error of class
    [Exception] ends the cycle: it is logged, nothing is projected,
    optimised or published. *)
Theorem graph_error_is_not_a_lost_state (srv : Server) (w : World) (e : exn) :
  has_manip (self w) = true ->
  fault srv Hpp_client = None ->
  fault srv ResetConstraints = None ->
  fault srv Manip_client = None ->
  fault srv GetCurrentConfig = None ->
  fault srv (GetNode (robot_config w)) = Some e ->
  is_UserException e = false ->
  let w1 := snd (_initialize_constraints srv (robot_config w) w) in
  let w2 := snd (estimation srv w) in
  (fst (_initialize_constraints srv (robot_config w) w) = Exc e /\
   self w1 = self w /\
   published_states (since w w1) = [] /\
   states_used (since w w1) = [] /\
   asks_default_state (since w w1) = false) /\
  (mutex (self w) = false -> is_Exception e = true ->
   fst (estimation srv w) = Ret tt /\
   last_state_id (self w2) = last_state_id (self w) /\
   projects (since w w2) = false /\
   optimizes (since w w2) = false /\
   publishes (since w w2) = false /\
   published_states (since w w2) = [] /\
   In (Log Err (Some 1%nat) (Exception_str e)) (since w w2)).
Proof.
  intros Graph H1 H2 H3 H4 Lost Other w1 w2. subst w1 w2. split.
  - unfold _initialize_constraints.
    run; new_events; repeat split; reflexivity.
  - intros Free Class. unfold estimation. rewrite (acquire_free _ w Free).
    unfold _initialize_constraints.
    run; new_events; repeat split; try reflexivity.
    repeat first [left; reflexivity | right].
Qed.

Lemma cautious_bind (I : Estimation -> Prop) (ok : event -> bool) {A B}
    (m : M A) (k : A -> M B) :
  keeps I ok m -> (forall a, cautious I ok (k a)) -> cautious I ok (bind m k).
Proof.
  intros Hm Hk w H. unfold bind. destruct (Hm w H) as [H1 T1].
  destruct (m w) as [[a | e |] w1]; cbn in *.
  - destruct (Hk a w1 H1) as [H2 T2]. split; [exact H2|].
    eapply kept_trans; eassumption.
  - split; [intros _; exact H1 | exact T1].
  - split; [intros _; exact H1 | exact T1].
Qed.

(** X20.  A joint state that is not processed to the end populates
    nothing: when [get_joint_state], entered with the mutex free, raises,
    or catches an error of the server and logs it, the list of locked
    joints of the node is as it was -- also when it was empty and some
    joints of the message had been locked on the server before the
    error. *)
Theorem failed_joint_state_populates_nothing (srv : Server)
    (js : JointState) (w : World) :
  mutex (self w) = false ->
  let w' := snd (get_joint_state srv js w) in
  fst (get_joint_state srv js w) <> Ret tt \/
  existsb joint_state_error (since w w') = true ->
  locked_joints (self w') = locked_joints (self w).
Proof.
  intros Free w'. subst w'.
  unfold get_joint_state. rewrite (acquire_free _ w Free).
  set (I := fun s : Estimation => locked_joints s = locked_joints (self w)).
  set (ok := fun e => negb (joint_state_error e)).
  assert (forall s b, I s -> I (set_mutex b s)) as I_mutex
    by (intros s b H; exact H).
  match goal with
  | |- context [try_except ?body _ _] =>
      assert (cautious I ok body) as C; [| set (critical := body) in * ]
  end.
  { unfold hpp, getRobotName.
    apply cautious_bind;
      [repeat keeps_step ltac:(first [reflexivity | intros; assumption]) idtac
      | intros _].
    apply cautious_bind;
      [repeat keeps_step ltac:(first [reflexivity | intros; assumption]) idtac
      | intros robot]. cbv zeta.
    apply cautious_bind;
      [unfold_calls;
       repeat keeps_step ltac:(first [reflexivity | intros; assumption]) idtac
      | intros _].
    intros W H. unfold bind, get_self.
    destruct (List.length (locked_joints (self W)) =? 0)%nat; cbn.
    - split; [intro N; exfalso; apply (N tt); reflexivity|].
      exists []. split; [now rewrite app_nil_r | reflexivity].
    - split; [intro N; exfalso; apply (N tt); reflexivity|].
      exists []. split; [now rewrite app_nil_r | reflexivity]. }
  assert (emits any_event critical) as Footprint
    by (unfold critical; emits_node).
  match goal with
  | |- context [try_finally _ _ ?W0] =>
      destruct (C W0 eq_refl) as [Kept [l [E F]]];
      destruct (Footprint W0) as [_ [Held _]]
  end.
  unfold try_finally, try_except.
  destruct (critical _) as [[[] | e |] w1]; cbn [fst snd] in *;
    cbn in Held.
  - (* the message was processed to the end *)
    unfold release. rewrite Held. cbn [fst snd self trace].
    intros [N | Logged]; [exfalso; apply N; reflexivity|].
    exfalso. rewrite (since_appended w _ l) in Logged by exact E.
    assert (existsb joint_state_error l = false) as Quiet
      by (eapply existsb_none; [| exact F];
          intros x Hx; unfold ok in Hx;
          destruct (joint_state_error x); [discriminate Hx | reflexivity]).
    congruence.
  - intros _. assert (I (self w1)) as K by (apply Kept; discriminate).
    destruct (is_UserException e); unfold log, emit, release; cbn;
      rewrite Held; cbn; exact K.
  - intros _. apply Kept. discriminate.
Qed.

(** * [ros_tools] *)

Lemma tree_induction (P : RosTools.tree -> Prop) :
  (forall l, P (RosTools.Leaf l)) ->
  (forall d, Forall (fun kv => P (snd kv)) d -> P (RosTools.Dict d)) ->
  forall t, P t.
Proof.
  intros Hl Hd. fix IH 1. intros [l | d].
  - apply Hl.
  - apply Hd. induction d as [| [k v] r IHd]; constructor;
      [apply IH | exact IHd].
Qed.

Section Walk.

Import RosTools.

Variable ros : Ros.

Lemma for_items_ext {A} (f g : string -> A -> R handles)
    (items : list (string * A)) :
  Forall (fun kv => forall tr, f (fst kv) (snd kv) tr = g (fst kv) (snd kv) tr)
         items ->
  forall rets tr, for_items f items rets tr = for_items g items rets tr.
Proof.
  induction 1 as [| [k v] rest E _ IH]; intros rets tr; cbn [for_items].
  - reflexivity.
  - cbn [fst snd] in E. unfold bind. rewrite E.
    destruct (g k v tr) as [[r | e |] tr']; [apply IH | reflexivity ..].
Qed.

(** The two traversals of the source are one traversal, with their own
    leaves. *)
Lemma createTopics_walk (object : Object) (subscribe : bool) (t : tree) :
  forall namespace tr,
    _createTopics ros object namespace t subscribe tr
    = walk (fun ns l => _createTopics ros object ns (Leaf l) subscribe)
           namespace t tr.
Proof.
  induction t as [l | d IH] using tree_induction; intros ns tr.
  - reflexivity.
  - cbn [_createTopics walk]. apply for_items_ext.
    eapply Forall_impl; [| exact IH]. intros [k v] H tr'. apply H.
Qed.

Lemma createServices_walk (object : Object) (serve : bool) (t : tree) :
  forall namespace tr,
    _createServices ros object namespace t serve tr
    = walk (fun ns l => _createServices ros object ns (Leaf l) serve)
           namespace t tr.
Proof.
  induction t as [l | d IH] using tree_induction; intros ns tr.
  - reflexivity.
  - cbn [_createServices walk]. apply for_items_ext.
    eapply Forall_impl; [| exact IH]. intros [k v] H tr'. apply H.
Qed.

Variable leaf : string -> list value -> R handles.
Variable of_leaf : string -> list value -> handle.
Variable acts : string -> list value -> list action.

Lemma done_app (a b : list (string * list value)) :
  done acts (a ++ b) = (done acts a ++ done acts b)%list.
Proof. apply flat_map_app. Qed.

Lemma for_items_returns (ns : string) (d : list (string * tree)) :
  Forall (fun kv =>
            forall namespace,
              Forall (goes_well leaf of_leaf acts)
                     (leaves namespace (snd kv)) ->
              forall tr,
                walk leaf namespace (snd kv) tr
                = (Returns (collect of_leaf namespace (snd kv)),
                   (tr ++ done acts (leaves namespace (snd kv)))%list)) d ->
  Forall (goes_well leaf of_leaf acts) (leaves ns (Dict d)) ->
  forall rets tr,
    for_items (fun k v => walk leaf (ns ++ "/" ++ k) v) d rets tr
    = (Returns
         (Handles
            (fold_left
               (fun rets kv =>
                  dict_set (fst kv)
                    (collect of_leaf (ns ++ "/" ++ fst kv) (snd kv)) rets)
               d rets)),
       (tr ++ done acts (leaves ns (Dict d)))%list).
Proof.
  induction 1 as [| [k v] rest Hv _ IH]; intros Well rets tr.
  - cbn. unfold ret. rewrite app_nil_r. reflexivity.
  - cbn [leaves flat_map fst snd] in Well, Hv |- *.
    apply Forall_app in Well. destruct Well as [Wv Wrest].
    cbn [for_items fold_left fst snd]. unfold bind.
    rewrite (Hv _ Wv). rewrite (IH Wrest).
    rewrite done_app, app_assoc. reflexivity.
Qed.

Lemma walk_returns (t : tree) :
  forall ns,
    Forall (goes_well leaf of_leaf acts) (leaves ns t) ->
    forall tr,
      walk leaf ns t tr
      = (Returns (collect of_leaf ns t),
         (tr ++ done acts (leaves ns t))%list).
Proof.
  induction t as [l | d IH] using tree_induction; intros ns Well tr.
  - cbn in *. inversion Well as [| ? ? H _]; subst.
    specialize (H tr). cbn [fst snd] in H. rewrite H.
    unfold done. cbn. rewrite app_nil_r. reflexivity.
  - cbn [walk collect]. apply for_items_returns; assumption.
Qed.

Lemma for_items_stops (ns : string) (d : list (string * tree))
    (x : string * list value) (out : result handles) (a : list action) :
  (forall tr, leaf (fst x) (snd x) tr = (out, (tr ++ a)%list)) ->
  (forall r, out <> Returns r) ->
  Forall (fun kv =>
            forall namespace before after,
              leaves namespace (snd kv) = (before ++ x :: after)%list ->
              Forall (goes_well leaf of_leaf acts) before ->
              forall tr,
                walk leaf namespace (snd kv) tr
                = (out, (tr ++ done acts before ++ a)%list)) d ->
  forall before after rets tr,
    leaves ns (Dict d) = (before ++ x :: after)%list ->
    Forall (goes_well leaf of_leaf acts) before ->
    for_items (fun k v => walk leaf (ns ++ "/" ++ k) v) d rets tr
    = (out, (tr ++ done acts before ++ a)%list).
Proof.
  intros Bad Stops.
  induction 1 as [| [k v] rest Hv _ IH]; intros before after rets tr Split Well.
  - cbn in Split. destruct before; discriminate Split.
  - cbn [leaves flat_map fst snd] in Split, Hv.
    cbn [for_items]. unfold bind.
    apply app_eq_app in Split. destruct Split as [l' [[Ev Er] | [Eb Er]]].
    + destruct l' as [| y l''].
      * rewrite app_nil_r in Ev. cbn [app] in Er.
        rewrite (walk_returns v (ns ++ "/" ++ k)) by (rewrite Ev; exact Well).
        rewrite (IH [] after); [| symmetry; exact Er | constructor].
        rewrite Ev. cbn [done flat_map app]. rewrite <- app_assoc.
        reflexivity.
      * cbn [app] in Er. inversion Er; subst y.
        rewrite (Hv _ _ _ Ev Well).
        destruct out as [r | e |]; [exfalso; eapply Stops; reflexivity | ..];
          reflexivity.
    + subst before. apply Forall_app in Well. destruct Well as [Wv Wl].
      rewrite (walk_returns v (ns ++ "/" ++ k)) by exact Wv.
      rewrite (IH l' after); [| exact Er | exact Wl].
      rewrite done_app. rewrite <- !app_assoc. reflexivity.
Qed.

Lemma walk_stops (x : string * list value) (out : result handles)
    (a : list action) (t : tree) :
  (forall tr, leaf (fst x) (snd x) tr = (out, (tr ++ a)%list)) ->
  (forall r, out <> Returns r) ->
  forall ns before after,
    leaves ns t = (before ++ x :: after)%list ->
    Forall (goes_well leaf of_leaf acts) before ->
    forall tr,
      walk leaf ns t tr = (out, (tr ++ done acts before ++ a)%list).
Proof.
  intros Bad Stops.
  induction t as [l | d IH] using tree_induction;
    intros ns before after Split Well tr.
  - cbn in Split. destruct before as [| b before].
    + inversion Split; subst. cbn. apply Bad.
    + inversion Split as [[E1 E2]]. destruct before; discriminate E2.
  - cbn [walk]. eapply for_items_stops; eassumption.
Qed.

End Walk.

(** ** What is returned has the layout of the dictionaries *)

Lemma str_in_In (x : string) (xs : list string) :
  str_in x xs = false <-> ~ In x xs.
Proof.
  unfold str_in. split.
  - intros H I. assert (existsb (String.eqb x) xs = true) as T.
    { apply existsb_exists. exists x. split; [exact I | apply String.eqb_refl]. }
    congruence.
  - intro N. destruct (existsb (String.eqb x) xs) eqn:E; [| reflexivity].
    apply existsb_exists in E. destruct E as [y [I E]].
    apply String.eqb_eq in E. subst y. contradiction.
Qed.

Lemma distinct_NoDup (ks : list string) :
  RosTools.distinct ks = true -> NoDup ks.
Proof.
  induction ks as [| k ks IH]; cbn; intro H; constructor.
  - apply andb_true_iff in H. destruct H as [H _].
    apply negb_true_iff in H. apply str_in_In. exact H.
  - apply IH. apply andb_true_iff in H. apply H.
Qed.

Lemma dict_set_fresh {A} (k : string) (v : A) (d : list (string * A)) :
  ~ In k (map fst d) -> RosTools.dict_set k v d = (d ++ [(k, v)])%list.
Proof.
  induction d as [| [k' v'] d IH]; cbn; intro N; [reflexivity|].
  destruct (String.eqb k k') eqn:E.
  - apply String.eqb_eq in E. exfalso. apply N. left. symmetry. exact E.
  - rewrite IH; [reflexivity | intro I; apply N; right; exact I].
Qed.

Lemma fold_dict_set {A B} (f : string * A -> B) (d : list (string * A)) :
  forall rets,
    NoDup (map fst rets ++ map fst d) ->
    fold_left (fun rets kv => RosTools.dict_set (fst kv) (f kv) rets) d rets
    = (rets ++ map (fun kv => (fst kv, f kv)) d)%list.
Proof.
  induction d as [| [k v] d IH]; intros rets Fresh; cbn [fold_left map].
  - now rewrite app_nil_r.
  - cbn [fst snd map] in *.
    assert (~ In k (map fst rets)) as New.
    { apply NoDup_remove_2 in Fresh. intro I. apply Fresh.
      apply in_or_app. left. exact I. }
    rewrite (dict_set_fresh _ _ _ New). rewrite IH.
    + rewrite <- app_assoc. reflexivity.
    + rewrite map_app. cbn [map fst]. rewrite <- app_assoc. exact Fresh.
Qed.

Lemma collect_mirror (of_leaf : string -> list RosTools.value -> RosTools.handle)
    (t : RosTools.tree) :
  forall ns,
    RosTools.unique_keys t = true ->
    RosTools.collect of_leaf ns t = RosTools.mirror of_leaf ns t.
Proof.
  induction t as [l | d IH] using tree_induction; intros ns Unique.
  - reflexivity.
  - cbn [RosTools.collect RosTools.mirror RosTools.unique_keys] in *.
    apply andb_true_iff in Unique. destruct Unique as [Keys Below].
    rewrite (fold_dict_set
               (fun kv => RosTools.collect of_leaf (ns ++ "/" ++ fst kv) (snd kv)))
      by (apply distinct_NoDup; exact Keys).
    cbn [app]. f_equal. apply map_ext_in. intros [k v] I. f_equal.
    rewrite Forall_forall in IH. apply (IH _ I).
    rewrite forallb_forall in Below. apply (Below _ I).
Qed.

Lemma topic_name_cons (ns k : string) (path : list string) :
  RosTools.topic_name ns (k :: path)
  = RosTools.topic_name (ns ++ "/" ++ k) path.
Proof. reflexivity. Qed.

Lemma handle_at_mirror
    (of_leaf : string -> list RosTools.value -> RosTools.handle)
    (path : list string) :
  forall t ns l,
    RosTools.leaf_at path t = Some l ->
    RosTools.handle_at path (RosTools.mirror of_leaf ns t)
    = Some (of_leaf (RosTools.topic_name ns path) l).
Proof.
  induction path as [| k path IH]; intros [l0 | d] ns l At; cbn in At;
    try discriminate At.
  - inversion At; subst. reflexivity.
  - cbn [RosTools.mirror RosTools.handle_at]. rewrite topic_name_cons.
    induction d as [| [k' v] d IHd]; cbn in At |- *; [discriminate At|].
    destruct (String.eqb k k') eqn:E.
    + apply String.eqb_eq in E. subst k'. apply IH. exact At.
    + apply IHd. exact At.
Qed.

(** ** The leaves *)

Section Leaves.

Import RosTools.

Variable ros : Ros.

Hypothesis constructs : forall h, create_fault ros h = None.

Lemma publisher_goes_well (nl : string * list value) :
  (2 <=? List.length (snd nl))%nat = true ->
  goes_well (fun ns l => _createTopics ros none_object ns (Leaf l) false)
            publisher (fun ns l => [Create (publisher ns l)]) nl.
Proof.
  destruct nl as [ns [| a [| b l]]]; cbn [snd List.length Nat.leb];
    try discriminate. intros _ tr.
  cbn. unfold bind, getitem, ret, construct. cbn. rewrite constructs.
  reflexivity.
Qed.

Lemma subscriber_goes_well (object : Object) (nl : string * list value) :
  implements object (snd nl) = true ->
  goes_well (fun ns l => _createTopics ros object ns (Leaf l) true)
            subscriber (fun ns l => [Create (subscriber ns l)]) nl.
Proof.
  destruct nl as [ns [| a [| [] l]]]; cbn [snd implements];
    try discriminate. intros Has tr.
  cbn. unfold bind, try_except, getitem, getattr, ret, construct. cbn.
  rewrite Has. cbn. rewrite constructs. reflexivity.
Qed.

Lemma service_goes_well (object : Object) (nl : string * list value) :
  implements object (snd nl) = true ->
  goes_well (fun ns l => _createServices ros object ns (Leaf l) true)
            service (fun ns l => [Create (service ns l)]) nl.
Proof.
  destruct nl as [ns [| a [| [] l]]]; cbn [snd implements];
    try discriminate. intros Has tr.
  cbn. unfold bind, try_except, getitem, getattr, ret, construct. cbn.
  rewrite Has. cbn. rewrite constructs. reflexivity.
Qed.

Lemma proxy_goes_well (nl : string * list value) :
  on_time ros (fst nl) && typed (snd nl) = true ->
  goes_well (fun ns l => _createServices ros none_object ns (Leaf l) false)
            proxy
            (fun ns l => [Wait ns (Some (1 # 5)); Create (proxy ns l)]) nl.
Proof.
  destruct nl as [ns l]. cbn [fst snd]. intro H.
  apply andb_true_iff in H. destruct H as [Timely Typed]. intro tr.
  unfold on_time in Timely.
  destruct (wait_reply ros ns (Some (1 # 5))) eqn:W; try discriminate.
  destruct l as [| a l]; [discriminate|].
  cbn. unfold bind, getitem, ret, wait_for_service, try_except,
    rospy_wait_for_service, bind, construct. cbn. rewrite W.
  destruct a; try discriminate; rewrite constructs;
    rewrite <- app_assoc; reflexivity.
Qed.

Lemma missing_callback_raises (object : Object) (ns : string)
    (data_class : value) (name : string) (rest : list value)
    (tr : list action) :
  str_in name (attributes object) = false ->
  _createTopics ros object ns (Leaf (data_class :: Str name :: rest)) true tr
  = (Raises (not_implemented object name), (tr ++ [])%list) /\
  _createServices ros object ns (Leaf (data_class :: Str name :: rest)) true tr
  = (Raises (not_implemented object name), (tr ++ [])%list).
Proof.
  intro Missing. cbn.
  unfold bind, try_except, getitem, getattr, ret, raise. cbn.
  rewrite Missing. cbn. rewrite app_nil_r. split; reflexivity.
Qed.

Lemma done_create (of_leaf : string -> list value -> handle)
    (ls : list (string * list value)) :
  done (fun ns l => [Create (of_leaf ns l)]) ls
  = map (fun nl => Create (of_leaf (fst nl) (snd nl))) ls.
Proof. induction ls as [| x ls IH]; cbn; [reflexivity | now rewrite <- IH]. Qed.

End Leaves.

Lemma Forall_forallb {A} (p : A -> bool) (P : A -> Prop) (l : list A) :
  (forall a, p a = true -> P a) -> forallb p l = true -> Forall P l.
Proof.
  intros H F. apply Forall_forall. intros a I.
  apply H. rewrite forallb_forall in F. apply F. exact I.
Qed.

(** ** Publishers, subscribers and services *)

(** X21.  [createPublishers], for dictionaries with distinct keys whose
    leaves hold at least a type and a queue size, when rospy constructs
    what it is asked: it returns a hierarchy with the layout of [topics];
    under each leaf, reached by the keys k1 ... kn, is the publisher of
    the topic "namespace/k1/.../kn", with the type and the queue size of
    the leaf; the publishers are constructed in the order of the
    dictionaries, and nothing else is done. *)
Theorem createPublishers_mirrors_topics (ros : RosTools.Ros)
    (namespace : string) (topics : RosTools.tree)
    (tr : list RosTools.action) :
  (forall h, RosTools.create_fault ros h = None) ->
  RosTools.unique_keys topics = true ->
  forallb (fun nl => (2 <=? List.length (snd nl))%nat)
          (RosTools.leaves namespace topics) = true ->
  let rets := RosTools.mirror RosTools.publisher namespace topics in
  RosTools.createPublishers ros namespace topics tr
  = (RosTools.Returns rets,
     (tr ++ map (fun nl => RosTools.Create
                             (RosTools.publisher (fst nl) (snd nl)))
                (RosTools.leaves namespace topics))%list) /\
  forall path l,
    RosTools.leaf_at path topics = Some l ->
    RosTools.handle_at path rets
    = Some (RosTools.Publisher (RosTools.topic_name namespace path)
                               (nth 0 l RosTools.NoneValue)
                               (nth 1 l RosTools.NoneValue)).
Proof.
  intros Constructs Unique Sized rets. subst rets. split.
  - unfold RosTools.createPublishers. rewrite createTopics_walk.
    rewrite (walk_returns _ RosTools.publisher
               (fun ns l => [RosTools.Create (RosTools.publisher ns l)])).
    + rewrite collect_mirror by exact Unique. rewrite done_create.
      reflexivity.
    + eapply Forall_forallb; [| exact Sized].
      intros nl H. apply publisher_goes_well; assumption.
  - intros path l At. apply (handle_at_mirror RosTools.publisher path _ _ _ At).
Qed.

(** X22.  [createSubscribers] and [createServices], for dictionaries with
    distinct keys whose leaves all name, as their second item, an
    attribute of the object, when rospy constructs what it is asked: each
    returns a hierarchy with the layout of its dictionaries; under each
    leaf is the subscriber, or the service, named
    "namespace/k1/.../kn", with the type of the leaf and the callback it
    names; they are constructed in the order of the dictionaries. *)
Theorem callbacks_mirror_the_dictionaries (ros : RosTools.Ros)
    (object : RosTools.Object) (namespace : string) (d : RosTools.tree)
    (tr : list RosTools.action) :
  (forall h, RosTools.create_fault ros h = None) ->
  RosTools.unique_keys d = true ->
  forallb (fun nl => RosTools.implements object (snd nl))
          (RosTools.leaves namespace d) = true ->
  (RosTools.createSubscribers ros object namespace d tr
   = (RosTools.Returns (RosTools.mirror RosTools.subscriber namespace d),
      (tr ++ map (fun nl => RosTools.Create
                              (RosTools.subscriber (fst nl) (snd nl)))
                 (RosTools.leaves namespace d))%list) /\
   RosTools.createServices ros object namespace d tr
   = (RosTools.Returns (RosTools.mirror RosTools.service namespace d),
      (tr ++ map (fun nl => RosTools.Create
                              (RosTools.service (fst nl) (snd nl)))
                 (RosTools.leaves namespace d))%list)) /\
  forall path data_class name rest,
    RosTools.leaf_at path d = Some (data_class :: RosTools.Str name :: rest) ->
    RosTools.handle_at path (RosTools.mirror RosTools.subscriber namespace d)
    = Some (RosTools.Subscriber (RosTools.topic_name namespace path)
                                data_class name) /\
    RosTools.handle_at path (RosTools.mirror RosTools.service namespace d)
    = Some (RosTools.Service (RosTools.topic_name namespace path)
                             data_class name).
Proof.
  intros Constructs Unique Implemented. split; [split|].
  - unfold RosTools.createSubscribers. rewrite createTopics_walk.
    rewrite (walk_returns _ RosTools.subscriber
               (fun ns l => [RosTools.Create (RosTools.subscriber ns l)])).
    + rewrite collect_mirror by exact Unique. rewrite done_create.
      reflexivity.
    + eapply Forall_forallb; [| exact Implemented].
      intros nl H. apply subscriber_goes_well; assumption.
  - unfold RosTools.createServices. rewrite createServices_walk.
    rewrite (walk_returns _ RosTools.service
               (fun ns l => [RosTools.Create (RosTools.service ns l)])).
    + rewrite collect_mirror by exact Unique. rewrite done_create.
      reflexivity.
    + eapply Forall_forallb; [| exact Implemented].
      intros nl H. apply service_goes_well; assumption.
  - intros path data_class name rest At. split.
    + apply (handle_at_mirror RosTools.subscriber path _ _ _ At).
    + apply (handle_at_mirror RosTools.service path _ _ _ At).
Qed.

(** X23.  A callback that the object does not have stops
    [createSubscribers] and [createServices] midway: at the first leaf, in
    the order of the dictionaries, that names an attribute the object
    lacks, each raises [NotImplementedError] with the names of the class
    and of the attribute; the subscribers, or services, of the leaves
    before it have been constructed and are left registered, those after
    it are not constructed, and no hierarchy is returned. *)
Theorem missing_callback_stops_midway (ros : RosTools.Ros)
    (object : RosTools.Object) (namespace : string) (d : RosTools.tree)
    (before after : list (string * list RosTools.value))
    (leaf_name : string) (data_class : RosTools.value) (name : string)
    (rest : list RosTools.value) (tr : list RosTools.action) :
  (forall h, RosTools.create_fault ros h = None) ->
  RosTools.leaves namespace d
  = (before ++ (leaf_name, data_class :: RosTools.Str name :: rest) :: after)%list ->
  forallb (fun nl => RosTools.implements object (snd nl)) before = true ->
  str_in name (RosTools.attributes object) = false ->
  RosTools.createSubscribers ros object namespace d tr
  = (RosTools.Raises (RosTools.not_implemented object name),
     (tr ++ map (fun nl => RosTools.Create
                             (RosTools.subscriber (fst nl) (snd nl)))
                before)%list) /\
  RosTools.createServices ros object namespace d tr
  = (RosTools.Raises (RosTools.not_implemented object name),
     (tr ++ map (fun nl => RosTools.Create
                             (RosTools.service (fst nl) (snd nl)))
                before)%list).
Proof.
  intros Constructs Split Implemented Missing.
  set (x := (leaf_name, data_class :: RosTools.Str name :: rest)) in *.
  assert (forall r : RosTools.handles,
             RosTools.Raises (RosTools.not_implemented object name)
             <> RosTools.Returns r) as Stops by discriminate.
  split.
  - unfold RosTools.createSubscribers. rewrite createTopics_walk.
    rewrite (walk_stops
               (fun ns l => RosTools._createTopics ros object ns
                              (RosTools.Leaf l) true)
               RosTools.subscriber
               (fun ns l => [RosTools.Create (RosTools.subscriber ns l)])
               x (RosTools.Raises (RosTools.not_implemented object name)) [] d
               (fun tr => proj1 (missing_callback_raises ros object
                                   leaf_name data_class name rest tr
                                   Missing))
               Stops namespace before after Split).
    + rewrite done_create, app_nil_r. reflexivity.
    + eapply Forall_forallb; [| exact Implemented].
      intros nl H. apply subscriber_goes_well; assumption.
  - unfold RosTools.createServices. rewrite createServices_walk.
    rewrite (walk_stops
               (fun ns l => RosTools._createServices ros object ns
                              (RosTools.Leaf l) true)
               RosTools.service
               (fun ns l => [RosTools.Create (RosTools.service ns l)])
               x (RosTools.Raises (RosTools.not_implemented object name)) [] d
               (fun tr => proj2 (missing_callback_raises ros object
                                   leaf_name data_class name rest tr
                                   Missing))
               Stops namespace before after Split).
    + rewrite done_create, app_nil_r. reflexivity.
    + eapply Forall_forallb; [| exact Implemented].
      intros nl H. apply service_goes_well; assumption.
Qed.

(** ** Service proxies *)

Lemma stalled_proxy_hangs (ros : RosTools.Ros) (ns : string)
    (service_class : RosTools.value) (rest : list RosTools.value)
    (e : RosTools.error) (tr : list RosTools.action) :
  RosTools.wait_reply ros ns (Some (1 # 5)) = RosTools.Fails e ->
  RosTools.is_ROSException e = true ->
  RosTools.wait_reply ros ns None = RosTools.Never ->
  RosTools._createServices ros RosTools.none_object ns
    (RosTools.Leaf (service_class :: rest)) false tr
  = (RosTools.Hangs,
     (tr ++ [RosTools.Wait ns (Some (1 # 5));
             RosTools.Logwarn ("Waiting for service: " ++ ns);
             RosTools.Wait ns None])%list).
Proof.
  intros Late Caught Absent. cbn.
  unfold RosTools.bind, RosTools.getitem, RosTools.ret,
    RosTools.wait_for_service, RosTools.try_except,
    RosTools.rospy_wait_for_service, RosTools.bind, RosTools.logwarn.
  cbn. rewrite Late, Caught, Absent. rewrite <- !app_assoc. reflexivity.
Qed.

(** X24.  [createServiceProxies], for dictionaries with distinct keys
    whose leaves hold a type, when every service is there within 0.2 s
    and rospy constructs what it is asked: it waits for each service,
    once, and constructs its proxy, in the order of the dictionaries, and
    logs nothing; it returns a hierarchy with the layout of [services]
    with, under each leaf, the proxy of the service
    "namespace/k1/.../kn". *)
Theorem proxies_wait_for_each_service (ros : RosTools.Ros)
    (namespace : string) (services : RosTools.tree)
    (tr : list RosTools.action) :
  (forall h, RosTools.create_fault ros h = None) ->
  RosTools.unique_keys services = true ->
  forallb (fun nl => RosTools.on_time ros (fst nl) && RosTools.typed (snd nl))
          (RosTools.leaves namespace services) = true ->
  let rets := RosTools.mirror RosTools.proxy namespace services in
  RosTools.createServiceProxies ros namespace services tr
  = (RosTools.Returns rets,
     (tr ++ flat_map (fun nl => [RosTools.Wait (fst nl) (Some (1 # 5));
                                 RosTools.Create
                                   (RosTools.proxy (fst nl) (snd nl))])
                     (RosTools.leaves namespace services))%list) /\
  forall path l,
    RosTools.leaf_at path services = Some l ->
    RosTools.handle_at path rets
    = Some (RosTools.ServiceProxy (RosTools.topic_name namespace path)
                                  (nth 0 l RosTools.NoneValue)).
Proof.
  intros Constructs Unique Timely rets. subst rets. split.
  - unfold RosTools.createServiceProxies. rewrite createServices_walk.
    rewrite (walk_returns _ RosTools.proxy
               (fun ns l => [RosTools.Wait ns (Some (1 # 5));
                             RosTools.Create (RosTools.proxy ns l)])).
    + rewrite collect_mirror by exact Unique. reflexivity.
    + eapply Forall_forallb; [| exact Timely].
      intros nl H. apply proxy_goes_well; assumption.
  - intros path l At. apply (handle_at_mirror RosTools.proxy path _ _ _ At).
Qed.

(** X25.  A service that never comes blocks [createServiceProxies] for
    good: when the timed wait for a service raises a [ROSException] and
    the wait without a timeout never ends, the call does not return; the
    proxies of the services before it, in the order of the dictionaries,
    have been constructed, one warning has been logged, and the services
    after it are not even waited for. *)
Theorem unavailable_service_blocks_the_rest (ros : RosTools.Ros)
    (namespace : string) (services : RosTools.tree)
    (before after : list (string * list RosTools.value))
    (srv : string) (service_class : RosTools.value)
    (rest : list RosTools.value) (e : RosTools.error)
    (tr : list RosTools.action) :
  (forall h, RosTools.create_fault ros h = None) ->
  RosTools.leaves namespace services
  = (before ++ (srv, service_class :: rest) :: after)%list ->
  forallb (fun nl => RosTools.on_time ros (fst nl) && RosTools.typed (snd nl))
          before = true ->
  RosTools.wait_reply ros srv (Some (1 # 5)) = RosTools.Fails e ->
  RosTools.is_ROSException e = true ->
  RosTools.wait_reply ros srv None = RosTools.Never ->
  RosTools.createServiceProxies ros namespace services tr
  = (RosTools.Hangs,
     (tr ++ flat_map (fun nl => [RosTools.Wait (fst nl) (Some (1 # 5));
                                 RosTools.Create
                                   (RosTools.proxy (fst nl) (snd nl))])
                     before
         ++ [RosTools.Wait srv (Some (1 # 5));
             RosTools.Logwarn ("Waiting for service: " ++ srv);
             RosTools.Wait srv None])%list).
Proof.
  intros Constructs Split Timely Late Caught Absent.
  assert (forall r : RosTools.handles, RosTools.Hangs <> RosTools.Returns r)
    as Stops by discriminate.
  unfold RosTools.createServiceProxies. rewrite createServices_walk.
  rewrite (walk_stops
             (fun ns l => RosTools._createServices ros RosTools.none_object ns
                            (RosTools.Leaf l) false)
             RosTools.proxy
             (fun ns l => [RosTools.Wait ns (Some (1 # 5));
                           RosTools.Create (RosTools.proxy ns l)])
             (srv, service_class :: rest) RosTools.Hangs _ services
             (fun tr => stalled_proxy_hangs ros srv service_class rest e tr
                          Late Caught Absent)
             Stops namespace before after Split).
  - reflexivity.
  - eapply Forall_forallb; [| exact Timely].
    intros nl H. apply proxy_goes_well; assumption.
Qed.

(** X26.  [wait_for_service] when the timed wait raises: an exception
    that is not a [ROSException] propagates at once, nothing is logged
    and no proxy is made.  A [ROSException] -- the timeout, and the
    interruption of a shutdown as well -- is swallowed: a warning is
    logged and the service is waited for again, without a timeout; when
    it is found a second warning says so, and what is returned is what a
    service found at once gives: the proxy, or [None] when no type is
    given. *)
Theorem late_service_is_waited_for (ros : RosTools.Ros) (srv : string)
    (service_type : RosTools.value) (time : Q) (e : RosTools.error)
    (tr : list RosTools.action) :
  (forall h, RosTools.create_fault ros h = None) ->
  RosTools.wait_reply ros srv (Some time) = RosTools.Fails e ->
  (RosTools.is_ROSException e = false ->
   RosTools.wait_for_service ros srv service_type time tr
   = (RosTools.Raises e, (tr ++ [RosTools.Wait srv (Some time)])%list)) /\
  (RosTools.is_ROSException e = true ->
   RosTools.wait_reply ros srv None = RosTools.Found ->
   RosTools.wait_for_service ros srv service_type time tr
   = (RosTools.Returns
        match service_type with
        | RosTools.NoneValue => RosTools.NoProxy
        | _ => RosTools.ServiceProxy srv service_type
        end,
      (tr ++ [RosTools.Wait srv (Some time);
              RosTools.Logwarn ("Waiting for service: " ++ srv);
              RosTools.Wait srv None;
              RosTools.Logwarn ("Service " ++ srv ++ " found.")]
          ++ match service_type with
             | RosTools.NoneValue => []
             | _ => [RosTools.Create (RosTools.ServiceProxy srv service_type)]
             end)%list)).
Proof.
  intros Constructs Late. split.
  - intro Other.
    unfold RosTools.wait_for_service, RosTools.bind, RosTools.try_except,
      RosTools.rospy_wait_for_service. rewrite Late, Other. reflexivity.
  - intros Caught Then.
    unfold RosTools.wait_for_service, RosTools.bind, RosTools.try_except,
      RosTools.rospy_wait_for_service, RosTools.logwarn.
    rewrite Late, Caught, Then.
    destruct service_type; unfold RosTools.construct, RosTools.ret;
      rewrite ?Constructs, <- ?app_assoc; cbn; rewrite ?app_nil_r;
      reflexivity.
Qed.

(** * The properties on the samples *)

(** The optimiser fails with a residual of norm 7/100: a warning, the
    estimate is published, then the links of the model are broadcast at
    the stamp of the sealed frame, and the cycle returns. *)
Lemma failed_optimisation_is_published_witness :
  let w' := snd (estimation Sample.diverging Sample.ready) in
  let at_ := fun name =>
    SendTransform [0; 0; 0]%Q [0; 0; 0; 1]%Q 10 name "world" in
  mutex (self Sample.ready) = false /\
  optimisation_signals (since Sample.ready w')
  = [(Warn, numpy_norm Sample.diverging [3 # 100; - (4 # 100)]%Q)] /\
  estimates_published (since Sample.ready w') = [[(1 # 2) + (1 # 10)]%Q] /\
  fst (estimation Sample.diverging Sample.ready) = Ret tt /\
  broadcasts (since Sample.ready w')
  = [at_ "root_joint_link"; at_ "talos/root_joint_link";
     at_ "talos/arm_link"] /\
  universe_child_joint_names (self w') = Some ["talos/root_joint"].
Proof.
  intros w' at_.
  destruct (failed_optimisation_is_published Sample.diverging Sample.ready
              [1 # 2] 0 [(1 # 2) + (1 # 10)]%Q [3 # 100; - (4 # 100)]%Q
              eq_refl (sample_server_answers _ _ _ _) eq_refl eq_refl)
    as [Warned [_ [Published [Returned [Broadcast [Held _]]]]]].
  split; [reflexivity|]. split; [apply Warned; vm_compute; reflexivity|].
  split; [exact Published|]. split; [exact Returned|].
  split; [exact Broadcast | exact Held].
Defined.

(** The connection is lost in the middle of a cycle: the cycle returns. *)
Lemma estimation_swallows_exceptions_witness :
  mutex (self Sample.ready) = false /\
  fault Cases.faulty GetCurrentConfig
  = Some (SystemException "connection lost") /\
  fst (estimation Cases.faulty Sample.ready) = Ret tt.
Proof.
  split; [reflexivity|]. split; [reflexivity|].
  destruct (estimation_swallows_exceptions Cases.faulty Sample.ready eq_refl)
    as [Returned | [e [Raised _]]]; [exact Returned|].
  vm_compute in Raised. discriminate Raised.
Defined.

(** The server refuses to lock the joint: the error is logged, the last
    thing done, and the callback returns. *)
Lemma get_joint_state_swallows_user_exceptions_witness :
  let js := {| js_name := ["arm"]; js_position := [1 # 2] |} in
  let w' := snd (get_joint_state Cases.faulty js Sample.world) in
  let refused := CreateLockedJoint "lock_talos/arm" "talos/arm" [1 # 2] in
  mutex (self Sample.world) = false /\
  fault Cases.faulty refused = Some (UserException "no such joint") /\
  fst (get_joint_state Cases.faulty js Sample.world) = Ret tt /\
  mutex (self w') = false /\
  since Sample.world w'
  = [Called Hpp_client; Called GetRobotName;
     Called (GetJointType "talos/arm");
     Called (GetJointConfigSize "talos/arm");
     Called (GetJointBounds "talos/arm");
     Called refused;
     Log Err None (Cannot_get_joint_state (UserException "no such joint"))].
Proof.
  intros js w' refused.
  assert (In (Called refused) (since Sample.world w')) as Made
    by (vm_compute; repeat first [left; reflexivity | right]).
  destruct (get_joint_state_swallows_user_exceptions Cases.faulty js
              Sample.world eq_refl) as [_ Logged].
  destruct (Logged refused "no such joint" Made eq_refl)
    as [Returned [Freed _]].
  split; [reflexivity|]. split; [reflexivity|]. split; [exact Returned|].
  split; [exact Freed|]. vm_compute. reflexivity.
Defined.

(** The joint "arm" is locked; a joint state that names another joint
    does not change the list. *)
Lemma locked_joints_are_set_once_witness :
  let js := {| js_name := ["leg"]; js_position := [1 # 2] |} in
  locked_joints (self Cases.locked) <> [] /\
  locked_joints (self (snd (get_joint_state Sample.server js Cases.locked)))
  = ["lock_talos/arm"].
Proof.
  intro js.
  assert (locked_joints (self Cases.locked) <> []) as Populated
    by discriminate.
  split; [exact Populated|].
  apply (locked_joints_are_set_once Sample.server js
           (Sample.detection 20 "tag1" Sample.facing) Cases.locked Populated
           (get_joint_state Sample.server js)).
  simpl. tauto.
Defined.

(** The joint "arm", bounded by [0, 1], at 1/2. *)
Lemma joint_state_inside_bounds_witness :
  let js := {| js_name := ["arm"; "leg"]; js_position := [1 # 2] |} in
  let w' := snd (get_joint_state Sample.server js Sample.world) in
  mutex (self Sample.world) = false /\
  answers Sample.server /\
  since Sample.world w'
  = [Called Hpp_client; Called GetRobotName;
     Called (GetJointType "talos/arm");
     Called (GetJointConfigSize "talos/arm");
     Called (GetJointBounds "talos/arm");
     Called (CreateLockedJoint "lock_talos/arm" "talos/arm" [1 # 2])] /\
  locked_joints (self w') = ["lock_talos/arm"; "lock_talos/leg"].
Proof.
  intros js w'.
  assert (answers Sample.server) as Answers by apply sample_server_answers.
  assert (Forall (strictly_inside Sample.server)
                 (combine (js_name js) (js_position js))) as Inside.
  { constructor; [| constructor].
    exists 0%Q, 1%Q. repeat split; reflexivity. }
  destruct (joint_state_inside_bounds Sample.server js Sample.world
              eq_refl Answers Inside) as [_ [Events Locked]].
  split; [reflexivity|]. split; [exact Answers|].
  split; [exact Events | exact (Locked eq_refl)].
Defined.

(** The joint "arm", bounded by [0, 1], at -1/2: locked at the lower
    bound, with a warning. *)
Lemma lower_bound_and_inside_witness :
  let js := {| js_name := ["arm"]; js_position := [- (1 # 2)]%Q |} in
  let w' := snd (get_joint_state Sample.server js Sample.world) in
  mutex (self Sample.world) = false /\
  answers Sample.server /\
  one_dimensional Sample.server "talos/arm" 0 1 /\
  (exists v, joints_locked (since Sample.world w')
             = [("lock_talos/arm", "talos/arm", [v])] /\ (v == 0)%Q) /\
  bound_warnings (since Sample.world w')
  = [("talos/arm", (- (1 # 2))%Q, [0%Q; 1%Q])].
Proof.
  intros js w'.
  assert (answers Sample.server) as Answers by apply sample_server_answers.
  assert (one_dimensional Sample.server "talos/arm" 0 1) as Joint
    by (repeat split; reflexivity).
  destruct (lower_bound_and_inside Sample.server Sample.world "arm"
              (- (1 # 2))%Q 0%Q 1%Q eq_refl Answers Joint
              ltac:(discriminate) ltac:(discriminate))
    as [[v [Locked [Below _]]] [_ Warned]].
  split; [reflexivity|]. split; [exact Answers|]. split; [exact Joint|].
  split.
  - exists v. split; [exact Locked | apply Below; reflexivity].
  - apply Warned. reflexivity.
Defined.

(** An unbounded rotation: the joint is locked at the cosine and the sine
    the server's library gives. *)
Lemma unbounded_rotation_is_locked_on_the_circle_witness :
  let js := {| js_name := ["arm"]; js_position := [3 # 2] |} in
  let w' := snd (get_joint_state Cases.turning js Sample.world) in
  mutex (self Sample.world) = false /\
  answers Cases.turning /\
  joints_locked (since Sample.world w')
  = [("lock_talos/arm", "talos/arm", [0%Q; 1%Q])] /\
  asks_bounds (since Sample.world w') = false.
Proof.
  intros js w'.
  assert (answers Cases.turning) as Answers by (intro c; reflexivity).
  destruct (unbounded_rotation_is_locked_on_the_circle Cases.turning
              Sample.world "arm" (3 # 2) eq_refl Answers eq_refl eq_refl)
    as [_ [Locked [Unasked _]]].
  split; [reflexivity|]. split; [exact Answers|].
  split; [exact Locked | exact Unasked].
Defined.

(** The optimiser fails and the configuration it returns is in collision:
    the estimate is published all the same, with one warning that carries
    the report of the server. *)
Lemma validation_is_advisory_witness :
  let w' := snd (estimation Cases.colliding Sample.ready) in
  mutex (self Sample.ready) = false /\
  answers Cases.colliding /\
  optimize_reply Cases.colliding [1 # 2]
  = (false, [(1 # 2) + (1 # 10)]%Q, [3 # 100; - (4 # 100)]%Q) /\
  isConfigValid_reply Cases.colliding [(1 # 2) + (1 # 10)]%Q
  = (false, "talos/arm_link collides with the table") /\
  estimates_published (since Sample.ready w') = [[(1 # 2) + (1 # 10)]%Q] /\
  collision_warnings (since Sample.ready w')
  = ["talos/arm_link collides with the table"].
Proof.
  intro w'.
  assert (answers Cases.colliding) as Answers by (intro c; reflexivity).
  destruct (validation_is_advisory Cases.colliding Sample.ready
              [1 # 2] 0 false [(1 # 2) + (1 # 10)]%Q
              [3 # 100; - (4 # 100)]%Q false
              "talos/arm_link collides with the table"
              eq_refl Answers eq_refl eq_refl eq_refl)
    as [Published [Collision _]].
  split; [reflexivity|]. split; [exact Answers|].
  split; [reflexivity|]. split; [reflexivity|].
  split; [exact Published | exact Collision].
Defined.

(** Without the manipulation client: the constraint "gaze" of the
    parameter, then the sealed frame. *)
Lemma flat_mode_uses_default_constraints_witness :
  let w' := snd (_initialize_constraints Sample.server [1 # 2] Cases.flat) in
  has_manip (self Cases.flat) = false /\
  answers Sample.server /\
  asks_graph (since Cases.flat w') = false /\
  constraints_added (since Cases.flat w')
  = [("constraints", ["gaze"], [0]);
     ("unused", ["T_talos/camera_talos/tag1"], [1])].
Proof.
  intro w'.
  assert (answers Sample.server) as Answers by apply sample_server_answers.
  destruct (flat_mode_uses_default_constraints Sample.server [1 # 2]
              Cases.flat eq_refl Answers)
    as [_ [_ [Unasked [_ Added]]]].
  split; [reflexivity|]. split; [exact Answers|].
  split; [exact Unasked | exact Added].
Defined.

(** A sealed frame of one tag: it is added and made optional. *)
Lemma sealed_frame_is_added_as_optional_witness :
  let w' := snd (_initialize_constraints Sample.server [1 # 2] Sample.ready) in
  answers Sample.server /\
  last_visual_tag_constraints (self Sample.ready) <> [] /\
  optional_flags (since Sample.ready w') = [true].
Proof.
  intro w'.
  assert (answers Sample.server) as Answers by apply sample_server_answers.
  assert (last_visual_tag_constraints (self Sample.ready) <> []) as Sealed
    by discriminate.
  destruct (sealed_frame_is_added_as_optional Sample.server [1 # 2]
              Sample.ready Answers) as [_ Added].
  destruct (Added Sealed) as [Flags _].
  split; [exact Answers|]. split; [exact Sealed | exact Flags].
Defined.

(** With the tags enabled, a base pose stamped 20 joins the frame stamped
    10; a second one changes nothing. *)
Lemma base_pose_joins_the_open_frame_witness :
  let ts := Sample.detection 20 "base_link" Sample.identity in
  let w1 := snd (get_base_pose_estimation Sample.server ts Sample.world) in
  mutex (self Sample.world) = false /\
  answers Sample.server /\
  visual_tags_enabled (self Sample.world) = true /\
  current_stamp (self Sample.world) <= stamp (header ts) /\
  current_stamp (self w1) = 10 /\
  last_stamp_is_ready (self w1) = false /\
  current_visual_tag_constraints (self w1)
  = ["T_base/talos/universe_talos/root_joint"] /\
  self (snd (get_base_pose_estimation Sample.server ts w1)) = self w1.
Proof.
  intros ts w1.
  assert (answers Sample.server) as Answers by apply sample_server_answers.
  assert (current_stamp (self Sample.world) <= stamp (header ts)) as Fresh
    by (cbn; lia).
  destruct (base_pose_joins_the_open_frame Sample.server ts ts Sample.world
              eq_refl Answers eq_refl Fresh Fresh)
    as [_ [Kept [Open Again]]].
  split; [reflexivity|]. split; [exact Answers|]. split; [reflexivity|].
  split; [exact Fresh|].
  split; [exact (f_equal snd Kept)|].
  split; [exact (f_equal (fun x => snd (fst x)) Kept)|].
  split; [exact Open | exact Again].
Defined.

(** The children of "universe" are known: a cycle does not read the tree
    of joints. *)
Lemma joint_tree_is_read_once_witness :
  let w' := snd (estimation Sample.server Cases.broadcasting) in
  universe_child_joint_names (self Cases.broadcasting)
  = Some ["talos/root_joint"] /\
  universe_child_joint_names (self w') = Some ["talos/root_joint"] /\
  existsb reads_joint_tree (since Cases.broadcasting w') = false.
Proof.
  intro w'. split; [reflexivity|].
  apply (joint_tree_is_read_once Sample.server
           {| js_name := []; js_position := [] |}
           (Sample.detection 20 "tag1" Sample.facing)
           Cases.broadcasting ["talos/root_joint"] eq_refl
           (estimation Sample.server)).
  simpl. tauto.
Defined.

(** The model of the sample: the link of the root joint, first without
    the robot prefix, then the links of the two joints of the robot. *)
Lemma publish_state_broadcasts_witness :
  let w' := snd (publish_state Sample.server Sample.world) in
  let at_ := fun name => SendTransform [0; 0; 0]%Q [0; 0; 0; 1]%Q 10 name "world" in
  answers Sample.server /\
  universe_child_joint_names (self w') = Some ["talos/root_joint"] /\
  broadcasts (since Sample.world w')
  = [at_ "root_joint_link"; at_ "talos/root_joint_link";
     at_ "talos/arm_link"].
Proof.
  intros w' at_.
  assert (answers Sample.server) as Answers by apply sample_server_answers.
  destruct (publish_state_broadcasts Sample.server Sample.world Answers)
    as [_ [Held [_ Sent]]].
  split; [exact Answers|]. split; [exact Held | exact Sent].
Defined.

(** The server refuses the position constraint of a tag: the callback
    raises, the node is as it was. *)
Lemma failed_detection_changes_nothing_witness :
  let ts := Sample.detection 20 "tag1" Sample.facing in
  mutex (self Sample.world) = false /\
  fst (get_visual_tag Cases.faulty ts Sample.world)
  = Exc (UserException "no such joint") /\
  self (snd (get_visual_tag Cases.faulty ts Sample.world)) = self Sample.world.
Proof.
  intro ts.
  assert (fst (get_visual_tag Cases.faulty ts Sample.world)
          = Exc (UserException "no such joint")) as Raised
    by (vm_compute; reflexivity).
  split; [reflexivity|]. split; [exact Raised|].
  apply (failed_detection_changes_nothing Cases.faulty ts Sample.world
           (UserException "no such joint") eq_refl
           (get_visual_tag Cases.faulty ts)); [simpl; tauto | exact Raised].
Defined.

(** A tag seen from the front: the weight is 0.252 and two names join the
    frame. *)
Lemma unit_rotation_gives_two_constraints_witness :
  let ts := Sample.detection 10 "tag1" Sample.facing in
  let w' := snd (get_visual_tag Sample.server ts Sample.world) in
  mutex (self Sample.world) = false /\
  answers Sample.server /\
  current_stamp (self Sample.world) <= stamp (header ts) /\
  (HppQuaternion.normSquared Sample.facing == 1)%Q /\
  constraints_created (since Sample.world w')
  = ["P_talos/camera_talos/tag1"; "O_talos/camera_talos/tag1";
     "sO_talos/camera_talos/tag1"] /\
  weights_passed (since Sample.world w') = [orientation_weight Sample.facing].
Proof.
  intros ts w'.
  assert (answers Sample.server) as Answers by apply sample_server_answers.
  assert (current_stamp (self Sample.world) <= stamp (header ts)) as Fresh
    by (cbn; lia).
  assert (HppQuaternion.normSquared Sample.facing == 1)%Q as Unit
    by reflexivity.
  destruct (unit_rotation_gives_two_constraints Sample.server ts Sample.world
              eq_refl Answers Fresh Unit) as [_ [_ [Created [Passed _]]]].
  split; [reflexivity|]. split; [exact Answers|]. split; [exact Fresh|].
  split; [exact Unit|]. split; [exact Created | exact Passed].
Defined.

(** The manipulation server is lost, state 4 is cached: the cached state
    is not used, the cycle ends without projecting. *)
Lemma graph_error_is_not_a_lost_state_witness :
  let w1 := snd (_initialize_constraints Cases.graphless [1 # 2] Sample.cached) in
  let w2 := snd (estimation Cases.graphless Sample.cached) in
  has_manip (self Sample.cached) = true /\
  last_state_id (self Sample.cached) = Some 4 /\
  fst (_initialize_constraints Cases.graphless [1 # 2] Sample.cached)
  = Exc (SystemException "connection lost") /\
  states_used (since Sample.cached w1) = [] /\
  fst (estimation Cases.graphless Sample.cached) = Ret tt /\
  projects (since Sample.cached w2) = false.
Proof.
  intros w1 w2.
  destruct (graph_error_is_not_a_lost_state Cases.graphless Sample.cached
              (SystemException "connection lost")
              eq_refl eq_refl eq_refl eq_refl eq_refl eq_refl eq_refl)
    as [[Raised [_ [_ [Unused _]]]] Cycle].
  destruct (Cycle eq_refl eq_refl) as [Returned [_ [Unprojected _]]].
  split; [reflexivity|]. split; [reflexivity|]. split; [exact Raised|].
  split; [exact Unused|]. split; [exact Returned | exact Unprojected].
Defined.

(** The server refuses to lock the joint "arm": the error is logged and
    the list of locked joints stays empty. *)
Lemma failed_joint_state_populates_nothing_witness :
  let js := {| js_name := ["arm"]; js_position := [1 # 2] |} in
  let w' := snd (get_joint_state Cases.faulty js Sample.world) in
  mutex (self Sample.world) = false /\
  existsb joint_state_error (since Sample.world w') = true /\
  locked_joints (self w') = [].
Proof.
  intros js w'.
  assert (existsb joint_state_error (since Sample.world w') = true) as Logged
    by (vm_compute; reflexivity).
  split; [reflexivity|]. split; [exact Logged|].
  apply (failed_joint_state_populates_nothing Cases.faulty js Sample.world
           eq_refl).
  right. exact Logged.
Defined.

(** The publishers of the class [Estimation]: [publishers] ["estimation"]
    ["semantic"] and ["state_id"] are there. *)
Lemma createPublishers_mirrors_topics_witness :
  let rets := RosTools.mirror RosTools.publisher "/agimus"
                RosTools.publishersDict in
  RosTools.unique_keys RosTools.publishersDict = true /\
  fst (RosTools.createPublishers RosTools.calm "/agimus"
         RosTools.publishersDict [])
  = RosTools.Returns rets /\
  RosTools.handle_at ["estimation"; "semantic"] rets
  = Some (RosTools.Publisher "/agimus/estimation/semantic"
            (RosTools.Class "Vector") (RosTools.Int 1)) /\
  RosTools.handle_at ["estimation"; "state_id"] rets
  = Some (RosTools.Publisher "/agimus/estimation/state_id"
            (RosTools.Class "UInt32") (RosTools.Int 1)).
Proof.
  intro rets.
  destruct (createPublishers_mirrors_topics RosTools.calm "/agimus"
              RosTools.publishersDict [] (fun _ => eq_refl) eq_refl eq_refl)
    as [Run At].
  split; [reflexivity|]. split; [exact (f_equal fst Run)|]. split.
  - exact (At ["estimation"; "semantic"]
               [RosTools.Class "Vector"; RosTools.Int 1] eq_refl).
  - exact (At ["estimation"; "state_id"]
               [RosTools.Class "UInt32"; RosTools.Int 1] eq_refl).
Defined.

(** The subscribers and the service of the class [Estimation]. *)
Lemma callbacks_mirror_the_dictionaries_witness :
  RosTools.unique_keys RosTools.subscribersDict = true /\
  RosTools.constructed
    (snd (RosTools.createSubscribers RosTools.calm RosTools.estimation_node
            "/agimus" RosTools.subscribersDict []))
  = [RosTools.Subscriber "/agimus/estimation/request"
       (RosTools.Class "Empty") "estimation";
     RosTools.Subscriber "/agimus/vision/tags"
       (RosTools.Class "TransformStamped") "get_visual_tag";
     RosTools.Subscriber "/agimus/sot/base_pose_estimation"
       (RosTools.Class "TransformStamped") "get_base_pose_estimation"] /\
  RosTools.handle_at ["estimation"; "continuous_estimation"]
    (RosTools.mirror RosTools.service "/agimus" RosTools.servicesDict)
  = Some (RosTools.Service "/agimus/estimation/continuous_estimation"
            (RosTools.Class "SetBool") "continuous_estimation").
Proof.
  destruct (callbacks_mirror_the_dictionaries RosTools.calm
              RosTools.estimation_node "/agimus" RosTools.subscribersDict []
              (fun _ => eq_refl) eq_refl eq_refl) as [[Subscribed _] _].
  destruct (callbacks_mirror_the_dictionaries RosTools.calm
              RosTools.estimation_node "/agimus" RosTools.servicesDict []
              (fun _ => eq_refl) eq_refl eq_refl) as [_ At].
  split; [reflexivity|]. split.
  - rewrite Subscribed. reflexivity.
  - exact (proj2 (At ["estimation"; "continuous_estimation"]
                      (RosTools.Class "SetBool") "continuous_estimation" []
                      eq_refl)).
Defined.

(** A class without [get_visual_tag]: the subscriber of the request is
    constructed, then the construction stops. *)
Lemma missing_callback_stops_midway_witness :
  RosTools.createSubscribers RosTools.calm RosTools.partial_node "/agimus"
    RosTools.subscribersDict []
  = (RosTools.Raises
       (RosTools.NotImplementedError
          "Class `Estimation` does not implement `get_visual_tag`"),
     [RosTools.Create
        (RosTools.Subscriber "/agimus/estimation/request"
           (RosTools.Class "Empty") "estimation")]).
Proof.
  apply (missing_callback_stops_midway RosTools.calm RosTools.partial_node
           "/agimus" RosTools.subscribersDict
           [("/agimus/estimation/request",
             [RosTools.Class "Empty"; RosTools.Str "estimation"])]
           [("/agimus/sot/base_pose_estimation",
             [RosTools.Class "TransformStamped";
              RosTools.Str "get_base_pose_estimation"])]
           "/agimus/vision/tags" (RosTools.Class "TransformStamped")
           "get_visual_tag" [] [] (fun _ => eq_refl) eq_refl eq_refl eq_refl).
Defined.

(** Three services that are there: three waits, three proxies. *)
Lemma proxies_wait_for_each_service_witness :
  RosTools.unique_keys RosTools.proxiesDict = true /\
  snd (RosTools.createServiceProxies RosTools.calm "/agimus"
         RosTools.proxiesDict [])
  = [RosTools.Wait "/agimus/hpp/reset" (Some (1 # 5));
     RosTools.Create (RosTools.ServiceProxy "/agimus/hpp/reset"
                        (RosTools.Class "Empty"));
     RosTools.Wait "/agimus/hpp/late" (Some (1 # 5));
     RosTools.Create (RosTools.ServiceProxy "/agimus/hpp/late"
                        (RosTools.Class "SetBool"));
     RosTools.Wait "/agimus/hpp/solve" (Some (1 # 5));
     RosTools.Create (RosTools.ServiceProxy "/agimus/hpp/solve"
                        (RosTools.Class "Trigger"))].
Proof.
  destruct (proxies_wait_for_each_service RosTools.calm "/agimus"
              RosTools.proxiesDict [] (fun _ => eq_refl) eq_refl eq_refl)
    as [Run _].
  split; [reflexivity | exact (f_equal snd Run)].
Defined.

(** The second of three services never comes: one proxy, and no end. *)
Lemma unavailable_service_blocks_the_rest_witness :
  RosTools.createServiceProxies RosTools.stalled "/agimus"
    RosTools.proxiesDict []
  = (RosTools.Hangs,
     [RosTools.Wait "/agimus/hpp/reset" (Some (1 # 5));
      RosTools.Create (RosTools.ServiceProxy "/agimus/hpp/reset"
                         (RosTools.Class "Empty"));
      RosTools.Wait "/agimus/hpp/late" (Some (1 # 5));
      RosTools.Logwarn "Waiting for service: /agimus/hpp/late";
      RosTools.Wait "/agimus/hpp/late" None]).
Proof.
  apply (unavailable_service_blocks_the_rest RosTools.stalled "/agimus"
           RosTools.proxiesDict
           [("/agimus/hpp/reset", [RosTools.Class "Empty"])]
           [("/agimus/hpp/solve", [RosTools.Class "Trigger"])]
           "/agimus/hpp/late" (RosTools.Class "SetBool") []
           (RosTools.ROSException "timeout exceeded") []
           (fun _ => eq_refl) eq_refl eq_refl eq_refl eq_refl eq_refl).
Defined.

(** A service that comes after the timeout: two warnings and the proxy. *)
Lemma late_service_is_waited_for_witness :
  RosTools.wait_for_service RosTools.slow "/agimus/hpp/late"
    (RosTools.Class "SetBool") (1 # 5) []
  = (RosTools.Returns
       (RosTools.ServiceProxy "/agimus/hpp/late" (RosTools.Class "SetBool")),
     [RosTools.Wait "/agimus/hpp/late" (Some (1 # 5));
      RosTools.Logwarn "Waiting for service: /agimus/hpp/late";
      RosTools.Wait "/agimus/hpp/late" None;
      RosTools.Logwarn "Service /agimus/hpp/late found.";
      RosTools.Create
        (RosTools.ServiceProxy "/agimus/hpp/late" (RosTools.Class "SetBool"))]).
Proof.
  destruct (late_service_is_waited_for RosTools.slow "/agimus/hpp/late"
              (RosTools.Class "SetBool") (1 # 5)
              (RosTools.ROSException "timeout exceeded") []
              (fun _ => eq_refl) eq_refl) as [_ Late].
  exact (Late eq_refl eq_refl).
Defined.
